(** * EO-SAR change detection: a shallow embedding of the two detection scripts

    The development follows [src/change_detection_S1.py] (radar path) and
    [src/change_detection_s2.py] (optical path), and the script that
    prepares the optical stacks, [src/pre_process_merging_band_s2.py].

    Conventions of the embedding:
    - a 2-D numpy array is an [ndarray]: its shape and its rows; every array
      the scripts compute is produced by [build], cell by cell;
    - samples are exact rationals ([Q]) standing for the float32 samples of
      the rasters; boolean and 0/1 [uint8] masks are arrays of [bool];
    - a Python exception is a value of [exn]; the scripts run in a small
      monad [M] that threads the log of side effects (directories made,
      files written, lines printed) and stops at the first exception;
    - library routines whose result the scripts only pass along are
      parameters: the decimal logarithm ([log10]), the raster-to-vector
      tracer ([shapes]) and the principal axis an eigen-solver picks
      ([first_axis]). *)

From Stdlib Require Import String.
From Stdlib Require Import List ZArith QArith Qabs Qround Lia Lqa Bool PeanoNat.
From Stdlib Require DecimalNat DecimalString FinFun.
Import ListNotations.

Open Scope Z_scope.

(* ================================================================== *)
(** ** Python exceptions *)
(* ================================================================== *)

Inductive exn : Type :=
| ValueError (msg : string)
| IndexError (msg : string).

Inductive result (A : Type) : Type :=
| Ok (a : A)
| Raise (e : exn).
Arguments Ok {A} a.
Arguments Raise {A} e.

(** The two failures of the radar script, under the names the design
    document gives them: the [ValueError] the script raises itself when the
    rasters differ in shape, and the [IndexError] numpy raises when a
    percentile is asked of an empty population. *)
Definition ShapeMismatch : exn :=
  ValueError "Input rasters must have identical dimensions.".
Definition EmptyPopulation : exn :=
  IndexError "index -1 is out of bounds for axis 0 with size 0".

(* ================================================================== *)
(** ** numpy arrays *)
(* ================================================================== *)
Module Np.

Record ndarray (A : Type) : Type := mk_ndarray {
  nrows : nat;
  ncols : nat;
  cells : list (list A)
}.
Arguments mk_ndarray {A} _ _ _.
Arguments nrows {A} _.
Arguments ncols {A} _.
Arguments cells {A} _.

Definition shape {A} (a : ndarray A) : nat * nat := (nrows a, ncols a).

Definition shape_eqb (s t : nat * nat) : bool :=
  Nat.eqb (fst s) (fst t) && Nat.eqb (snd s) (snd t).

Definition in_bounds (h w : nat) (r c : Z) : bool :=
  (0 <=? r) && (r <? Z.of_nat h) && (0 <=? c) && (c <? Z.of_nat w).

(** [a[r, c]], with [d] read outside the array. *)
Definition get {A} (d : A) (a : ndarray A) (r c : Z) : A :=
  if in_bounds (nrows a) (ncols a) r c
  then nth (Z.to_nat c) (nth (Z.to_nat r) (cells a) []) d
  else d.

Definition getp {A} (d : A) (a : ndarray A) (p : Z * Z) : A :=
  get d a (fst p) (snd p).

(** The array of shape [(h, w)] whose cell [(r, c)] is [f r c]. *)
Definition build {A} (h w : nat) (f : Z -> Z -> A) : ndarray A :=
  mk_ndarray h w
    (map (fun i => map (fun j => f (Z.of_nat i) (Z.of_nat j)) (seq 0 w))
         (seq 0 h)).

(** The cell coordinates of an [(h, w)] array in row-major (C) order. *)
Definition indices (h w : nat) : list (Z * Z) :=
  flat_map (fun i => map (fun j => (Z.of_nat i, Z.of_nat j)) (seq 0 w))
           (seq 0 h).

Definition full {A} (h w : nat) (v : A) : ndarray A := build h w (fun _ _ => v).

(** [np.zeros_like(a, dtype=np.uint8)] *)
Definition zeros_like {A} (a : ndarray A) : ndarray bool :=
  full (nrows a) (ncols a) false.

(** Element-wise operations; the result has the shape of the first operand
    (the scripts only combine arrays of one shape). *)
Definition amap {A B} (f : A -> B) (d : A) (a : ndarray A) : ndarray B :=
  build (nrows a) (ncols a) (fun r c => f (get d a r c)).

Definition map2 {A B C} (f : A -> B -> C) (da : A) (db : B)
  (a : ndarray A) (b : ndarray B) : ndarray C :=
  build (nrows a) (ncols a) (fun r c => f (get da a r c) (get db b r c)).

(** Boolean-mask indexing [a[m]]: the selected samples, in row-major order. *)
Definition select {A} (d : A) (a : ndarray A) (m : ndarray bool) : list A :=
  map (getp d a) (filter (getp false m) (indices (nrows a) (ncols a))).

Definition pix_eqb (p q : Z * Z) : bool :=
  (fst p =? fst q) && (snd p =? snd q).

Definition mem_pix (p : Z * Z) (l : list (Z * Z)) : bool :=
  existsb (pix_eqb p) l.

(** Fancy-index assignment [a[rows, cols] = v]. *)
Definition set_coords {A} (d : A) (a : ndarray A) (coords : list (Z * Z)) (v : A)
  : ndarray A :=
  build (nrows a) (ncols a)
        (fun r c => if mem_pix (r, c) coords then v else get d a r c).

(** Comparisons of samples. *)
Definition Qlt_bool (x y : Q) : bool := negb (Qle_bool y x).
Definition Qge_bool (x y : Q) : bool := Qle_bool y x.
Definition Qgt_bool (x y : Q) : bool := Qlt_bool y x.

(** [np.clip(x, lo, None)] and [x.clip(min=lo)] on one sample. *)
Definition clip_min (lo x : Q) : Q := if Qlt_bool x lo then lo else x.

(** A boolean mask as a 0/1 factor, as in [arr * land_mask]. *)
Definition times_mask (x : Q) (b : bool) : Q := (x * (if b then 1 else 0))%Q.

Definition Qsum (l : list Q) : Q := fold_right Qplus 0%Q l.

(** [arr.mean()] of a non-empty selection. *)
Definition mean (l : list Q) : Q := (Qsum l / inject_Z (Z.of_nat (length l)))%Q.

(** Sorting, for the order statistics. *)
Fixpoint insert_sorted (x : Q) (l : list Q) : list Q :=
  match l with
  | [] => [x]
  | y :: l' => if Qle_bool x y then x :: l else y :: insert_sorted x l'
  end.

Definition sort (l : list Q) : list Q := fold_right insert_sorted [] l.

(** [np.percentile(a, q)] with the default linear interpolation.  numpy
    partitions the population and takes the neighbouring order statistics
    by index; on an empty population the index is out of bounds and numpy
    raises [IndexError] ("index -1 is out of bounds for axis 0 with size 0";
    before numpy 1.22, "cannot do a non-empty take from an empty axes").
    No value, and no NaN, is returned for an empty population. *)
Definition np_percentile (a : list Q) (q : Q) : result Q :=
  match a with
  | [] => Raise EmptyPopulation
  | x0 :: _ =>
      let s := sort a in
      let n := Z.of_nat (length a) in
      let virt := (inject_Z (n - 1) * q / 100)%Q in
      let lo := Qfloor virt in
      let hi := Z.min (lo + 1) (n - 1) in
      let g := (virt - inject_Z lo)%Q in
      let xl := nth (Z.to_nat lo) s x0 in
      let xh := nth (Z.to_nat hi) s x0 in
      Ok (xl + g * (xh - xl))%Q
  end.

End Np.
Import Np.

(* ================================================================== *)
(** ** scipy.ndimage: binary morphology and the uniform filter *)
(* ================================================================== *)
Module Ndimage.

(** A structuring element, as the offsets of its set cells from the centre. *)
Definition structure := list (Z * Z).

Definition offsets3x3 : structure :=
  [(-1,-1); (-1,0); (-1,1); (0,-1); (0,0); (0,1); (1,-1); (1,0); (1,1)].

(** [generate_binary_structure(2, connectivity)] (rank 2 throughout): the
    cells of the 3x3 square within city-block distance [connectivity] of
    the centre. *)
Definition generate_binary_structure (connectivity : Z) : structure :=
  filter (fun o => Z.abs (fst o) + Z.abs (snd o) <=? connectivity) offsets3x3.

(** One erosion step with [border_value = 0]: a cell survives when the
    mask is set under every cell of the structuring element, and cells
    outside the array count as unset. *)
Definition binary_erosion1 (s : structure) (m : ndarray bool) : ndarray bool :=
  build (nrows m) (ncols m)
        (fun r c => forallb (fun o => get false m (r + fst o) (c + snd o)) s).

(** One dilation step with [border_value = 0]. *)
Definition binary_dilation1 (s : structure) (m : ndarray bool) : ndarray bool :=
  build (nrows m) (ncols m)
        (fun r c => existsb (fun o => get false m (r - fst o) (c - snd o)) s).

Definition binary_erosion (m : ndarray bool) (s : structure) (iterations : nat) :=
  Nat.iter iterations (binary_erosion1 s) m.

Definition binary_dilation (m : ndarray bool) (s : structure) (iterations : nat) :=
  Nat.iter iterations (binary_dilation1 s) m.

Definition binary_opening (m : ndarray bool) (s : structure) (iterations : nat) :=
  binary_dilation (binary_erosion m s iterations) s iterations.

Definition binary_closing (m : ndarray bool) (s : structure) (iterations : nat) :=
  binary_erosion (binary_dilation m s iterations) s iterations.

(** Index extension of [mode='reflect']: (d c b a | a b c d | d c b a). *)
Definition reflect (n : nat) (i : Z) : Z :=
  if i <? 0 then - i - 1
  else if Z.of_nat n <=? i then 2 * Z.of_nat n - 1 - i
  else i.

(** [uniform_filter(img, size=3)]: the mean of the 3x3 window. *)
Definition uniform_filter (img : ndarray Q) : ndarray Q :=
  build (nrows img) (ncols img)
        (fun r c =>
           (Qsum (map (fun o => get 0%Q img (reflect (nrows img) (r + fst o))
                                            (reflect (ncols img) (c + snd o)))
                      offsets3x3) / 9)%Q).

End Ndimage.
Import Ndimage.

(* ================================================================== *)
(** ** skimage.measure: connected components *)
(* ================================================================== *)
Module Measure.

(** One growth step of a region [s] inside the mask [x]: the cells of [x]
    that are in [s] or touch it (8-connectivity). *)
Definition grow (x s : ndarray bool) : ndarray bool :=
  build (nrows x) (ncols x)
        (fun r c => get false x r c &&
                    existsb (fun o => get false s (r + fst o) (c + snd o)) offsets3x3).

Definition seed (x : ndarray bool) (p : Z * Z) : ndarray bool :=
  build (nrows x) (ncols x) (fun r c => pix_eqb (r, c) p && get false x r c).

(** The connected component of [p] in [x]. *)
Definition flood (x : ndarray bool) (p : Z * Z) : ndarray bool :=
  Nat.iter (nrows x * ncols x) (grow x) (seed x p).

Definition paint (lab : ndarray nat) (s : ndarray bool) (l : nat) : ndarray nat :=
  build (nrows lab) (ncols lab)
        (fun r c => if get false s r c then l else get 0%nat lab r c).

(** Raster scan: the first unlabelled set cell met starts the next label,
    which is given to its whole component. *)
Fixpoint label_scan (x : ndarray bool) (ps : list (Z * Z))
  (lab : ndarray nat) (next : nat) : ndarray nat :=
  match ps with
  | [] => lab
  | p :: ps' =>
      if getp false x p && Nat.eqb (getp 0%nat lab p) 0
      then label_scan x ps' (paint lab (flood x p) next) (S next)
      else label_scan x ps' lab next
  end.

(** [label(mask)]: labels 1, 2, ... in raster order, 0 for the background;
    the default connectivity of a 2-D image is 8. *)
Definition label (x : ndarray bool) : ndarray nat :=
  label_scan x (indices (nrows x) (ncols x)) (full (nrows x) (ncols x) 0%nat) 1.

Record region : Type := mk_region {
  region_label : nat;
  coords : list (Z * Z)
}.

Definition area (reg : region) : nat := length (coords reg).

Definition max_label (lab : ndarray nat) : nat :=
  fold_right Nat.max 0%nat (map (getp 0%nat lab) (indices (nrows lab) (ncols lab))).

Definition coords_of (lab : ndarray nat) (l : nat) : list (Z * Z) :=
  filter (fun p => Nat.eqb (getp 0%nat lab p) l) (indices (nrows lab) (ncols lab)).

Definition has_coords (reg : region) : bool :=
  match coords reg with [] => false | _ :: _ => true end.

(** [regionprops(labeled)]: one region per label that occurs, by
    increasing label, with its cells in row-major order. *)
Definition regionprops (lab : ndarray nat) : list region :=
  filter has_coords
         (map (fun l => mk_region l (coords_of lab l)) (seq 1 (max_label lab))).

End Measure.
Import Measure.

(* ================================================================== *)
(** ** Georeferencing, polygons and the effects of the scripts *)
(* ================================================================== *)
Module Geo.

(** The affine geotransform [Affine(a, b, c, d, e, f)] of a raster profile;
    [transform[0]] is the pixel width and [transform[4]] the (negative)
    pixel height. *)
Record Affine : Type := mk_affine {
  af_a : Q; af_b : Q; af_c : Q; af_d : Q; af_e : Q; af_f : Q
}.

Definition getitem (t : Affine) (i : nat) : Q :=
  match i with
  | 0%nat => af_a t | 1%nat => af_b t | 2%nat => af_c t
  | 3%nat => af_d t | 4%nat => af_e t | _ => af_f t
  end.

Record Profile : Type := mk_profile {
  transform : Affine;
  crs : string
}.

(** A shapely polygon: the exterior ring and the holes, each ring closed. *)
Record polygon : Type := mk_polygon {
  exterior : list (Q * Q);
  interiors : list (list (Q * Q))
}.

Fixpoint shoelace (ring : list (Q * Q)) : Q :=
  match ring with
  | p :: ((q :: _) as rest) =>
      (fst p * snd q - fst q * snd p + shoelace rest)%Q
  | _ => 0%Q
  end.

Definition ring_area (ring : list (Q * Q)) : Q := Qabs (shoelace ring / 2).

(** [poly.area] *)
Definition polygon_area (p : polygon) : Q :=
  (ring_area (exterior p) - Qsum (map ring_area (interiors p)))%Q.

End Geo.
Import Geo.

Module Script.

Inductive event : Type :=
| MakeDirs (path : string)
| Printed (line : string)
| FigureSaved (path : string)
| FigureShown
| RasterWritten (path : string) (mask : ndarray bool) (profile : Profile)
| VectorWritten (path : string) (polygons : list polygon) (crs_ : string).

(** A script step: it extends the log of effects and either returns a value
    or raises; the effects made before an exception stay in the log. *)
Definition M (A : Type) : Type := list event -> list event * result A.

Definition ret {A} (a : A) : M A := fun w => (w, Ok a).

Definition bind {A B} (m : M A) (k : A -> M B) : M B :=
  fun w => match m w with
           | (w', Ok a) => k a w'
           | (w', Raise e) => (w', Raise e)
           end.

Definition raise {A} (e : exn) : M A := fun w => (w, Raise e).

Definition emit (ev : event) : M unit := fun w => (w ++ [ev], Ok tt).

Definition lift {A} (r : result A) : M A := fun w => (w, r).

Definition run {A} (m : M A) : list event * result A := m [].

Definition print (line : string) : M unit := emit (Printed line).

Definition path_join (dir name : string) : string := dir ++ "/" ++ name.

End Script.
Import Script.

Declare Scope script_scope.
Delimit Scope script_scope with script.
Notation "x <- m ;; k" := (bind m (fun x => k))
  (at level 61, m at next level, right associativity) : script_scope.
Notation "m ;;; k" := (bind m (fun _ => k))
  (at level 61, right associativity) : script_scope.

(** The tracer [rasterio.features.shapes(image, mask=..., transform=...)]
    followed by [shapely.geometry.shape]: the (polygon, value) pairs of the
    connected runs of equal value among the cells the mask selects. *)
Definition tracer : Type :=
  ndarray bool -> ndarray bool -> Affine -> list (polygon * Z).

(* ================================================================== *)
(** ** change_detection_S1.py *)
(* ================================================================== *)
Module S1.

Definition MIN_AREA : nat := 10.
Definition EPS : Q := 1 # 1000000000.
Definition PERCENTILE_OBJ : Q := 95.
Definition PERCENTILE_PIX : Q := 90.
Definition PERCENTILE_WATER : Q := 98.
Definition MIN_BACKSCATTER_DB : Q := -20.

Definition despeckle (img : ndarray Q) : ndarray Q := uniform_filter img.

Definition clean_mask (mask : ndarray bool) (min_area : nat) : ndarray bool :=
  let struct := generate_binary_structure 2 in
  let mask := binary_opening mask struct 1 in
  let mask := binary_closing mask struct 1 in
  let labeled := label mask in
  let cleaned := zeros_like mask in
  fold_left
    (fun cleaned reg =>
       if (min_area <=? area reg)%nat
       then set_coords false cleaned (coords reg) true
       else cleaned)
    (regionprops labeled) cleaned.

Definition save_mask (path : string) (mask : ndarray bool) (profile : Profile)
  : M unit :=
  emit (RasterWritten path mask profile).

Section WithTracer.
Variable shapes : tracer.

Definition mask_to_geojson (mask : ndarray bool) (profile : Profile)
  (out_path : string) (min_area : nat) : M unit :=
  let shp_gen := shapes mask mask (transform profile) in
  let polygons := map fst (filter (fun gv => snd gv =? 1) shp_gen) in
  let pixel_area :=
    Qabs (getitem (transform profile) 0 * getitem (transform profile) 4) in
  let polygons :=
    filter (fun poly =>
              Qge_bool (polygon_area poly)
                       (inject_Z (Z.of_nat min_area) * pixel_area))
           polygons in
  match polygons with
  | [] => print "No change polygons detected."
  | _ :: _ =>
      (emit (VectorWritten out_path polygons (crs profile)) ;;;
       print ("GeoJSON saved: " ++ out_path))%script
  end.

End WithTracer.

(** The appearance / disappearance loops: every region of [regs] that
    meets no labelled cell of [other] is marked, whole. *)
Definition unmatched (other : ndarray nat) (reg : region) : bool :=
  forallb (fun p => Nat.eqb (getp 0%nat other p) 0) (coords reg).

Definition mark_unmatched (other : ndarray nat) (regs : list region)
  (change : ndarray bool) : ndarray bool :=
  fold_left
    (fun change reg =>
       if unmatched other reg
       then set_coords false change (coords reg) true
       else change)
    regs change.

Definition appearance (labeled1 labeled2 : ndarray nat) (change : ndarray bool)
  : ndarray bool :=
  mark_unmatched labeled2 (regionprops labeled1)
    (mark_unmatched labeled1 (regionprops labeled2) change).

(** The intensity-shift loop over the time-1 regions. *)
Definition mark_shifted (db1 db2 : ndarray Q) (thr_intensity : Q)
  (regs : list region) (change : ndarray bool) : ndarray bool :=
  fold_left
    (fun change reg =>
       let m1 := mean (map (getp 0%Q db1) (coords reg)) in
       let m2 := mean (map (getp 0%Q db2) (coords reg)) in
       if Qge_bool (Qabs (m2 - m1)) thr_intensity
       then set_coords false change (coords reg) true
       else change)
    regs change.

(** The two zone masks. *)
Definition water_mask_of (db1 db2 : ndarray Q) : ndarray bool :=
  map2 andb false false
       (amap (fun x => Qlt_bool x MIN_BACKSCATTER_DB) 0%Q db1)
       (amap (fun x => Qlt_bool x MIN_BACKSCATTER_DB) 0%Q db2).

Definition land_mask_of (db1 db2 : ndarray Q) : ndarray bool :=
  amap negb false (water_mask_of db1 db2).

(** [(db2 - db1).clip(min=0) * zone] *)
Definition brightening (db1 db2 : ndarray Q) (zone : ndarray bool) : ndarray Q :=
  map2 times_mask 0%Q false
       (amap (clip_min 0) 0%Q (map2 Qminus 0%Q 0%Q db2 db1)) zone.

Definition positive (a : ndarray Q) : ndarray bool :=
  amap (fun x => Qgt_bool x 0) 0%Q a.

(** [np.abs(db2 - db1) * land_mask] *)
Definition abs_difference (db1 db2 : ndarray Q) (zone : ndarray bool) : ndarray Q :=
  map2 times_mask 0%Q false (amap Qabs 0%Q (map2 Qminus 0%Q 0%Q db2 db1)) zone.

(** The populations the five percentile calls are made on. *)
Definition population_thr1 (db1 db2 : ndarray Q) : list Q :=
  select 0%Q db1 (land_mask_of db1 db2).
Definition population_thr2 (db1 db2 : ndarray Q) : list Q :=
  select 0%Q db2 (land_mask_of db1 db2).
Definition population_intensity (db1 db2 : ndarray Q) : list Q :=
  select 0%Q (abs_difference db1 db2 (land_mask_of db1 db2)) (land_mask_of db1 db2).
Definition population_pix (db1 db2 : ndarray Q) : list Q :=
  let bright_diff := brightening db1 db2 (land_mask_of db1 db2) in
  select 0%Q bright_diff (positive bright_diff).
Definition population_water (db1 db2 : ndarray Q) : list Q :=
  let bright_water := brightening db1 db2 (water_mask_of db1 db2) in
  select 0%Q bright_water (positive bright_water).

Section Workflow.
Variable log10 : Q -> Q.
Variable shapes : tracer.
Variable OUT_FOLDER : string.

Definition to_db (img : ndarray Q) : ndarray Q :=
  amap (fun x => 10 * log10 (clip_min EPS x))%Q 0%Q img.

(** The detection proper, from the two normalised grids to the final mask. *)
Definition detect (db1 db2 : ndarray Q) : result (ndarray bool) :=
  let water_mask := water_mask_of db1 db2 in
  let land_mask := land_mask_of db1 db2 in
  let abs_diff := abs_difference db1 db2 land_mask in
  match np_percentile (select 0%Q db1 land_mask) PERCENTILE_OBJ with
  | Raise e => Raise e
  | Ok thr1 =>
  match np_percentile (select 0%Q db2 land_mask) PERCENTILE_OBJ with
  | Raise e => Raise e
  | Ok thr2 =>
  let mask1 := clean_mask (amap (fun x => Qge_bool x thr1) 0%Q db1) MIN_AREA in
  let mask2 := clean_mask (amap (fun x => Qge_bool x thr2) 0%Q db2) MIN_AREA in
  let labeled1 := label mask1 in
  let labeled2 := label mask2 in
  let change_land_obj := appearance labeled1 labeled2 (zeros_like db1) in
  match np_percentile (select 0%Q abs_diff land_mask) PERCENTILE_OBJ with
  | Raise e => Raise e
  | Ok thr_intensity =>
  let change_land_obj :=
    mark_shifted db1 db2 thr_intensity (regionprops labeled1) change_land_obj in
  let change_land_obj := clean_mask change_land_obj MIN_AREA in
  let bright_diff := brightening db1 db2 land_mask in
  match np_percentile (select 0%Q bright_diff (positive bright_diff))
                      PERCENTILE_PIX with
  | Raise e => Raise e
  | Ok thr_pix =>
  let change_land_pix := amap (fun x => Qge_bool x thr_pix) 0%Q bright_diff in
  let change_land := map2 orb false false change_land_obj change_land_pix in
  let bright_water := brightening db1 db2 water_mask in
  match np_percentile (select 0%Q bright_water (positive bright_water))
                      PERCENTILE_WATER with
  | Raise e => Raise e
  | Ok thr_water =>
  let change_water :=
    clean_mask (amap (fun x => Qge_bool x thr_water) 0%Q bright_water) MIN_AREA in
  Ok (map2 orb false false change_land change_water)
  end end end end end.

(** The script, from the two rasters read to the files written. *)
Definition main (t1 t2 : ndarray Q * Profile) : M unit :=
  (emit (MakeDirs OUT_FOLDER) ;;;
   let '(img1, prof1) := t1 in
   let '(img2, prof2) := t2 in
   if negb (shape_eqb (shape img1) (shape img2))
   then raise ShapeMismatch
   else
     let db1 := despeckle (to_db img1) in
     let db2 := despeckle (to_db img2) in
     final_mask <- lift (detect db1 db2) ;;
     emit (FigureSaved (path_join OUT_FOLDER "change_visualization.png")) ;;;
     save_mask (path_join OUT_FOLDER "change_mask.tif") final_mask prof2 ;;;
     let geojson_file := path_join OUT_FOLDER "change_polygons.geojson" in
     mask_to_geojson shapes final_mask prof2 geojson_file MIN_AREA ;;;
     print (String (Ascii.ascii_of_nat 10) "Change detection completed successfully.") ;;;
     print ("Output folder: " ++ OUT_FOLDER))%script.

End Workflow.
End S1.

(* ================================================================== *)
(** ** change_detection_s2.py *)
(* ================================================================== *)
Module S2.

Definition MIN_SHIP_AREA : nat := 3.
Definition MAX_SHIP_AREA : nat := 300.

(** What [read_stack(path, [1,2,3,4])] returns: four bands of one shape. *)
Record stack : Type := mk_stack {
  band1 : ndarray Q; band2 : ndarray Q; band3 : ndarray Q; band4 : ndarray Q
}.

Definition bands (s : stack) : list (ndarray Q) :=
  [band1 s; band2 s; band3 s; band4 s].

(** A stack is a 3-D array: its bands share the shape [(H, W)]. *)
Definition stack_shape (s : stack) : nat * nat := shape (band1 s).

Definition save_mask_georef (path : string) (mask : ndarray bool)
  (profile : Profile) : M unit :=
  emit (RasterWritten path mask profile).

Definition mask_to_geojson_georef (shapes : tracer) (mask : ndarray bool)
  (profile : Profile) (out_path : string) (min_area : nat) : M unit :=
  let shapes_gen := shapes mask mask (transform profile) in
  let polygons := map fst (filter (fun gv => snd gv =? 1) shapes_gen) in
  let pixel_area :=
    Qabs (getitem (transform profile) 0 * getitem (transform profile) 4) in
  let polygons :=
    filter (fun poly =>
              Qge_bool (polygon_area poly)
                       (inject_Z (Z.of_nat min_area) * pixel_area))
           polygons in
  if Nat.eqb (length polygons) 0
  then print "No changes detected for GeoJSON."
  else
    (emit (VectorWritten out_path polygons (crs profile)) ;;;
     print ("Saved georeferenced GeoJSON: " ++ out_path))%script.

(** [post - pre], band by band. *)
Definition stack_sub (post pre : stack) : stack :=
  mk_stack (map2 Qminus 0%Q 0%Q (band1 post) (band1 pre))
           (map2 Qminus 0%Q 0%Q (band2 post) (band2 pre))
           (map2 Qminus 0%Q 0%Q (band3 post) (band3 pre))
           (map2 Qminus 0%Q 0%Q (band4 post) (band4 pre)).

(** [diff.reshape(4, -1).T]: one row of four band values per cell, the
    cells in row-major order. *)
Definition pixel_vectors (h w : nat) (d : stack) : list (list Q) :=
  map (fun p => map (fun b => getp 0%Q b p) (bands d)) (indices h w).

Definition dot (u v : list Q) : Q :=
  fold_right (fun uv acc => (fst uv * snd uv + acc)%Q) 0%Q (combine u v).

Definition column (j : nat) (x : list (list Q)) : list Q :=
  map (fun row => nth j row 0%Q) x.

Definition column_means (x : list (list Q)) : list Q :=
  map (fun j => mean (column j x)) (seq 0 4).

Definition centre (x : list (list Q)) : list (list Q) :=
  let mu := column_means x in
  map (fun row => map (fun xm => (fst xm - snd xm)%Q) (combine row mu)) x.

(** [arr.reshape(h, w)] of a flat list. *)
Definition reshape (h w : nat) (l : list Q) : ndarray Q :=
  build h w (fun r c => nth (Z.to_nat (r * Z.of_nat w + c)) l 0%Q).

Definition flatten (a : ndarray Q) : list Q :=
  map (getp 0%Q a) (indices (nrows a) (ncols a)).

(** The area filter on the labelled components. *)
Definition keep_ships (labeled : ndarray nat) : ndarray bool :=
  fold_left
    (fun final_mask reg =>
       if (MIN_SHIP_AREA <=? area reg)%nat && (area reg <=? MAX_SHIP_AREA)%nat
       then build (nrows final_mask) (ncols final_mask)
                  (fun r c => if Nat.eqb (get 0%nat labeled r c) (region_label reg)
                              then true else get false final_mask r c)
       else final_mask)
    (regionprops labeled) (full (nrows labeled) (ncols labeled) false).

(** From the first-component scores to the final mask. *)
Definition mask_of_scores (pc1 : ndarray Q) : result (ndarray bool) :=
  let pc1_abs := amap Qabs 0%Q pc1 in
  match np_percentile (flatten pc1_abs) 95 with
  | Raise e => Raise e
  | Ok thresh =>
      let change_mask := amap (fun x => Qgt_bool x thresh) 0%Q pc1_abs in
      let change_mask := binary_opening change_mask (generate_binary_structure 1) 1 in
      let change_mask := binary_closing change_mask (generate_binary_structure 1) 2 in
      Ok (keep_ships (label change_mask))
  end.

Section Workflow.
(** The leading principal axis (a unit vector of four weights) the
    eigen-solver returns for a centred data matrix. *)
Variable first_axis : list (list Q) -> list Q.
Variable shapes : tracer.
Variable OUT_FOLDER : string.

(** [PCA(n_components=4).fit_transform(diff_flat)[:, 0]]: the data are
    centred feature by feature and projected on the first axis.  The
    estimator refuses fewer samples than components. *)
Definition pca_first_scores (x : list (list Q)) : result (list Q) :=
  if Nat.eqb (length x) 0
  then Raise (ValueError "Found array with 0 sample(s) while a minimum of 1 is required by PCA.")
  else if (length x <? 4)%nat
  then Raise (ValueError "n_components=4 must be between 0 and min(n_samples, n_features)")
  else
    let xc := centre x in
    let v := first_axis xc in
    Ok (map (fun row => dot row v) xc).

(** The detection proper.  Subtracting stacks of different shapes is an
    error of numpy's (the broadcasting of axes of length one is left out). *)
Definition detect (pre post : stack) : result (ndarray bool) :=
  let '(h, w) := stack_shape pre in
  if negb (shape_eqb (stack_shape post) (stack_shape pre))
  then Raise (ValueError "operands could not be broadcast together")
  else
    let diff := stack_sub post pre in
    let diff_flat := pixel_vectors h w diff in
    match pca_first_scores diff_flat with
    | Raise e => Raise e
    | Ok scores => mask_of_scores (reshape h w scores)
    end.

Definition main (t1 t2 : stack * Profile) : M unit :=
  (emit (MakeDirs OUT_FOLDER) ;;;
   let '(pre, profile) := t1 in
   let '(post, _) := t2 in
   final_mask <- lift (detect pre post) ;;
   emit (FigureSaved (path_join OUT_FOLDER "change_detection_result.png")) ;;;
   emit FigureShown ;;;
   let mask_path := path_join OUT_FOLDER "change_mask.tif" in
   save_mask_georef mask_path final_mask profile ;;;
   print ("Saved georeferenced binary mask TIFF: " ++ mask_path) ;;;
   let geojson_path := path_join OUT_FOLDER "change_polygons.geojson" in
   mask_to_geojson_georef shapes final_mask profile geojson_path 1)%script.

End Workflow.
End S2.

(* ================================================================== *)
(** ** change_detection_s2.py: the RGB previews *)
(* ================================================================== *)
Module Rgb.

(** A sample of the scaled image: a number, an infinity or NaN (what a
    division by a zero maximum leaves). *)
Inductive sample : Type :=
| Num (q : Q)
| Infinite
| NaN.

Definition maximum (a b : Q) : Q := if Qle_bool a b then b else a.
Definition minimum (a b : Q) : Q := if Qle_bool a b then a else b.

(** [np.clip(x, lo, hi)] *)
Definition clip (x lo hi : Q) : Q := minimum (maximum x lo) hi.

(** [arr.max()] *)
Definition amax (l : list Q) : result Q :=
  match l with
  | [] => Raise (ValueError
      "zero-size array to reduction operation maximum which has no identity")
  | x :: rest => Ok (fold_left maximum rest x)
  end.

(** [x / m] in floating point. *)
Definition divide (x m : Q) : sample :=
  if Qeq_bool m 0
  then (if Qeq_bool x 0 then NaN else Infinite)
  else Num (x / m).

(** [scale_rgb(arr, clip_min, clip_max)]: [arr] lists the bands; the cell
    [(r, c)] of the result lists the channels, as [np.transpose] orders
    them. *)
Definition scale_rgb (arr : list (ndarray Q)) (clip_min clip_max : Q)
  : result (ndarray (list sample)) :=
  let arr := map (amap (fun x => clip x clip_min clip_max) 0%Q) arr in
  match amax (concat (map S2.flatten arr)) with
  | Raise e => Raise e
  | Ok m =>
      let hw := match arr with [] => (0%nat, 0%nat) | b :: _ => shape b end in
      Ok (build (fst hw) (snd hw)
            (fun r c => map (fun b => divide (get 0%Q b r c) m) arr))
  end.

End Rgb.

(* ================================================================== *)
(** ** pre_process_merging_band_s2.py *)
(* ================================================================== *)

(** The script that merges the four Sentinel-2 band files into the stack
    the optical path reads.  The file system is what the script sees of it:
    the paths that exist, what a glob pattern matches, and the dataset a
    path opens; opening a file that was found and writing the mosaic are
    taken to succeed, and the samples are written as they were read.  The
    loop that looks for a free file name has no bound in the source; here it
    takes a number of rounds, and returns [None] when they are used up. *)
Module Merge.

Inductive error : Type :=
| FileNotFoundError (msg : string)
| TypeError (msg : string)
| Builtin (e : exn).

Inductive outcome (A : Type) : Type :=
| Done (a : A)
| Failed (e : error).
Arguments Done {A} a.
Arguments Failed {A} e.

(** [os.path.join] (posixpath) of two components; [sep] is the slash. *)
Definition sep : Ascii.ascii := Ascii.ascii_of_nat 47.

Definition isabs (p : string) : bool :=
  match p with
  | String c _ => Ascii.eqb c sep
  | EmptyString => false
  end.

Fixpoint endswith_sep (p : string) : bool :=
  match p with
  | EmptyString => false
  | String c EmptyString => Ascii.eqb c sep
  | String _ rest => endswith_sep rest
  end.

Definition join (a b : string) : string :=
  if isabs b then b
  else if String.eqb a "" || endswith_sep a then (a ++ b)%string
  else (a ++ "/" ++ b)%string.

(** [f"{counter}"] *)
Definition str (n : nat) : string :=
  DecimalString.NilEmpty.string_of_uint (Nat.to_uint n).

(** [src.meta]: the keys of the dictionary. *)
Record Meta : Type := mk_meta {
  driver : string;
  dtype : string;
  nodata : option Q;
  width : nat;
  height : nat;
  count : nat;
  crs : string;
  transform : Affine
}.

(** An open dataset: its band 1 ([src.read(1)], of shape (height, width))
    and its other attributes. *)
Record dataset : Type := mk_dataset {
  ds_driver : string;
  ds_dtype : string;
  ds_nodata : option Q;
  ds_count : nat;
  ds_crs : string;
  ds_transform : Affine;
  read1 : ndarray Z
}.

Definition ds_width (src : dataset) : nat := ncols (read1 src).
Definition ds_height (src : dataset) : nat := nrows (read1 src).

Definition meta (src : dataset) : Meta :=
  mk_meta (ds_driver src) (ds_dtype src) (ds_nodata src)
          (ds_width src) (ds_height src) (ds_count src) (ds_crs src)
          (ds_transform src).

(** [ref_meta.update(count=..., dtype=..., crs=...)] *)
Definition update (m : Meta) (count_ : nat) (dtype_ crs_ : string) : Meta :=
  mk_meta (driver m) dtype_ (nodata m) (width m) (height m) count_ crs_
          (transform m).

(** Equality of two [Affine] tuples. *)
Definition affine_eqb (s t : Affine) : bool :=
  Qeq_bool (af_a s) (af_a t) && Qeq_bool (af_b s) (af_b t) &&
  Qeq_bool (af_c s) (af_c t) && Qeq_bool (af_d s) (af_d t) &&
  Qeq_bool (af_e s) (af_e t) && Qeq_bool (af_f s) (af_f t).

(** [np.stack(arrays, axis=0)] *)
Definition np_stack (arrays : list (ndarray Z)) : outcome (list (ndarray Z)) :=
  match arrays with
  | [] => Failed (Builtin (ValueError "need at least one array to stack"))
  | a :: rest =>
      if forallb (fun b => shape_eqb (shape b) (shape a)) rest
      then Done arrays
      else Failed (Builtin (ValueError
                     "all input arrays must have the same shape"))
  end.

(** The RGB preview: [((np.clip(rgb, 0, 10000) / 10000) * 255).astype(uint8)]
    of the first three bands. *)
Definition preview (stacked : list (ndarray Z)) : list (ndarray Z) :=
  map (fun a => build (nrows a) (ncols a)
                  (fun r c => (Z.min (Z.max (get 0 a r c) 0) 10000 * 255)
                              / 10000))
      (firstn 3 stacked).

Inductive event : Type :=
| MakeDirs (path : string)
| Printed (line : string)
| Written (path : string) (ref_meta : Meta) (stacked : list (ndarray Z))
| Shown (rgb : list (ndarray Z)).

Section Workflow.

Variables input_folder output_folder : string.
(** The paths that exist once the output folder is made. *)
Variable existing : list string.
Variable glob : string -> list string.
Variable rasterio_open : string -> dataset.

Definition bands : list string := ["B04"; "B03"; "B02"; "B08"]%string.

Definition base_output_file : string :=
  join output_folder "S2_merged_RGBNIR.tif".

Definition sentinel_crs : string :=
  "+proj=utm +zone=41 +datum=WGS84 +units=m +no_defs".

Definition path_exists (p : string) : bool :=
  existsb (String.eqb p) existing.

(** Lines 38-43: [counter] and [output_file] are the loop variables. *)
Fixpoint versioning (fuel counter : nat) (output_file : string)
  : option string :=
  match fuel with
  | O => None
  | S fuel' =>
      if path_exists output_file
      then versioning fuel' (S counter)
             (join output_folder
                ("S2_merged_RGBNIR_v" ++ str counter ++ ".tif")%string)
      else Some output_file
  end.

(** Lines 52-62, for one band. *)
Definition find_band (band : string) : outcome string :=
  let tiff_search :=
    join (join input_folder "**") ("*" ++ band ++ "*.tif")%string in
  let jp2_search :=
    join (join input_folder "**") ("*" ++ band ++ "*.jp2")%string in
  let files := glob tiff_search in
  let files := match files with [] => glob jp2_search | _ => files end in
  match files with
  | [] => Failed (FileNotFoundError
                    ("Band " ++ band ++ " not found in: " ++ input_folder)%string)
  | f :: _ => Done f
  end.

(** Lines 49-62: [band_files] keeps the bands in the order they are met. *)
Fixpoint find_bands (bs : list string) (band_files : list (string * string))
  : outcome (list (string * string)) :=
  match bs with
  | [] => Done band_files
  | band :: rest =>
      match find_band band with
      | Failed e => Failed e
      | Done f => find_bands rest (band_files ++ [(band, f)])
      end
  end.

(** Lines 72-92: [i] counts the bands read so far. *)
Fixpoint read_bands (i : nat) (bs : list (string * string))
    (ref_meta : option Meta) (arrays : list (ndarray Z))
  : outcome (option Meta * list (ndarray Z)) :=
  match bs with
  | [] => Done (ref_meta, arrays)
  | (band, path) :: rest =>
      let src := rasterio_open path in
      let data := read1 src in
      if Nat.eqb i 0
      then read_bands (S i) rest
             (Some (update (meta src) (length bands) "uint16" sentinel_crs))
             (arrays ++ [data])
      else
        match ref_meta with
        | None => Failed (TypeError "'NoneType' object is not subscriptable")
        | Some m =>
            if negb (Nat.eqb (ds_width src) (width m))
               || negb (Nat.eqb (ds_height src) (height m))
            then Failed (Builtin (ValueError
                           ("[ERROR] Shape mismatch for band " ++ band)%string))
            else if negb (affine_eqb (ds_transform src) (transform m))
            then Failed (Builtin (ValueError
                           ("[ERROR] Transform mismatch for band " ++ band)%string))
            else read_bands (S i) rest ref_meta (arrays ++ [data])
        end
  end.

Definition newline : string := String (Ascii.ascii_of_nat 10) "".

(** The check mark U+2714 the last message starts with, in UTF-8. *)
Definition check_mark : string :=
  String (Ascii.ascii_of_nat 226)
    (String (Ascii.ascii_of_nat 156) (String (Ascii.ascii_of_nat 148) "")).

Definition located (band_files : list (string * string)) : list event :=
  Printed (newline ++ "[INFO] Band files located:")%string ::
  map (fun bp => Printed ("  " ++ fst bp ++ ": " ++ snd bp)%string) band_files.

(** The script, from [os.makedirs] to [plt.show]: the effects it has had
    when it stops, and how it stops. *)
Definition run (fuel : nat) : option (list event * outcome unit) :=
  match versioning fuel 1 base_output_file with
  | None => None
  | Some output_file =>
      Some
        match find_bands bands [] with
        | Failed e => ([MakeDirs output_folder], Failed e)
        | Done band_files =>
            let log := MakeDirs output_folder :: located band_files in
            match read_bands 0 band_files None [] with
            | Failed e => (log, Failed e)
            | Done (ref_meta, arrays) =>
                match np_stack arrays with
                | Failed e => (log, Failed e)
                | Done stacked =>
                    match ref_meta with
                    | None =>
                        (log, Failed (TypeError
                           "argument after ** must be a mapping, not NoneType"))
                    | Some m =>
                        (log ++
                         [Written output_file m stacked;
                          Printed (newline ++ check_mark ++
                                   " Saved georeferenced RGB+NIR mosaic:" ++
                                   newline ++ "  " ++ output_file)%string;
                          Shown (preview stacked)],
                         Done tt)
                    end
                end
            end
        end
  end.

End Workflow.
End Merge.

(* ================================================================== *)
(** ** Vocabulary of the properties *)
(* ================================================================== *)

(** Inclusion of masks, cell by cell. *)
Definition subset (s t : ndarray bool) : Prop :=
  forall r c, get false s r c = true -> get false t r c = true.

(** The region grown from [p] after [n] steps; [flood] is the step
    [nrows x * ncols x] of this chain. *)
Definition flood_chain (x : ndarray bool) (p : Z * Z) (n : nat) : ndarray bool :=
  Nat.iter n (grow x) (seed x p).

(** The number of cells of [s] within the grid of [x]. *)
Definition cardinal (x s : ndarray bool) : nat :=
  length (filter (getp false s) (indices (nrows x) (ncols x))).

(** What the raster scan keeps true of the label image it builds: it has the
    shape of the mask, only set cells carry a label, and two set cells that
    touch carry the same one. *)
Definition label_inv (x : ndarray bool) (lab : ndarray nat) : Prop :=
  shape lab = shape x /\
  (forall r c, get 0%nat lab r c <> 0%nat -> get false x r c = true) /\
  (forall r c o, In o offsets3x3 ->
     get false x r c = true ->
     get false x (r + fst o) (c + snd o) = true ->
     get 0%nat lab r c = get 0%nat lab (r + fst o) (c + snd o)).

(** The shape shared by the three marking loops of the radar script and by
    the loop of [clean_mask]: every region that passes [test] is set. *)
Definition mark_loop (test : region -> bool) (regs : list region)
  (acc : ndarray bool) : ndarray bool :=
  fold_left
    (fun acc reg =>
       if test reg then set_coords false acc (coords reg) true else acc)
    regs acc.

(** The mask [clean_mask] labels: the opening, then the closing, of its
    argument with the full 3x3 structuring element. *)
Definition open_close (m : ndarray bool) : ndarray bool :=
  binary_erosion1 offsets3x3 (binary_dilation1 offsets3x3
    (binary_dilation1 offsets3x3 (binary_erosion1 offsets3x3 m))).

(** Every sample of the list is zero. *)
Definition all_zero (l : list Q) : Prop := Forall (fun x => x == 0)%Q l.

(** A band whose samples are all equal over the [(h, w)] grid, and a stack
    of differences without variance in any band. *)
Definition constant_band (h w : nat) (b : ndarray Q) : Prop :=
  exists k : Q, forall p, In p (indices h w) -> (getp 0 b p == k)%Q.

Definition zero_variance (h w : nat) (d : S2.stack) : Prop :=
  constant_band h w (S2.band1 d) /\ constant_band h w (S2.band2 d) /\
  constant_band h w (S2.band3 d) /\ constant_band h w (S2.band4 d).

(** Two cells touch when they are equal or 8-neighbours; two set cells are
    connected when a chain of touching set cells joins them. *)
Definition touches (p q : Z * Z) : Prop :=
  exists o, In o offsets3x3 /\ q = (fst p + fst o, snd p + snd o).

Inductive connected (x : ndarray bool) : Z * Z -> Z * Z -> Prop :=
| connected_refl (p : Z * Z) : getp false x p = true -> connected x p p
| connected_step (p q r : Z * Z) :
    connected x p q -> getp false x r = true -> touches q r -> connected x p r.

(** What [join] puts before a relative name. *)
Definition join_prefix (a : string) : string :=
  if String.eqb a "" || Merge.endswith_sep a then a else (a ++ "/")%string.

(** The names the versioning loop of the merging script tries, in order:
    the base name, then v1, v2, ... *)
Definition candidate (output_folder : string) (k : nat) : string :=
  match k with
  | O => Merge.base_output_file output_folder
  | S _ => Merge.join output_folder
             ("S2_merged_RGBNIR_v" ++ Merge.str k ++ ".tif")%string
  end.

(** The two patterns the merging script searches for a band. *)
Definition tiff_search (input_folder band : string) : string :=
  Merge.join (Merge.join input_folder "**") ("*" ++ band ++ "*.tif")%string.
Definition jp2_search (input_folder band : string) : string :=
  Merge.join (Merge.join input_folder "**") ("*" ++ band ++ "*.jp2")%string.

(** No file of the band, in either format. *)
Definition missing (input_folder : string) (glob : string -> list string)
    (band : string) : Prop :=
  glob (tiff_search input_folder band) = [] /\
  glob (jp2_search input_folder band) = [].

(** A dataset on the grid of the reference metadata. *)
Definition aligned (m : Merge.Meta) (src : Merge.dataset) : Prop :=
  Merge.ds_width src = Merge.width m /\
  Merge.ds_height src = Merge.height m /\
  Merge.affine_eqb (Merge.ds_transform src) (Merge.transform m) = true.

(** The reference metadata the merging script derives from a dataset. *)
Definition reference (src : Merge.dataset) : Merge.Meta :=
  Merge.update (Merge.meta src) 4 "uint16" Merge.sentinel_crs.

(** The 5x5 window, as offsets from its centre. *)
Definition offsets5x5 : list (Z * Z) :=
  flat_map (fun a => map (fun b => (a, b)) [-2; -1; 0; 1; 2]) [-2; -1; 0; 1; 2].

Definition padd (p q : Z * Z) : Z * Z := (fst p + fst q, snd p + snd q).

(** A mask with no set cell on the border of its grid. *)
Definition border_clear (m : ndarray bool) : Prop :=
  forall r c, get false m r c = true ->
    1 <= r /\ r + 1 < Z.of_nat (nrows m) /\ 1 <= c /\ c + 1 < Z.of_nat (ncols m).

(** The centres of the 3x3 squares of a mask: the cells its erosion keeps. *)
Definition square_centre (m : ndarray bool) (p : Z * Z) : bool :=
  getp false (binary_erosion1 offsets3x3 m) p.

(** Opening then closing, read from a set [E] of centres: a cell is covered
    when a centre lies within two cells of it, and kept when its eight
    neighbours and itself are covered. *)
Definition covered (E : Z * Z -> bool) (p : Z * Z) : bool :=
  existsb (fun d => E (padd p d)) offsets5x5.
Definition kept (E : Z * Z -> bool) (p : Z * Z) : bool :=
  forallb (fun o => covered E (padd p o)) offsets3x3.

(** A kept cell [x] and a neighbour [x + y] of it: some 5x5 window around a
    cell [g] within two cells of the neighbour is covered, and its 3x3 core
    is within one cell of a kept neighbour [x + oq] of [x]. *)
Definition core_near (E : Z * Z -> bool) (x y : Z * Z) : Prop :=
  exists d oq o1 o2,
    In d offsets5x5 /\ In oq offsets3x3 /\ In o1 offsets3x3 /\ In o2 offsets3x3 /\
    padd oq o1 = padd (padd y d) o2 /\
    kept E (padd x oq) = true /\
    forall d', In d' offsets5x5 ->
      covered E (padd (padd x (padd y d)) d') = true.

(** The search that establishes [core_near] from the centres known so far
    ([known], relative to the kept cell): the cells around the kept cell are
    covered by hypothesis, the others when a known centre is within two
    cells. *)
Definition within (n : Z) (p q : Z * Z) : bool :=
  (Z.abs (fst p - fst q) <=? n) && (Z.abs (snd p - snd q) <=? n).

Fixpoint any_of {A} (f : A -> bool) (l : list A) : bool :=
  match l with [] => false | a :: l' => if f a then true else any_of f l' end.
Fixpoint all_of {A} (f : A -> bool) (l : list A) : bool :=
  match l with [] => true | a :: l' => if f a then all_of f l' else false end.

Definition covered_known (known : list (Z * Z)) (w : Z * Z) : bool :=
  if within 1 w (0, 0) then true else any_of (within 2 w) known.
Definition kept_known (known : list (Z * Z)) (q : Z * Z) : bool :=
  all_of (fun o => covered_known known (padd q o)) offsets3x3.
Definition core_found (known : list (Z * Z)) (y : Z * Z) : bool :=
  any_of (fun d =>
         let g := padd y d in
         if any_of (fun oq => if within 2 oq g then kept_known known oq else false)
                offsets3x3
         then all_of (fun d' => covered_known known (padd g d')) offsets5x5
         else false)
      offsets5x5.
Definition first_uncovered (known : list (Z * Z)) (order : list (Z * Z))
  : option (Z * Z) :=
  find (fun yp => negb (any_of (within 2 yp) known)) order.
Fixpoint core_search (fuel : nat) (known : list (Z * Z)) (y : Z * Z) : bool :=
  match fuel with
  | O => false
  | S fuel' =>
      if core_found known y then true
      else match first_uncovered known (y :: offsets3x3) with
           | None => false
           | Some yp =>
               all_of (fun d => core_search fuel' (padd yp d :: known) y) offsets5x5
           end
  end.

(* ################################################################## *)
(** * Properties *)
(* ################################################################## *)

(** ** Arrays built cell by cell *)
Section ArrayFacts.
Context {A : Type}.

Lemma in_bounds_iff (h w : nat) (r c : Z) :
  in_bounds h w r c = true <->
  0 <= r < Z.of_nat h /\ 0 <= c < Z.of_nat w.
Proof.
  unfold in_bounds.
  rewrite !andb_true_iff, !Z.leb_le, !Z.ltb_lt. lia.
Qed.

Lemma nth_map_seq {B : Type} (g : nat -> B) (n i : nat) (d : B) :
  (i < n)%nat -> nth i (map g (seq 0 n)) d = g i.
Proof.
  intros Hi.
  rewrite (nth_indep _ d (g 0%nat)) by (rewrite length_map, length_seq; exact Hi).
  rewrite (map_nth g (seq 0 n) 0%nat i), seq_nth by exact Hi.
  reflexivity.
Qed.

Lemma get_build (d : A) (h w : nat) (f : Z -> Z -> A) (r c : Z) :
  in_bounds h w r c = true -> get d (build h w f) r c = f r c.
Proof.
  intros Hb. unfold get. simpl. rewrite Hb.
  apply in_bounds_iff in Hb. destruct Hb as [Hr Hc].
  rewrite nth_map_seq by lia.
  rewrite nth_map_seq by lia.
  rewrite !Z2Nat.id by lia. reflexivity.
Qed.

Lemma get_out (d : A) (a : ndarray A) (r c : Z) :
  in_bounds (nrows a) (ncols a) r c = false -> get d a r c = d.
Proof. intros Hb. unfold get. rewrite Hb. reflexivity. Qed.

Lemma get_build_cases (d : A) (h w : nat) (f : Z -> Z -> A) (r c : Z) :
  get d (build h w f) r c = if in_bounds h w r c then f r c else d.
Proof.
  destruct (in_bounds h w r c) eqn:Hb.
  - apply get_build; exact Hb.
  - apply get_out; exact Hb.
Qed.

Lemma build_ext (h w : nat) (f g : Z -> Z -> A) :
  (forall r c, in_bounds h w r c = true -> f r c = g r c) ->
  build h w f = build h w g.
Proof.
  intros Hfg. unfold build. f_equal.
  apply map_ext_in. intros i Hi. apply in_seq in Hi.
  apply map_ext_in. intros j Hj. apply in_seq in Hj.
  apply Hfg. apply in_bounds_iff. lia.
Qed.

End ArrayFacts.

Lemma in_indices (h w : nat) (p : Z * Z) :
  In p (indices h w) <-> in_bounds h w (fst p) (snd p) = true.
Proof.
  unfold indices. rewrite in_flat_map, in_bounds_iff. split.
  - intros [i [Hi Hp]]. apply in_map_iff in Hp. destruct Hp as [j [Hp Hj]].
    apply in_seq in Hi. apply in_seq in Hj. subst p. simpl. lia.
  - intros [Hr Hc]. exists (Z.to_nat (fst p)). split.
    + apply in_seq. lia.
    + apply in_map_iff. exists (Z.to_nat (snd p)). split.
      * rewrite !Z2Nat.id by lia. destruct p; reflexivity.
      * apply in_seq. lia.
Qed.

Lemma pix_eqb_eq (p q : Z * Z) : pix_eqb p q = true <-> p = q.
Proof.
  unfold pix_eqb. rewrite andb_true_iff, !Z.eqb_eq.
  destruct p, q; simpl. split.
  - intros [-> ->]. reflexivity.
  - intros H. inversion H. auto.
Qed.

Lemma mem_pix_In (p : Z * Z) (l : list (Z * Z)) :
  mem_pix p l = true <-> In p l.
Proof.
  unfold mem_pix. rewrite existsb_exists. split.
  - intros [q [Hq Hpq]]. apply pix_eqb_eq in Hpq. subst q. exact Hq.
  - intros Hp. exists p. split; [exact Hp | apply pix_eqb_eq; reflexivity].
Qed.

Lemma Qlt_bool_iff (x y : Q) : Qlt_bool x y = true <-> (x < y)%Q.
Proof.
  unfold Qlt_bool. rewrite negb_true_iff. split.
  - intros H. apply Qnot_le_lt. intros Hle.
    apply Qle_bool_iff in Hle. congruence.
  - intros H. destruct (Qle_bool y x) eqn:E; [| reflexivity].
    apply Qle_bool_iff in E. exfalso. exact (Qlt_not_le _ _ H E).
Qed.

(* ================================================================== *)
(** ** The Stratifier (lines 85-86 of the radar script) *)
(* ================================================================== *)

(** C5.  For two normalised grids of one shape, a cell is in the water mask
    exactly when its value is below [MIN_BACKSCATTER_DB] in both grids, the
    land mask is the complement, and each cell of the grid is in exactly one
    of the two masks; both masks have the shape of the grids. *)
Theorem stratifier_partition (db1 db2 : ndarray Q) (r c : Z) :
  shape db1 = shape db2 ->
  in_bounds (nrows db1) (ncols db1) r c = true ->
  let water := S1.water_mask_of db1 db2 in
  let land := S1.land_mask_of db1 db2 in
  shape water = shape db1 /\ shape land = shape db1 /\
  (get false water r c = true <->
   (get 0 db1 r c < S1.MIN_BACKSCATTER_DB /\
    get 0 db2 r c < S1.MIN_BACKSCATTER_DB)%Q) /\
  get false land r c = negb (get false water r c) /\
  xorb (get false water r c) (get false land r c) = true.
Proof.
  intros Hs Hb water land.
  assert (Hw : get false water r c =
               Qlt_bool (get 0%Q db1 r c) S1.MIN_BACKSCATTER_DB &&
               Qlt_bool (get 0%Q db2 r c) S1.MIN_BACKSCATTER_DB).
  { unfold water, S1.water_mask_of, map2, amap.
    unfold shape in Hs. injection Hs as Hr Hc.
    rewrite get_build by exact Hb.
    rewrite get_build by exact Hb.
    rewrite get_build by (rewrite <- Hr, <- Hc; exact Hb).
    reflexivity. }
  assert (Hl : get false land r c = negb (get false water r c)).
  { unfold land, S1.land_mask_of, amap.
    rewrite get_build by exact Hb. reflexivity. }
  repeat split.
  - rewrite Hw in H. apply andb_true_iff in H. apply Qlt_bool_iff, H.
  - rewrite Hw in H. apply andb_true_iff in H. apply Qlt_bool_iff, H.
  - intros [H1 H2]. rewrite Hw. apply andb_true_iff.
    split; apply Qlt_bool_iff; assumption.
  - exact Hl.
  - rewrite Hl. destruct (get false water r c); reflexivity.
Qed.

(** A run of C5: a 2x2 pair in which only cell (0, 0) is below -20 dB at
    both times. *)
Lemma stratifier_partition_witness :
  let db1 := build 2 2 (fun r c => if (r =? 0) && (c =? 0) then -25 else -5)%Q in
  let db2 := build 2 2 (fun r c => if (r =? 0) then -22 else -5)%Q in
  get false (S1.water_mask_of db1 db2) 0 0 = true /\
  get false (S1.land_mask_of db1 db2) 0 0 = false.
Proof.
  intros db1 db2.
  destruct (stratifier_partition db1 db2 0 0) as [_ [_ [Hw [Hl _]]]];
    [reflexivity | reflexivity |].
  split.
  - apply Hw. split; reflexivity.
  - rewrite Hl. replace (get false (S1.water_mask_of db1 db2) 0 0) with true.
    + reflexivity.
    + symmetry. apply Hw. split; reflexivity.
Defined.

(* ================================================================== *)
(** ** Counting the cells of a mask *)
(* ================================================================== *)
Section ListFacts.
Context {A : Type}.

Lemma forallb_false_ex (f : A -> bool) (l : list A) :
  forallb f l = false -> exists x, In x l /\ f x = false.
Proof.
  induction l as [| a l IH]; simpl; intros H.
  - discriminate.
  - destruct (f a) eqn:Ea.
    + destruct (IH H) as [x [Hx Hf]]. exists x. auto.
    + exists a. auto.
Qed.

Lemma filter_length_mono (f g : A -> bool) (l : list A) :
  (forall x, In x l -> f x = true -> g x = true) ->
  (length (filter f l) <= length (filter g l))%nat.
Proof.
  induction l as [| a l IH]; simpl; intros H.
  - lia.
  - assert (IH' := IH (fun x Hx => H x (or_intror Hx))).
    destruct (f a) eqn:Ea.
    + rewrite (H a (or_introl eq_refl) Ea). simpl. lia.
    + destruct (g a); simpl; lia.
Qed.

Lemma filter_length_strict (f g : A -> bool) (l : list A) :
  (forall x, In x l -> f x = true -> g x = true) ->
  (exists x, In x l /\ f x = false /\ g x = true) ->
  (length (filter f l) < length (filter g l))%nat.
Proof.
  induction l as [| a l IH]; simpl; intros H [x [Hx [Hf Hg]]].
  - contradiction.
  - assert (Hl := filter_length_mono f g l (fun y Hy => H y (or_intror Hy))).
    destruct Hx as [-> | Hx].
    + rewrite Hf, Hg. simpl. lia.
    + assert (IH' : (length (filter f l) < length (filter g l))%nat).
      { apply IH; [intros y Hy; apply H; right; exact Hy | exists x; auto]. }
      destruct (f a) eqn:Ea.
      * rewrite (H a (or_introl eq_refl) Ea). simpl. lia.
      * destruct (g a); simpl; lia.
Qed.

End ListFacts.

Lemma length_indices (h w : nat) : length (indices h w) = (h * w)%nat.
Proof.
  unfold indices.
  rewrite (flat_map_constant_length (c := w)).
  - rewrite length_seq. reflexivity.
  - intros i _. rewrite length_map, length_seq. reflexivity.
Qed.

Lemma offsets3x3_centre : In (0, 0) offsets3x3.
Proof. simpl. auto 10. Qed.

Lemma offsets3x3_opp (o : Z * Z) :
  In o offsets3x3 -> In (- fst o, - snd o) offsets3x3.
Proof.
  simpl. intros H.
  repeat (destruct H as [<- | H]; [simpl; auto 10 |]). contradiction.
Qed.

(* ================================================================== *)
(** ** Flood fill reaches a fixed point *)
(* ================================================================== *)
Section Flood.
Variable x : ndarray bool.
Variable p : Z * Z.

Lemma get_grow (s : ndarray bool) (r c : Z) :
  get false (grow x s) r c =
  get false x r c &&
  existsb (fun o => get false s (r + fst o) (c + snd o)) offsets3x3.
Proof.
  unfold grow. rewrite get_build_cases.
  destruct (in_bounds (nrows x) (ncols x) r c) eqn:Hb.
  - reflexivity.
  - rewrite (get_out false x r c Hb). reflexivity.
Qed.

Lemma get_seed (r c : Z) :
  get false (seed x p) r c = pix_eqb (r, c) p && get false x r c.
Proof.
  unfold seed. rewrite get_build_cases.
  destruct (in_bounds (nrows x) (ncols x) r c) eqn:Hb.
  - reflexivity.
  - rewrite (get_out false x r c Hb). apply eq_sym, andb_false_r.
Qed.

Lemma chain_succ (n : nat) : flood_chain x p (S n) = grow x (flood_chain x p n).
Proof. reflexivity. Qed.

Lemma chain_sub_mask (n : nat) : subset (flood_chain x p n) x.
Proof.
  intros r c H. destruct n.
  - unfold flood_chain in H. simpl in H. rewrite get_seed in H.
    apply andb_true_iff in H. apply H.
  - rewrite chain_succ, get_grow in H.
    apply andb_true_iff in H. apply H.
Qed.

Lemma chain_step (n : nat) : subset (flood_chain x p n) (flood_chain x p (S n)).
Proof.
  intros r c H. rewrite chain_succ, get_grow.
  apply andb_true_iff. split.
  - exact (chain_sub_mask n r c H).
  - apply existsb_exists. exists (0, 0). split.
    + exact offsets3x3_centre.
    + simpl. rewrite !Z.add_0_r. exact H.
Qed.

Lemma chain_built (n : nat) :
  exists f, flood_chain x p n = build (nrows x) (ncols x) f.
Proof. destruct n; eexists; reflexivity. Qed.

Lemma grow_fixed_pointwise (n : nat) :
  (forall q, In q (indices (nrows x) (ncols x)) ->
             getp false (grow x (flood_chain x p n)) q = getp false (flood_chain x p n) q) ->
  grow x (flood_chain x p n) = flood_chain x p n.
Proof.
  intros H. destruct (chain_built n) as [f Hf].
  rewrite Hf at 2. unfold grow. apply build_ext. intros r c Hb.
  specialize (H (r, c)). unfold getp in H. simpl in H.
  rewrite Hf in H at 2.
  rewrite (get_build false _ _ f r c Hb) in H.
  unfold grow in H. rewrite get_build in H by exact Hb.
  apply H. apply in_indices. exact Hb.
Qed.

Lemma chain_stable (m : nat) :
  grow x (flood_chain x p m) = flood_chain x p m -> forall n, (m <= n)%nat -> flood_chain x p n = flood_chain x p m.
Proof.
  intros Hm n Hn. induction Hn as [| n Hn IH].
  - reflexivity.
  - rewrite chain_succ, IH. exact Hm.
Qed.

Lemma card_bound (s : ndarray bool) : (cardinal x s <= nrows x * ncols x)%nat.
Proof.
  unfold cardinal. rewrite <- length_indices. apply filter_length_le.
Qed.

Lemma chain_progress (n : nat) :
  (exists m, (m < n)%nat /\ grow x (flood_chain x p m) = flood_chain x p m) \/
  (n <= cardinal x (flood_chain x p n))%nat.
Proof.
  induction n as [| n IH].
  - right. lia.
  - destruct IH as [[m [Hm Hfix]] | Hcard].
    + left. exists m. split; [lia | exact Hfix].
    + destruct (forallb (fun q => Bool.eqb (getp false (grow x (flood_chain x p n)) q)
                                          (getp false (flood_chain x p n) q))
                        (indices (nrows x) (ncols x))) eqn:Eall.
      * left. exists n. split; [lia |].
        apply grow_fixed_pointwise. intros q Hq.
        rewrite forallb_forall in Eall. apply eqb_prop, Eall, Hq.
      * right. apply forallb_false_ex in Eall. destruct Eall as [q [Hq Hne]].
        assert (Hlt : (cardinal x (flood_chain x p n) < cardinal x (flood_chain x p (S n)))%nat).
        { unfold cardinal. apply filter_length_strict.
          - intros y _ Hy. apply (chain_step n). exact Hy.
          - exists q. split; [exact Hq |].
            rewrite chain_succ.
            destruct (getp false (flood_chain x p n) q) eqn:E1;
              destruct (getp false (grow x (flood_chain x p n)) q) eqn:E2;
              try (simpl in Hne; discriminate); auto.
            apply (chain_step n) in E1. rewrite chain_succ in E1.
            unfold getp in E2. congruence. }
        lia.
Qed.

Lemma flood_fixed : grow x (flood x p) = flood x p.
Proof.
  destruct (chain_progress (S (nrows x * ncols x))) as [[m [Hm Hfix]] | Hcard].
  - unfold flood. fold (flood_chain x p (nrows x * ncols x)).
    rewrite (chain_stable m Hfix (nrows x * ncols x)) by lia. exact Hfix.
  - pose proof (card_bound (flood_chain x p (S (nrows x * ncols x)))). lia.
Qed.

Lemma flood_sub_mask : subset (flood x p) x.
Proof. exact (chain_sub_mask (nrows x * ncols x)). Qed.

Lemma flood_closed (r c : Z) (o : Z * Z) :
  In o offsets3x3 ->
  get false x r c = true ->
  get false (flood x p) (r + fst o) (c + snd o) = true ->
  get false (flood x p) r c = true.
Proof.
  intros Ho Hx Hs. rewrite <- flood_fixed, get_grow, Hx.
  rewrite andb_true_l. apply existsb_exists. exists o. auto.
Qed.

Lemma flood_has_seed : getp false x p = true -> getp false (flood x p) p = true.
Proof.
  intros Hx. unfold flood. fold (flood_chain x p (nrows x * ncols x)).
  induction (nrows x * ncols x)%nat as [| n IH].
  - unfold flood_chain, getp. simpl. rewrite get_seed.
    apply andb_true_iff. split; [| exact Hx].
    apply pix_eqb_eq. destruct p; reflexivity.
  - apply (chain_step n). exact IH.
Qed.

End Flood.

(* ================================================================== *)
(** ** Labelling: cells that touch share a label *)
(* ================================================================== *)

Section Labelling.
Variable x : ndarray bool.

Lemma get_true_in_bounds (m : ndarray bool) (r c : Z) :
  get false m r c = true -> in_bounds (nrows m) (ncols m) r c = true.
Proof.
  intros H. destruct (in_bounds (nrows m) (ncols m) r c) eqn:Hb.
  - reflexivity.
  - rewrite (get_out false m r c Hb) in H. discriminate.
Qed.

Lemma get_paint (lab : ndarray nat) (s : ndarray bool) (l : nat) (r c : Z) :
  get 0%nat (paint lab s l) r c =
  if in_bounds (nrows lab) (ncols lab) r c
  then (if get false s r c then l else get 0%nat lab r c)
  else 0%nat.
Proof. unfold paint. apply get_build_cases. Qed.

Lemma flood_touch (p : Z * Z) (r c : Z) (o : Z * Z) :
  In o offsets3x3 ->
  get false x r c = true ->
  get false x (r + fst o) (c + snd o) = true ->
  get false (flood x p) r c = get false (flood x p) (r + fst o) (c + snd o).
Proof.
  intros Ho H1 H2.
  destruct (get false (flood x p) (r + fst o) (c + snd o)) eqn:E2.
  - exact (flood_closed x p r c o Ho H1 E2).
  - destruct (get false (flood x p) r c) eqn:E1; [| reflexivity].
    assert (E : get false (flood x p) (r + fst o) (c + snd o) = true).
    { apply (flood_closed x p _ _ (- fst o, - snd o)).
      - apply offsets3x3_opp, Ho.
      - exact H2.
      - simpl. replace (r + fst o + - fst o) with r by lia.
        replace (c + snd o + - snd o) with c by lia. exact E1. }
    congruence.
Qed.

Lemma paint_inv (lab : ndarray nat) (p : Z * Z) (next : nat) :
  label_inv x lab -> label_inv x (paint lab (flood x p) next).
Proof.
  intros [Hs [Hset Htouch]]. unfold shape in Hs. injection Hs as Hr Hc.
  split; [| split].
  - unfold shape, paint. simpl. congruence.
  - intros r c. rewrite get_paint.
    destruct (in_bounds (nrows lab) (ncols lab) r c); [| congruence].
    destruct (get false (flood x p) r c) eqn:E.
    + intros _. exact (flood_sub_mask x p r c E).
    + apply Hset.
  - intros r c o Ho H1 H2. rewrite !get_paint.
    rewrite Hr, Hc.
    rewrite (get_true_in_bounds x _ _ H1), (get_true_in_bounds x _ _ H2).
    rewrite <- (flood_touch p r c o Ho H1 H2).
    destruct (get false (flood x p) r c); [reflexivity |].
    exact (Htouch r c o Ho H1 H2).
Qed.

Lemma label_scan_inv (ps : list (Z * Z)) :
  forall lab next, label_inv x lab -> label_inv x (label_scan x ps lab next).
Proof.
  induction ps as [| p ps IH]; intros lab next Hinv; simpl.
  - exact Hinv.
  - destruct (getp false x p && Nat.eqb (getp 0%nat lab p) 0).
    + apply IH, paint_inv, Hinv.
    + apply IH, Hinv.
Qed.

Lemma label_scan_covers (ps : list (Z * Z)) :
  forall lab next q,
    shape lab = shape x -> (1 <= next)%nat ->
    getp false x q = true ->
    In q ps \/ getp 0%nat lab q <> 0%nat ->
    getp 0%nat (label_scan x ps lab next) q <> 0%nat.
Proof.
  induction ps as [| p ps IH]; intros lab next q Hs Hn Hq Hin; simpl.
  - destruct Hin as [[] | H]. exact H.
  - unfold shape in Hs. injection Hs as Hr Hc.
    assert (Hkeep : getp 0%nat lab q <> 0%nat ->
                    getp 0%nat (paint lab (flood x p) next) q <> 0%nat).
    { unfold getp. rewrite get_paint, Hr, Hc.
      rewrite (get_true_in_bounds x _ _ Hq).
      destruct (get false (flood x p) (fst q) (snd q)); [lia | auto]. }
    destruct (getp false x p && Nat.eqb (getp 0%nat lab p) 0) eqn:E.
    + apply IH; try assumption; try lia.
      * unfold shape, paint. simpl. congruence.
      * destruct Hin as [[Hpq | Hin] | Hlab].
        -- right. subst q. apply andb_true_iff in E. destruct E as [Ex _].
           unfold getp. rewrite get_paint, Hr, Hc.
           rewrite (get_true_in_bounds x _ _ Hq).
           pose proof (flood_has_seed x p Ex) as Hseed. unfold getp in Hseed.
           rewrite Hseed. lia.
        -- left. exact Hin.
        -- right. apply Hkeep, Hlab.
    + apply IH; try assumption; try (unfold shape; congruence).
      destruct Hin as [[Hpq | Hin] | Hlab].
      * right. subst q. rewrite Hq in E. simpl in E.
        apply Nat.eqb_neq in E. exact E.
      * left. exact Hin.
      * right. exact Hlab.
Qed.

Lemma full_inv : label_inv x (full (nrows x) (ncols x) 0%nat).
Proof.
  split; [reflexivity | split].
  - intros r c H. exfalso. apply H. unfold full.
    rewrite get_build_cases. destruct (in_bounds _ _ r c); reflexivity.
  - intros r c o _ _ _. unfold full. rewrite !get_build_cases.
    destruct (in_bounds _ _ r c), (in_bounds _ _ (r + fst o) (c + snd o));
      reflexivity.
Qed.

Lemma label_shape : shape (label x) = shape x.
Proof. apply (label_scan_inv _ _ _ full_inv). Qed.

(** Only set cells are labelled. *)
Lemma label_in_mask (r c : Z) :
  get 0%nat (label x) r c <> 0%nat -> get false x r c = true.
Proof. apply (label_scan_inv _ _ _ full_inv). Qed.

(** Every set cell is labelled. *)
Lemma label_of_mask (r c : Z) :
  get false x r c = true -> get 0%nat (label x) r c <> 0%nat.
Proof.
  intros H. apply (label_scan_covers _ _ _ (r, c)).
  - reflexivity.
  - lia.
  - exact H.
  - left. apply in_indices. exact (get_true_in_bounds x r c H).
Qed.

(** Set cells that touch carry one label. *)
Lemma label_touch (r c : Z) (o : Z * Z) :
  In o offsets3x3 ->
  get false x r c = true ->
  get false x (r + fst o) (c + snd o) = true ->
  get 0%nat (label x) r c = get 0%nat (label x) (r + fst o) (c + snd o).
Proof. apply (label_scan_inv _ _ _ full_inv). Qed.

End Labelling.

(* ================================================================== *)
(** ** Loops that mark whole regions *)
(* ================================================================== *)

Section MarkLoops.
Variable test : region -> bool.

Lemma get_set_coords (acc : ndarray bool) (cs : list (Z * Z)) (r c : Z) :
  get false (set_coords false acc cs true) r c =
  in_bounds (nrows acc) (ncols acc) r c &&
  (mem_pix (r, c) cs || get false acc r c).
Proof.
  unfold set_coords. rewrite get_build_cases.
  destruct (in_bounds (nrows acc) (ncols acc) r c); [| reflexivity].
  destruct (mem_pix (r, c) cs); reflexivity.
Qed.

Lemma mark_loop_shape (regs : list region) :
  forall acc, shape (mark_loop test regs acc) = shape acc.
Proof.
  induction regs as [| reg regs IH]; intros acc; simpl.
  - reflexivity.
  - destruct (test reg); rewrite IH; reflexivity.
Qed.

Lemma get_mark_loop (regs : list region) :
  forall acc r c,
    get false (mark_loop test regs acc) r c = true <->
    get false acc r c = true \/
    (in_bounds (nrows acc) (ncols acc) r c = true /\
     exists reg, In reg regs /\ test reg = true /\ In (r, c) (coords reg)).
Proof.
  induction regs as [| reg regs IH]; intros acc r c; simpl.
  - split; [auto | intros [H | [_ [reg [[] _]]]]; exact H].
  - destruct (test reg) eqn:Et.
    + rewrite IH, get_set_coords. simpl.
      rewrite andb_true_iff, orb_true_iff, mem_pix_In. split.
      * intros [[Hb [Hin | Hacc]] | [Hb [reg' [Hin' [Ht' Hc']]]]].
        -- right. split; [exact Hb |]. exists reg. auto.
        -- left. exact Hacc.
        -- right. split; [exact Hb |]. exists reg'. auto.
      * intros [Hacc | [Hb [reg' [[-> | Hin'] [Ht' Hc']]]]].
        -- left. split; [exact (get_true_in_bounds acc r c Hacc) | auto].
        -- left. auto.
        -- right. split; [exact Hb |]. exists reg'. auto.
    + rewrite IH. split.
      * intros [Hacc | [Hb [reg' [Hin' [Ht' Hc']]]]]; [auto |].
        right. split; [exact Hb |]. exists reg'. auto.
      * intros [Hacc | [Hb [reg' [[-> | Hin'] [Ht' Hc']]]]]; [auto | congruence |].
        right. split; [exact Hb |]. exists reg'. auto.
Qed.

End MarkLoops.

(** ** Regions of a label image *)

Lemma in_coords_of (lab : ndarray nat) (l : nat) (q : Z * Z) :
  In q (coords_of lab l) <->
  in_bounds (nrows lab) (ncols lab) (fst q) (snd q) = true /\
  getp 0%nat lab q = l.
Proof.
  unfold coords_of. rewrite filter_In, in_indices, Nat.eqb_eq. tauto.
Qed.

Lemma in_regionprops (lab : ndarray nat) (reg : region) :
  In reg (regionprops lab) ->
  (1 <= region_label reg)%nat /\
  coords reg = coords_of lab (region_label reg) /\
  coords reg <> [].
Proof.
  unfold regionprops. rewrite filter_In, in_map_iff.
  intros [[l [<- Hl]] Hne]. apply in_seq in Hl. simpl.
  repeat split; [lia |].
  unfold has_coords in Hne. simpl in Hne.
  destruct (coords_of lab l); [discriminate | discriminate].
Qed.

Lemma max_label_ge (lab : ndarray nat) (q : Z * Z) :
  In q (indices (nrows lab) (ncols lab)) ->
  (getp 0%nat lab q <= max_label lab)%nat.
Proof.
  unfold max_label.
  induction (indices (nrows lab) (ncols lab)) as [| a l IH]; simpl.
  - contradiction.
  - intros [-> | H]; [lia | specialize (IH H); lia].
Qed.

(** A labelled cell lies in the region [regionprops] reports for its label. *)
Lemma regionprops_complete (lab : ndarray nat) (q : Z * Z) :
  in_bounds (nrows lab) (ncols lab) (fst q) (snd q) = true ->
  getp 0%nat lab q <> 0%nat ->
  In (mk_region (getp 0%nat lab q) (coords_of lab (getp 0%nat lab q)))
     (regionprops lab).
Proof.
  intros Hb Hl. unfold regionprops. apply filter_In. split.
  - apply in_map_iff. exists (getp 0%nat lab q). split; [reflexivity |].
    apply in_seq. pose proof (max_label_ge lab q (proj2 (in_indices _ _ q) Hb)).
    lia.
  - unfold has_coords. simpl.
    assert (Hin : In q (coords_of lab (getp 0%nat lab q))).
    { apply in_coords_of. auto. }
    destruct (coords_of lab (getp 0%nat lab q)); [contradiction | reflexivity].
Qed.

(* ================================================================== *)
(** ** Binary morphology *)
(* ================================================================== *)
Section Morphology.
Variable s : structure.

Lemma get_erosion1 (m : ndarray bool) (r c : Z) :
  get false (binary_erosion1 s m) r c =
  in_bounds (nrows m) (ncols m) r c &&
  forallb (fun o => get false m (r + fst o) (c + snd o)) s.
Proof.
  unfold binary_erosion1. rewrite get_build_cases.
  destruct (in_bounds (nrows m) (ncols m) r c); reflexivity.
Qed.

Lemma get_dilation1 (m : ndarray bool) (r c : Z) :
  get false (binary_dilation1 s m) r c =
  in_bounds (nrows m) (ncols m) r c &&
  existsb (fun o => get false m (r - fst o) (c - snd o)) s.
Proof.
  unfold binary_dilation1. rewrite get_build_cases.
  destruct (in_bounds (nrows m) (ncols m) r c); reflexivity.
Qed.

Lemma erosion1_mono (m m' : ndarray bool) :
  shape m = shape m' -> subset m m' ->
  subset (binary_erosion1 s m) (binary_erosion1 s m').
Proof.
  intros Hs Hsub r c. unfold shape in Hs. injection Hs as Hr Hc.
  rewrite !get_erosion1, <- Hr, <- Hc, !andb_true_iff, !forallb_forall.
  intros [Hb Hall]. split; [exact Hb |].
  intros o Ho. apply Hsub, Hall, Ho.
Qed.

Lemma dilation1_mono (m m' : ndarray bool) :
  shape m = shape m' -> subset m m' ->
  subset (binary_dilation1 s m) (binary_dilation1 s m').
Proof.
  intros Hs Hsub r c. unfold shape in Hs. injection Hs as Hr Hc.
  rewrite !get_dilation1, <- Hr, <- Hc, !andb_true_iff, !existsb_exists.
  intros [Hb [o [Ho Hm]]]. split; [exact Hb |].
  exists o. split; [exact Ho | apply Hsub, Hm].
Qed.

(** Opening never adds a cell. *)
Lemma opening1_sub (m : ndarray bool) :
  subset (binary_dilation1 s (binary_erosion1 s m)) m.
Proof.
  intros r c. rewrite get_dilation1, andb_true_iff, existsb_exists.
  intros [_ [o [Ho He]]].
  rewrite get_erosion1, andb_true_iff, forallb_forall in He.
  destruct He as [_ Hall]. specialize (Hall o Ho).
  replace (r - fst o + fst o) with r in Hall by lia.
  replace (c - snd o + snd o) with c in Hall by lia.
  exact Hall.
Qed.

(** Closing a closed mask adds nothing, also along the border. *)
Lemma closing1_closing1_sub (m : ndarray bool) :
  subset (binary_erosion1 s (binary_dilation1 s
            (binary_erosion1 s (binary_dilation1 s m))))
         (binary_erosion1 s (binary_dilation1 s m)).
Proof.
  apply erosion1_mono.
  - reflexivity.
  - apply opening1_sub.
Qed.

End Morphology.

(* ================================================================== *)
(** ** The Morphological Cleaner *)
(* ================================================================== *)

Lemma clean_mask_unfold (m : ndarray bool) (k : nat) :
  S1.clean_mask m k =
  mark_loop (fun reg => (k <=? area reg)%nat)
            (regionprops (label (open_close m)))
            (zeros_like (open_close m)).
Proof. reflexivity. Qed.

Lemma get_zeros_like {A : Type} (a : ndarray A) (r c : Z) :
  get false (zeros_like a) r c = false.
Proof.
  unfold zeros_like, full. rewrite get_build_cases.
  destruct (in_bounds _ _ r c); reflexivity.
Qed.

Lemma clean_mask_shape (m : ndarray bool) (k : nat) :
  shape (S1.clean_mask m k) = shape m.
Proof. rewrite clean_mask_unfold, mark_loop_shape. reflexivity. Qed.

(** The cells [clean_mask] keeps: those of the opened-and-closed mask whose
    connected component has at least [k] cells. *)
Lemma get_clean_mask (m : ndarray bool) (k : nat) (r c : Z) :
  get false (S1.clean_mask m k) r c = true <->
  get false (open_close m) r c = true /\
  (k <= length (coords_of (label (open_close m))
                          (get 0%nat (label (open_close m)) r c)))%nat.
Proof.
  rewrite clean_mask_unfold, get_mark_loop, get_zeros_like.
  pose proof (label_shape (open_close m)) as Hs.
  unfold shape in Hs. injection Hs as Hr Hc.
  split.
  - intros [H | [Hb [reg [Hin [Ht Hc']]]]]; [discriminate |].
    apply in_regionprops in Hin. destruct Hin as [Hl [Hco _]].
    rewrite Hco in Hc'. apply in_coords_of in Hc'. destruct Hc' as [_ Hlab].
    unfold getp in Hlab. simpl in Hlab. split.
    + apply label_in_mask. lia.
    + rewrite Hlab. unfold area in Ht. rewrite Hco in Ht.
      apply Nat.leb_le, Ht.
  - intros [Hx Hk]. right.
    pose proof (get_true_in_bounds _ _ _ Hx) as Hb.
    split; [exact Hb |].
    pose proof (label_of_mask _ _ _ Hx) as Hl.
    eexists. split; [| split].
    + apply (regionprops_complete _ (r, c)).
      * simpl. rewrite Hr, Hc. exact Hb.
      * exact Hl.
    + unfold area. simpl. apply Nat.leb_le, Hk.
    + simpl. apply in_coords_of. simpl. rewrite Hr, Hc. auto.
Qed.

Lemma clean_mask_sub (m : ndarray bool) (k : nat) :
  subset (S1.clean_mask m k) (open_close m).
Proof. intros r c H. apply get_clean_mask in H. apply H. Qed.

(** A kept cell takes with it every cell of the labelled mask that touches
    it. *)
Lemma clean_mask_touch (m : ndarray bool) (k : nat) (r c : Z) (o : Z * Z) :
  In o offsets3x3 ->
  get false (S1.clean_mask m k) r c = true ->
  get false (open_close m) (r + fst o) (c + snd o) = true ->
  get false (S1.clean_mask m k) (r + fst o) (c + snd o) = true.
Proof.
  intros Ho H Hx. apply get_clean_mask in H. destruct H as [Hx0 Hk].
  apply get_clean_mask. split; [exact Hx |].
  rewrite <- (label_touch _ r c o Ho Hx0 Hx). exact Hk.
Qed.

(** The inclusion that holds for every mask: a second pass only removes
    cells. *)
Lemma clean_mask_twice_sub (m : ndarray bool) (k : nat) :
  subset (S1.clean_mask (S1.clean_mask m k) k) (S1.clean_mask m k).
Proof.
  intros r c H.
  set (y := S1.clean_mask m k) in *.
  assert (Hys : shape y = shape m) by apply clean_mask_shape.
  assert (Hyx : subset y (open_close m)) by apply clean_mask_sub.
  apply clean_mask_sub in H. unfold open_close in H.
  apply (erosion1_mono offsets3x3 _ (binary_dilation1 offsets3x3 y)) in H;
    [| reflexivity
     | apply dilation1_mono; [reflexivity | apply opening1_sub]].
  pose proof H as Hd.
  rewrite get_erosion1, andb_true_iff, forallb_forall in Hd.
  destruct Hd as [_ Hall]. specialize (Hall (0, 0) offsets3x3_centre).
  simpl in Hall. rewrite !Z.add_0_r in Hall.
  rewrite get_dilation1, andb_true_iff, existsb_exists in Hall.
  destruct Hall as [_ [o [Ho Hy]]].
  assert (Hx : get false (open_close m) r c = true).
  { apply (closing1_closing1_sub offsets3x3).
    revert H. apply erosion1_mono; [exact Hys |].
    apply dilation1_mono.
    - rewrite Hys. reflexivity.
    - exact Hyx. }
  replace r with (r - fst o + fst o) by lia.
  replace c with (c - snd o + snd o) by lia.
  apply clean_mask_touch; try assumption.
  replace (r - fst o + fst o) with r by lia.
  replace (c - snd o + snd o) with c by lia.
  exact Hx.
Qed.

(** C6 (as stated) fails: cleaning the all-ones 7x4 mask with the default
    minimum area keeps its 5x2 interior (the closing clears the border
    cells), which is too thin to survive the opening of a second pass: cell
    (1, 1) is set after one pass and cleared after two. *)
Lemma clean_mask_not_idempotent :
  let once := S1.clean_mask (full 7 4 true) S1.MIN_AREA in
  let twice := S1.clean_mask once S1.MIN_AREA in
  get false once 1 1 = true /\ get false twice 1 1 = false /\ twice <> once.
Proof. vm_compute. repeat split; discriminate. Qed.

(* ================================================================== *)
(** ** The appearance / disappearance criterion (lines 99-107) *)
(* ================================================================== *)

Lemma mark_unmatched_loop (other : ndarray nat) (regs : list region)
  (change : ndarray bool) :
  S1.mark_unmatched other regs change = mark_loop (S1.unmatched other) regs change.
Proof. reflexivity. Qed.

Lemma unmatched_iff (other : ndarray nat) (reg : region) :
  S1.unmatched other reg = true <->
  forall q, In q (coords reg) -> getp 0%nat other q = 0%nat.
Proof.
  unfold S1.unmatched. rewrite forallb_forall. split.
  - intros H q Hq. apply Nat.eqb_eq, H, Hq.
  - intros H q Hq. apply Nat.eqb_eq, H, Hq.
Qed.

Section Appearance.
Variables labeled1 labeled2 : ndarray nat.
Variable base : ndarray bool.
Hypothesis shape1 : shape labeled1 = shape base.
Hypothesis shape2 : shape labeled2 = shape base.
Hypothesis base_clear : forall r c, get false base r c = false.

(** One pass of the loop over the regions of [mine] against [other]. *)
Lemma unmatched_region_marked (mine other : ndarray nat) (acc : ndarray bool)
  (reg : region) (q : Z * Z) :
  shape mine = shape acc ->
  In reg (regionprops mine) -> In q (coords reg) ->
  S1.unmatched other reg = true ->
  getp false (S1.mark_unmatched other (regionprops mine) acc) q = true.
Proof.
  intros Hs Hreg Hq Hun. unfold getp.
  rewrite mark_unmatched_loop, get_mark_loop. right.
  unfold shape in Hs. injection Hs as Hr Hc.
  split.
  - apply in_regionprops in Hreg. destruct Hreg as [_ [Hco _]].
    rewrite Hco in Hq. apply in_coords_of in Hq.
    rewrite <- Hr, <- Hc. apply Hq.
  - exists reg. destruct q. auto.
Qed.

Lemma marked_region_unmatched (mine other : ndarray nat) (acc : ndarray bool)
  (reg : region) (q : Z * Z) :
  In reg (regionprops mine) -> In q (coords reg) ->
  getp false (S1.mark_unmatched other (regionprops mine) acc) q = true ->
  getp false acc q = true \/ S1.unmatched other reg = true.
Proof.
  intros Hreg Hq Hm. unfold getp in Hm.
  rewrite mark_unmatched_loop, get_mark_loop in Hm.
  destruct Hm as [Hacc | [_ [reg' [Hreg' [Hun Hq']]]]]; [left; exact Hacc |].
  right.
  apply in_regionprops in Hreg. destruct Hreg as [_ [Hco _]].
  apply in_regionprops in Hreg'. destruct Hreg' as [_ [Hco' _]].
  assert (Hl : region_label reg' = region_label reg).
  { rewrite Hco in Hq. rewrite Hco' in Hq'. destruct q. simpl in Hq'.
    apply in_coords_of in Hq. apply in_coords_of in Hq'.
    destruct Hq as [_ Hq]. destruct Hq' as [_ Hq']. congruence. }
  unfold S1.unmatched in *. rewrite Hco. rewrite Hco', Hl in Hun. exact Hun.
Qed.

Lemma labelled_region_not_unmatched (mine : ndarray nat) (reg reg' : region)
  (q : Z * Z) :
  In reg (regionprops mine) -> In q (coords reg) ->
  In q (coords reg') -> S1.unmatched mine reg' = true -> False.
Proof.
  intros Hreg Hq Hq' Hun.
  apply in_regionprops in Hreg. destruct Hreg as [Hl [Hco _]].
  rewrite Hco in Hq. apply in_coords_of in Hq. destruct Hq as [_ Hq].
  rewrite unmatched_iff in Hun. specialize (Hun q Hq'). lia.
Qed.

Lemma appearance_time2 (reg : region) (q : Z * Z) :
  In reg (regionprops labeled2) -> In q (coords reg) ->
  (getp false (S1.appearance labeled1 labeled2 base) q = true <->
   S1.unmatched labeled1 reg = true).
Proof.
  intros Hreg Hq. unfold S1.appearance. split.
  - intros Hm. unfold getp in Hm.
    rewrite mark_unmatched_loop, get_mark_loop in Hm.
    destruct Hm as [Hin | [_ [reg1 [_ [Hun Hq1]]]]].
    + destruct (marked_region_unmatched labeled2 labeled1 base reg q Hreg Hq Hin)
        as [Hb | Hun]; [| exact Hun].
      unfold getp in Hb. rewrite base_clear in Hb. discriminate.
    + exfalso. destruct q.
      exact (labelled_region_not_unmatched labeled2 reg reg1 _ Hreg Hq Hq1 Hun).
  - intros Hun. unfold getp.
    rewrite mark_unmatched_loop, get_mark_loop. left.
    apply (unmatched_region_marked labeled2 labeled1 base reg q shape2 Hreg Hq Hun).
Qed.

Lemma appearance_time1 (reg : region) (q : Z * Z) :
  In reg (regionprops labeled1) -> In q (coords reg) ->
  (getp false (S1.appearance labeled1 labeled2 base) q = true <->
   S1.unmatched labeled2 reg = true).
Proof.
  intros Hreg Hq. unfold S1.appearance. split.
  - intros Hm.
    destruct (marked_region_unmatched labeled1 labeled2 _ reg q Hreg Hq Hm)
      as [Hin | Hun]; [| exact Hun].
    exfalso. unfold getp in Hin.
    rewrite mark_unmatched_loop, get_mark_loop in Hin.
    destruct Hin as [Hb | [_ [reg2 [_ [Hun Hq2]]]]].
    + rewrite base_clear in Hb. discriminate.
    + destruct q.
      exact (labelled_region_not_unmatched labeled1 reg reg2 _ Hreg Hq Hq2 Hun).
  - intros Hun.
    apply (unmatched_region_marked labeled1 labeled2 _ reg q); try assumption.
    rewrite mark_unmatched_loop, mark_loop_shape. exact shape1.
Qed.

End Appearance.

(** C4.  After the two appearance / disappearance loops, started from the
    cleared mask of the grid's shape: for every region of either label image,
    its whole footprint is marked exactly when none of its cells carries a
    label in the other image, and a region that has a labelled cell in the
    other image gets no cell marked at all; in particular a region whose
    footprint is a region of the other image too stays unmarked. *)
Theorem appearance_flags_exactly_unmatched
  (labeled1 labeled2 : ndarray nat) (db1 : ndarray Q) :
  shape labeled1 = shape db1 -> shape labeled2 = shape db1 ->
  let change := S1.appearance labeled1 labeled2 (zeros_like db1) in
  (forall reg, In reg (regionprops labeled2) ->
     ((forall q, In q (coords reg) -> getp false change q = true) <->
      (forall q, In q (coords reg) -> getp 0%nat labeled1 q = 0%nat)) /\
     ((exists q, In q (coords reg) /\ getp 0%nat labeled1 q <> 0%nat) ->
      forall q, In q (coords reg) -> getp false change q = false)) /\
  (forall reg, In reg (regionprops labeled1) ->
     ((forall q, In q (coords reg) -> getp false change q = true) <->
      (forall q, In q (coords reg) -> getp 0%nat labeled2 q = 0%nat)) /\
     ((exists q, In q (coords reg) /\ getp 0%nat labeled2 q <> 0%nat) ->
      forall q, In q (coords reg) -> getp false change q = false)) /\
  (forall reg1 reg2,
     In reg1 (regionprops labeled1) -> In reg2 (regionprops labeled2) ->
     coords reg1 = coords reg2 ->
     forall q, In q (coords reg2) -> getp false change q = false).
Proof.
  intros Hs1 Hs2 change.
  assert (Hclear : forall r c, get false (zeros_like db1) r c = false)
    by apply get_zeros_like.
  assert (H2 : forall reg q, In reg (regionprops labeled2) -> In q (coords reg) ->
               (getp false change q = true <-> S1.unmatched labeled1 reg = true)).
  { intros reg q. apply appearance_time2; assumption. }
  assert (H1 : forall reg q, In reg (regionprops labeled1) -> In q (coords reg) ->
               (getp false change q = true <-> S1.unmatched labeled2 reg = true)).
  { intros reg q. apply appearance_time1; assumption. }
  assert (Hside : forall mine other,
            (forall reg q, In reg (regionprops mine) -> In q (coords reg) ->
               (getp false change q = true <-> S1.unmatched other reg = true)) ->
            forall reg, In reg (regionprops mine) ->
              ((forall q, In q (coords reg) -> getp false change q = true) <->
               (forall q, In q (coords reg) -> getp 0%nat other q = 0%nat)) /\
              ((exists q, In q (coords reg) /\ getp 0%nat other q <> 0%nat) ->
               forall q, In q (coords reg) -> getp false change q = false)).
  { intros mine other Hiff reg Hreg. split.
    - rewrite <- unmatched_iff. split.
      + intros Hall. destruct (in_regionprops _ _ Hreg) as [_ [_ Hne]].
        destruct (coords reg) as [| q0 l] eqn:E; [congruence |].
        apply (Hiff reg q0 Hreg); [rewrite E; left; reflexivity |].
        apply Hall. left. reflexivity.
      + intros Hun q Hq. apply (Hiff reg q Hreg Hq), Hun.
    - intros [q0 [Hq0 Hl]] q Hq.
      destruct (getp false change q) eqn:E; [| reflexivity].
      apply (Hiff reg q Hreg Hq) in E. rewrite unmatched_iff in E.
      exfalso. apply Hl, E, Hq0. }
  split; [| split].
  - apply (Hside labeled2 labeled1 H2).
  - apply (Hside labeled1 labeled2 H1).
  - intros reg1 reg2 Hr1 Hr2 Hco q Hq.
    apply (Hside labeled2 labeled1 H2 reg2 Hr2); [| exact Hq].
    exists q. split; [exact Hq |].
    destruct (in_regionprops _ _ Hr1) as [Hl [Hc1 _]].
    rewrite <- Hco, Hc1 in Hq. apply in_coords_of in Hq. lia.
Qed.

(** A run of C4: time 1 has a bright block in the top-left corner, time 2 a
    bright block in the bottom-right corner of a 5x5 grid. *)
Lemma appearance_flags_exactly_unmatched_witness :
  let labeled1 := label (build 5 5 (fun r c => (r <=? 1) && (c <=? 1))) in
  let labeled2 := label (build 5 5 (fun r c => (3 <=? r) && (3 <=? c))) in
  let change := S1.appearance labeled1 labeled2 (zeros_like (full 5 5 0%Q)) in
  (forall reg, In reg (regionprops labeled2) ->
     ((forall q, In q (coords reg) -> getp false change q = true) <->
      (forall q, In q (coords reg) -> getp 0%nat labeled1 q = 0%nat)) /\
     ((exists q, In q (coords reg) /\ getp 0%nat labeled1 q <> 0%nat) ->
      forall q, In q (coords reg) -> getp false change q = false)) /\
  (forall reg, In reg (regionprops labeled1) ->
     ((forall q, In q (coords reg) -> getp false change q = true) <->
      (forall q, In q (coords reg) -> getp 0%nat labeled2 q = 0%nat)) /\
     ((exists q, In q (coords reg) /\ getp 0%nat labeled2 q <> 0%nat) ->
      forall q, In q (coords reg) -> getp false change q = false)) /\
  (forall reg1 reg2,
     In reg1 (regionprops labeled1) -> In reg2 (regionprops labeled2) ->
     coords reg1 = coords reg2 ->
     forall q, In q (coords reg2) -> getp false change q = false).
Proof.
  apply (appearance_flags_exactly_unmatched
           (label (build 5 5 (fun r c => (r <=? 1) && (c <=? 1))))
           (label (build 5 5 (fun r c => (3 <=? r) && (3 <=? c))))
           (full 5 5 0%Q)); reflexivity.
Defined.

(* ================================================================== *)
(** ** Percentile thresholds and the radar workflow *)
(* ================================================================== *)

Lemma np_percentile_cases (a : list Q) (q : Q) :
  (a = [] /\ np_percentile a q = Raise EmptyPopulation) \/
  (a <> [] /\ exists t, np_percentile a q = Ok t).
Proof.
  destruct a as [| x0 a].
  - left. split; reflexivity.
  - right. split; [discriminate |]. eexists. reflexivity.
Qed.

Lemma filter_none {A : Type} (f : A -> bool) (l : list A) :
  (forall x, In x l -> f x = false) -> filter f l = [].
Proof.
  induction l as [| a l IH]; simpl; intros H.
  - reflexivity.
  - rewrite (H a (or_introl eq_refl)). apply IH. intros x Hx. apply H. right. exact Hx.
Qed.

Lemma shape_eqb_iff (s t : nat * nat) : shape_eqb s t = true <-> s = t.
Proof.
  unfold shape_eqb. rewrite andb_true_iff, !Nat.eqb_eq.
  destruct s, t; simpl. split.
  - intros [-> ->]. reflexivity.
  - intros H. inversion H. auto.
Qed.

(** A sample never exceeds itself: no brightening between equal values. *)
Lemma no_self_brightening (x : Q) (b : bool) :
  Qgt_bool (times_mask (clip_min 0 (x - x)) b) 0 = false.
Proof.
  unfold Qgt_bool, Qlt_bool. rewrite negb_false_iff, Qle_bool_iff.
  unfold times_mask, clip_min.
  destruct (Qlt_bool (x - x) 0) eqn:E.
  - apply Qlt_bool_iff in E. lra.
  - destruct b; lra.
Qed.

Lemma identical_grids_no_positive (db : ndarray Q) (zone : ndarray bool) :
  select 0%Q (S1.brightening db db zone) (S1.positive (S1.brightening db db zone))
  = [].
Proof.
  unfold select. rewrite filter_none; [reflexivity |].
  intros q _. unfold getp, S1.positive, S1.brightening, amap, map2.
  rewrite get_build_cases. simpl.
  destruct (in_bounds (nrows db) (ncols db) (fst q) (snd q)) eqn:Hb;
    [| reflexivity].
  rewrite !get_build by exact Hb.
  apply no_self_brightening.
Qed.

Lemma detect_raises_only_empty (db1 db2 : ndarray Q) (e : exn) :
  S1.detect db1 db2 = Raise e -> e = EmptyPopulation.
Proof.
  unfold S1.detect. cbv zeta.
  repeat match goal with
         | |- context [match np_percentile ?a ?q with _ => _ end] =>
             destruct (np_percentile_cases a q) as [[_ ->] | [_ [? ->]]]
         end;
    intros H; congruence.
Qed.

(** The detection fails as soon as one population is empty. *)
Lemma detect_empty_population (db1 db2 : ndarray Q) :
  S1.population_thr1 db1 db2 = [] \/ S1.population_thr2 db1 db2 = [] \/
  S1.population_intensity db1 db2 = [] \/ S1.population_pix db1 db2 = [] \/
  S1.population_water db1 db2 = [] ->
  S1.detect db1 db2 = Raise EmptyPopulation.
Proof.
  intros Hpop.
  destruct (S1.detect db1 db2) as [m | e] eqn:E.
  - exfalso. revert E. unfold S1.detect. cbv zeta.
    fold (S1.population_thr1 db1 db2) (S1.population_thr2 db1 db2)
         (S1.population_intensity db1 db2).
    change (select 0%Q (S1.brightening db1 db2 (S1.land_mask_of db1 db2))
              (S1.positive (S1.brightening db1 db2 (S1.land_mask_of db1 db2))))
      with (S1.population_pix db1 db2).
    change (select 0%Q (S1.brightening db1 db2 (S1.water_mask_of db1 db2))
              (S1.positive (S1.brightening db1 db2 (S1.water_mask_of db1 db2))))
      with (S1.population_water db1 db2).
    destruct (np_percentile_cases (S1.population_thr1 db1 db2) S1.PERCENTILE_OBJ)
      as [[_ ->] | [N1 [? ->]]]; [discriminate |].
    destruct (np_percentile_cases (S1.population_thr2 db1 db2) S1.PERCENTILE_OBJ)
      as [[_ ->] | [N2 [? ->]]]; [discriminate |].
    destruct (np_percentile_cases (S1.population_intensity db1 db2) S1.PERCENTILE_OBJ)
      as [[_ ->] | [N3 [? ->]]]; [discriminate |].
    destruct (np_percentile_cases (S1.population_pix db1 db2) S1.PERCENTILE_PIX)
      as [[_ ->] | [N4 [? ->]]]; [discriminate |].
    destruct (np_percentile_cases (S1.population_water db1 db2) S1.PERCENTILE_WATER)
      as [[_ ->] | [N5 [? ->]]]; [discriminate |].
    intros _. tauto.
  - f_equal. exact (detect_raises_only_empty db1 db2 e E).
Qed.

(** An exception of the detection ends the script before it writes. *)
Lemma main_stops_with_detect (log10 : Q -> Q) (shapes : tracer)
  (out : string) (img1 img2 : ndarray Q) (prof1 prof2 : Profile) (e : exn) :
  shape img1 = shape img2 ->
  S1.detect (S1.despeckle (S1.to_db log10 img1))
            (S1.despeckle (S1.to_db log10 img2)) = Raise e ->
  run (S1.main log10 shapes out (img1, prof1) (img2, prof2)) =
    ([MakeDirs out], Raise e).
Proof.
  intros Hshape Hdet.
  unfold run, S1.main, bind, emit, raise, lift.
  apply shape_eqb_iff in Hshape. rewrite Hshape. simpl.
  rewrite Hdet. reflexivity.
Qed.

(** C2.  Each of the five percentile thresholds of the radar path is taken
    by [np_percentile] on the population its zone mask (and, for the two
    pixel criteria, the strictly-positive filter) selects.  When one of
    these populations is empty the call raises [EmptyPopulation], no
    threshold value is produced, the detection as a whole ends in that
    exception and the script stops with it, having written no result. *)
Theorem empty_population_is_fatal (log10 : Q -> Q) (shapes : tracer)
  (out : string) (img1 img2 : ndarray Q) (prof1 prof2 : Profile) :
  let db1 := S1.despeckle (S1.to_db log10 img1) in
  let db2 := S1.despeckle (S1.to_db log10 img2) in
  shape img1 = shape img2 ->
  S1.population_thr1 db1 db2 = [] \/ S1.population_thr2 db1 db2 = [] \/
  S1.population_intensity db1 db2 = [] \/ S1.population_pix db1 db2 = [] \/
  S1.population_water db1 db2 = [] ->
  (forall a q, a = [] -> np_percentile a q = Raise EmptyPopulation) /\
  (forall a q t, np_percentile a q = Ok t -> a <> []) /\
  S1.detect db1 db2 = Raise EmptyPopulation /\
  run (S1.main log10 shapes out (img1, prof1) (img2, prof2)) =
    ([MakeDirs out], Raise EmptyPopulation).
Proof.
  intros db1 db2 Hshape Hpop.
  pose proof (detect_empty_population db1 db2 Hpop) as Hdet.
  split; [| split; [| split]].
  - intros a q ->. reflexivity.
  - intros a q t H ->. discriminate.
  - exact Hdet.
  - apply main_stops_with_detect; assumption.
Qed.

(** A run of C2: two all-ones 3x3 rasters; every sample is 1, whose decimal
    logarithm is 0, so the constant 0 stands for [log10] on this input.  The
    grids are equal, hence no cell brightens and the population of the
    pixel-level land threshold is empty. *)
Lemma empty_population_is_fatal_witness :
  S1.detect (S1.despeckle (S1.to_db (fun _ => 0%Q) (full 3 3 1%Q)))
            (S1.despeckle (S1.to_db (fun _ => 0%Q) (full 3 3 1%Q)))
  = Raise EmptyPopulation.
Proof.
  apply (empty_population_is_fatal (fun _ => 0%Q) (fun _ _ _ => []) "out"
           (full 3 3 1%Q) (full 3 3 1%Q)
           (mk_profile (mk_affine 10 0 0 0 (-10) 0) "EPSG:32633")
           (mk_profile (mk_affine 10 0 0 0 (-10) 0) "EPSG:32633")).
  - reflexivity.
  - right. right. right. left. vm_compute. reflexivity.
Defined.

(** C1 (amended).  For two identical input grids the radar script never
    reaches a final mask: no cell brightens, so a percentile threshold is
    asked of an empty population and the run stops with [EmptyPopulation];
    besides making the output folder it has no effect: no figure, no mask
    raster and no polygon file is written. *)
Theorem identical_grids_abort (log10 : Q -> Q) (shapes : tracer)
  (out : string) (img : ndarray Q) (prof1 prof2 : Profile) :
  S1.population_pix (S1.despeckle (S1.to_db log10 img))
                    (S1.despeckle (S1.to_db log10 img)) = [] /\
  S1.detect (S1.despeckle (S1.to_db log10 img))
            (S1.despeckle (S1.to_db log10 img)) = Raise EmptyPopulation /\
  run (S1.main log10 shapes out (img, prof1) (img, prof2)) =
    ([MakeDirs out], Raise EmptyPopulation).
Proof.
  set (db := S1.despeckle (S1.to_db log10 img)).
  assert (Hpix : S1.population_pix db db = [])
    by apply identical_grids_no_positive.
  assert (Hdet : S1.detect db db = Raise EmptyPopulation).
  { apply detect_empty_population. right. right. right. left. exact Hpix. }
  split; [exact Hpix | split; [exact Hdet |]].
  apply main_stops_with_detect; [reflexivity | exact Hdet].
Qed.

(** C1 (as stated) fails: on the pair of all-ones 6x6 rasters no run of the
    script ends normally, whatever the logarithm and the tracer are: there
    is no final mask, all-zero or otherwise. *)
Lemma identical_grids_no_mask :
  ~ exists (log10 : Q -> Q) (shapes : tracer) (out : string) (w : list event),
      run (S1.main log10 shapes out
             (full 6 6 1%Q, mk_profile (mk_affine 10 0 0 0 (-10) 0) "EPSG:32633")
             (full 6 6 1%Q, mk_profile (mk_affine 10 0 0 0 (-10) 0) "EPSG:32633"))
      = (w, Ok tt).
Proof.
  intros [log10 [shapes [out [w H]]]].
  rewrite (main_stops_with_detect log10 shapes out _ _ _ _ EmptyPopulation) in H.
  - discriminate.
  - reflexivity.
  - apply detect_empty_population. right. right. right. left.
    apply identical_grids_no_positive.
Qed.

(** C7.  When the two rasters differ in shape the script raises
    [ShapeMismatch] straight after reading them: the outcome is the same
    whatever the logarithm, the filter input and the tracer would have
    produced, and apart from the output folder made on start-up nothing is
    written. *)
Theorem shape_mismatch_aborts (log10 : Q -> Q) (shapes : tracer)
  (out : string) (img1 img2 : ndarray Q) (prof1 prof2 : Profile) :
  shape img1 <> shape img2 ->
  run (S1.main log10 shapes out (img1, prof1) (img2, prof2)) =
    ([MakeDirs out], Raise ShapeMismatch).
Proof.
  intros Hne. unfold run, S1.main, bind, emit, raise, lift.
  destruct (shape_eqb (shape img1) (shape img2)) eqn:E.
  - apply shape_eqb_iff in E. contradiction.
  - reflexivity.
Qed.

(** A run of C7: a 2x3 raster against a 3x2 raster. *)
Lemma shape_mismatch_aborts_witness :
  run (S1.main (fun x => x) (fun _ _ _ => []) "out"
         (full 2 3 1%Q, mk_profile (mk_affine 10 0 0 0 (-10) 0) "EPSG:32633")
         (full 3 2 1%Q, mk_profile (mk_affine 10 0 0 0 (-10) 0) "EPSG:32633"))
  = ([MakeDirs "out"], Raise ShapeMismatch).
Proof.
  apply (shape_mismatch_aborts (fun x => x) (fun _ _ _ => []) "out"
           (full 2 3 1%Q) (full 3 2 1%Q)).
  vm_compute. discriminate.
Defined.

(* ================================================================== *)
(** ** The Mask Vectorizer *)
(* ================================================================== *)

Lemma traced_polygons_In (pairs : list (polygon * Z)) (poly : polygon) :
  In poly (map fst (filter (fun gv => snd gv =? 1) pairs)) <-> In (poly, 1) pairs.
Proof.
  rewrite in_map_iff. split.
  - intros [[g v] [Hg Hin]]. apply filter_In in Hin. simpl in *.
    destruct Hin as [Hin Hv]. apply Z.eqb_eq in Hv. subst. exact Hin.
  - intros Hin. exists (poly, 1). split; [reflexivity |].
    apply filter_In. split; [exact Hin | reflexivity].
Qed.

Lemma kept_polygons_In (pairs : list (polygon * Z)) (ground_min : Q)
  (poly : polygon) :
  In poly (filter (fun poly => Qge_bool (polygon_area poly) ground_min)
                  (map fst (filter (fun gv => snd gv =? 1) pairs))) <->
  In (poly, 1) pairs /\ (ground_min <= polygon_area poly)%Q.
Proof.
  rewrite filter_In, traced_polygons_In. unfold Qge_bool.
  rewrite Qle_bool_iff. tauto.
Qed.

(** C8.  Both vectorizers keep exactly the traced polygons (the value-1
    shapes the tracer returns) whose area is at least [min_area] times
    [|transform[0] * transform[4]|].  When none is kept they print their
    "no change" line and return normally; otherwise they write the kept
    polygons with the profile's reference system and report the file. *)
Theorem vectorizer_keeps_large_polygons (shapes : tracer) (mask : ndarray bool)
  (profile : Profile) (out_path : string) (min_area : nat) (w : list event) :
  let t := transform profile in
  let ground_min := (inject_Z (Z.of_nat min_area) * Qabs (af_a t * af_e t))%Q in
  exists kept : list polygon,
    (forall poly, In poly kept <->
       In (poly, 1) (shapes mask mask t) /\ (ground_min <= polygon_area poly)%Q) /\
    S1.mask_to_geojson shapes mask profile out_path min_area w =
      match kept with
      | [] => (w ++ [Printed "No change polygons detected."], Ok tt)
      | _ :: _ =>
          (w ++ [VectorWritten out_path kept (crs profile);
                 Printed ("GeoJSON saved: " ++ out_path)], Ok tt)
      end /\
    S2.mask_to_geojson_georef shapes mask profile out_path min_area w =
      match kept with
      | [] => (w ++ [Printed "No changes detected for GeoJSON."], Ok tt)
      | _ :: _ =>
          (w ++ [VectorWritten out_path kept (crs profile);
                 Printed ("Saved georeferenced GeoJSON: " ++ out_path)], Ok tt)
      end.
Proof.
  intros t ground_min.
  exists (filter (fun poly => Qge_bool (polygon_area poly) ground_min)
                 (map fst (filter (fun gv => snd gv =? 1) (shapes mask mask t)))).
  split; [| split].
  - intros poly. apply kept_polygons_In.
  - unfold S1.mask_to_geojson. cbv zeta. fold t. fold ground_min.
    destruct (filter _ (map fst _)) as [| p0 ps].
    + reflexivity.
    + unfold bind, emit, print, emit. simpl. rewrite <- app_assoc. reflexivity.
  - unfold S2.mask_to_geojson_georef. cbv zeta. fold t. fold ground_min.
    destruct (filter _ (map fst _)) as [| p0 ps].
    + reflexivity.
    + unfold bind, emit, print, emit. simpl. rewrite <- app_assoc. reflexivity.
Qed.

(** C10.  When every traced polygon is below the minimum ground area, both
    vectorizers return after their "no change" line: the only effect added
    to the log is that line, so nothing is written at the output path. *)
Theorem no_large_polygon_no_write (shapes : tracer) (mask : ndarray bool)
  (profile : Profile) (out_path : string) (min_area : nat) (w : list event) :
  let t := transform profile in
  (forall poly, In (poly, 1) (shapes mask mask t) ->
     (polygon_area poly <
      inject_Z (Z.of_nat min_area) * Qabs (getitem t 0 * getitem t 4))%Q) ->
  S1.mask_to_geojson shapes mask profile out_path min_area w =
    (w ++ [Printed "No change polygons detected."], Ok tt) /\
  S2.mask_to_geojson_georef shapes mask profile out_path min_area w =
    (w ++ [Printed "No changes detected for GeoJSON."], Ok tt).
Proof.
  intros t Hsmall.
  assert (Hnone :
    filter (fun poly => Qge_bool (polygon_area poly)
              (inject_Z (Z.of_nat min_area) * Qabs (getitem t 0 * getitem t 4)))
           (map fst (filter (fun gv => snd gv =? 1) (shapes mask mask t))) = []).
  { apply filter_none. intros poly Hin. apply traced_polygons_In in Hin.
    specialize (Hsmall poly Hin). unfold Qge_bool.
    destruct (Qle_bool _ (polygon_area poly)) eqn:E; [| reflexivity].
    apply Qle_bool_iff in E. exfalso. exact (Qlt_not_le _ _ Hsmall E). }
  split.
  - unfold S1.mask_to_geojson. cbv zeta. fold t. rewrite Hnone. reflexivity.
  - unfold S2.mask_to_geojson_georef. cbv zeta. fold t. rewrite Hnone. reflexivity.
Qed.

(** A run of C10: the tracer returns one square of a single 10 m pixel
    (ground area 100), below the 10-pixel minimum of 1000. *)
Lemma no_large_polygon_no_write_witness :
  let square := mk_polygon [(0, 0); (10, 0); (10, 10); (0, 10); (0, 0)]%Q [] in
  let profile := mk_profile (mk_affine 10 0 0 0 (-10) 0) "EPSG:32633" in
  S1.mask_to_geojson (fun _ _ _ => [(square, 1)]) (full 3 3 true) profile
                     "out/change_polygons.geojson" S1.MIN_AREA [] =
    ([Printed "No change polygons detected."], Ok tt) /\
  S2.mask_to_geojson_georef (fun _ _ _ => [(square, 1)]) (full 3 3 true) profile
                     "out/change_polygons.geojson" S1.MIN_AREA [] =
    ([Printed "No changes detected for GeoJSON."], Ok tt).
Proof.
  intros square profile.
  apply (no_large_polygon_no_write (fun _ _ _ => [(square, 1)]) (full 3 3 true)
           profile "out/change_polygons.geojson" S1.MIN_AREA []).
  intros poly [Hin | []]. injection Hin as <-. vm_compute. reflexivity.
Defined.

(* ================================================================== *)
(** ** The optical path: sign of the principal axis *)
(* ================================================================== *)

Lemma Qabs_opp_eq (x : Q) : Qabs (- x) = Qabs x.
Proof. destruct x as [n d]. unfold Qabs, Qopp. simpl. rewrite Z.abs_opp. reflexivity. Qed.

Lemma Qopp_plus_eq (x y : Q) : (- x + - y = - (x + y))%Q.
Proof.
  destruct x as [n d], y as [n' d']. unfold Qplus, Qopp. simpl.
  f_equal. ring.
Qed.

Lemma Qmult_opp_r_eq (x y : Q) : (x * - y = - (x * y))%Q.
Proof.
  destruct x as [n d], y as [n' d']. unfold Qmult, Qopp. simpl.
  f_equal. ring.
Qed.

Lemma dot_opp (u v : list Q) : S2.dot u (map Qopp v) = (- S2.dot u v)%Q.
Proof.
  revert v. induction u as [| a u IH]; intros v.
  - reflexivity.
  - destruct v as [| b v].
    + reflexivity.
    + unfold S2.dot in *. simpl. rewrite IH, Qmult_opp_r_eq, Qopp_plus_eq.
      reflexivity.
Qed.

Lemma nth_map_opp (l : list Q) (i : nat) :
  nth i (map Qopp l) 0%Q = (- nth i l 0)%Q.
Proof.
  revert i. induction l as [| a l IH]; intros [| i]; simpl; auto.
Qed.

Lemma abs_reshape_opp (h w : nat) (l : list Q) :
  amap Qabs 0%Q (S2.reshape h w (map Qopp l)) = amap Qabs 0%Q (S2.reshape h w l).
Proof.
  unfold amap, S2.reshape. simpl. apply build_ext. intros r c Hb.
  rewrite !get_build by exact Hb.
  rewrite nth_map_opp. apply Qabs_opp_eq.
Qed.

Lemma mask_of_scores_abs (pc1 pc1' : ndarray Q) :
  amap Qabs 0%Q pc1 = amap Qabs 0%Q pc1' ->
  S2.mask_of_scores pc1 = S2.mask_of_scores pc1'.
Proof. intros H. unfold S2.mask_of_scores. rewrite H. reflexivity. Qed.

Lemma pca_scores_opp (first_axis : list (list Q) -> list Q) (x : list (list Q)) :
  S2.pca_first_scores (fun xc => map Qopp (first_axis xc)) x =
  match S2.pca_first_scores first_axis x with
  | Ok scores => Ok (map Qopp scores)
  | Raise e => Raise e
  end.
Proof.
  unfold S2.pca_first_scores.
  destruct (Nat.eqb (length x) 0); [reflexivity |].
  destruct (length x <? 4)%nat; [reflexivity |].
  f_equal. rewrite map_map. apply map_ext. intros row. apply dot_opp.
Qed.

(** C9.  Flipping the sign of the first principal axis changes nothing
    downstream of the absolute value: the scores are negated, their
    magnitudes, the percentile threshold, the change mask and the final mask
    are the same, and so is the whole run of the script.  The same holds
    when a grid of scores is negated directly. *)
Theorem principal_axis_sign_irrelevant (first_axis : list (list Q) -> list Q)
  (shapes : tracer) (out : string) (pre post : S2.stack)
  (profile profile' : Profile) (pc1 : ndarray Q) :
  S2.mask_of_scores (amap Qopp 0%Q pc1) = S2.mask_of_scores pc1 /\
  S2.detect (fun xc => map Qopp (first_axis xc)) pre post =
    S2.detect first_axis pre post /\
  run (S2.main (fun xc => map Qopp (first_axis xc)) shapes out
               (pre, profile) (post, profile')) =
    run (S2.main first_axis shapes out (pre, profile) (post, profile')).
Proof.
  assert (Hdet : S2.detect (fun xc => map Qopp (first_axis xc)) pre post =
                 S2.detect first_axis pre post).
  { unfold S2.detect. destruct (S2.stack_shape pre) as [h w].
    destruct (negb _); [reflexivity |].
    rewrite pca_scores_opp.
    destruct (S2.pca_first_scores first_axis _) as [scores | e]; [| reflexivity].
    apply mask_of_scores_abs, abs_reshape_opp. }
  split; [| split].
  - apply mask_of_scores_abs. unfold amap. simpl. apply build_ext.
    intros r c Hb. rewrite get_build by exact Hb. apply Qabs_opp_eq.
  - exact Hdet.
  - unfold run, S2.main. rewrite Hdet. reflexivity.
Qed.

(* ================================================================== *)
(** ** The optical path: equal stacks *)
(* ================================================================== *)

Lemma all_zero_nth (l : list Q) (i : nat) (d : Q) :
  all_zero l -> (d == 0)%Q -> (nth i l d == 0)%Q.
Proof.
  intros Hl Hd. revert i. induction Hl as [| a l Ha Hl IH]; intros [| i]; simpl; auto.
Qed.

Lemma all_zero_dot (u v : list Q) : all_zero u -> (S2.dot u v == 0)%Q.
Proof.
  intros Hu. revert v. induction Hu as [| a u Ha Hu IH]; intros v.
  - reflexivity.
  - destruct v as [| b v]; [reflexivity |].
    unfold S2.dot in *. simpl. rewrite Ha, IH. ring.
Qed.

Lemma all_zero_insert (x : Q) (l : list Q) :
  (x == 0)%Q -> all_zero l -> all_zero (insert_sorted x l).
Proof.
  intros Hx Hl. induction Hl as [| a l Ha Hl IH]; simpl.
  - constructor; [exact Hx | constructor].
  - destruct (Qle_bool x a).
    + constructor; [exact Hx |]. constructor; assumption.
    + constructor; assumption.
Qed.

Lemma all_zero_sort (l : list Q) : all_zero l -> all_zero (sort l).
Proof.
  induction 1 as [| a l Ha Hl IH]; simpl.
  - constructor.
  - apply all_zero_insert; assumption.
Qed.

Lemma percentile_all_zero (a : list Q) (q : Q) :
  a <> [] -> all_zero a -> exists t, np_percentile a q = Ok t /\ (t == 0)%Q.
Proof.
  intros Hne Ha. destruct a as [| x0 a]; [congruence |].
  eexists. split; [reflexivity |]. cbv zeta.
  assert (H0 : (x0 == 0)%Q) by (inversion Ha; assumption).
  pose proof (all_zero_sort _ Ha) as Hs.
  rewrite (all_zero_nth _ (Z.to_nat (Qfloor _)) x0 Hs H0).
  rewrite (all_zero_nth _ (Z.to_nat (Z.min _ _)) x0 Hs H0).
  ring.
Qed.

Lemma self_difference_zero (b : ndarray Q) (p : Z * Z) :
  (getp 0 (map2 Qminus 0 0 b b) p == 0)%Q.
Proof.
  unfold getp, map2. rewrite get_build_cases.
  destruct (in_bounds _ _ _ _); [ring | reflexivity].
Qed.

Lemma equal_stacks_zero_variance (h w : nat) (s : S2.stack) :
  zero_variance h w (S2.stack_sub s s).
Proof.
  unfold zero_variance, S2.stack_sub. simpl.
  repeat split; exists 0%Q; intros p _; apply self_difference_zero.
Qed.

Lemma sum_constant (l : list Q) (k : Q) :
  Forall (fun v => v == k)%Q l ->
  (Qsum l == inject_Z (Z.of_nat (length l)) * k)%Q.
Proof.
  induction 1 as [| a l Ha Hl IH].
  - simpl. ring.
  - change (Qsum (a :: l)) with (a + Qsum l)%Q.
    change (length (a :: l)) with (S (length l)).
    rewrite Nat2Z.inj_succ, <- Z.add_1_r, inject_Z_plus, Ha, IH.
    change (inject_Z 1) with 1%Q. ring.
Qed.

Lemma mean_constant (l : list Q) (k : Q) :
  l <> [] -> Forall (fun v => v == k)%Q l -> (mean l == k)%Q.
Proof.
  intros Hne Hl. unfold mean. rewrite (sum_constant l k Hl).
  assert (Hn : ~ (inject_Z (Z.of_nat (length l)) == 0)%Q).
  { destruct l as [| a l]; [congruence |].
    change 0%Q with (inject_Z 0). rewrite inject_Z_injective.
    simpl length. lia. }
  field. exact Hn.
Qed.

Lemma column_mean_constant (h w : nat) (b : ndarray Q) (k : Q) :
  (1 <= h * w)%nat ->
  (forall p, In p (indices h w) -> (getp 0 b p == k)%Q) ->
  (mean (map (getp 0%Q b) (indices h w)) == k)%Q.
Proof.
  intros Hn Hk. apply mean_constant.
  - intros E. apply (f_equal (@length Q)) in E.
    rewrite length_map, length_indices in E. simpl in E. lia.
  - apply Forall_forall. intros v Hv.
    apply in_map_iff in Hv. destruct Hv as [p [<- Hp]]. apply Hk, Hp.
Qed.

(** Centring removes what is constant in each band. *)
Lemma centre_zero_variance (h w : nat) (d : S2.stack) :
  (1 <= h * w)%nat -> zero_variance h w d ->
  Forall all_zero (S2.centre (S2.pixel_vectors h w d)).
Proof.
  intros Hn [[k1 H1] [[k2 H2] [[k3 H3] [k4 H4]]]].
  unfold S2.centre, S2.column_means.
  change (seq 0 4) with [0; 1; 2; 3]%nat. cbn [map].
  unfold S2.column, S2.pixel_vectors. rewrite !map_map. cbn [S2.bands map nth].
  apply Forall_forall. intros row Hrow.
  apply in_map_iff in Hrow. destruct Hrow as [p [<- Hp]].
  cbn [combine map fst snd].
  pose proof (column_mean_constant h w _ k1 Hn H1) as M1.
  pose proof (column_mean_constant h w _ k2 Hn H2) as M2.
  pose proof (column_mean_constant h w _ k3 Hn H3) as M3.
  pose proof (column_mean_constant h w _ k4 Hn H4) as M4.
  unfold all_zero. repeat constructor.
  - change (fun x0 : Z * Z => getp 0%Q (S2.band1 d) x0) with (getp 0%Q (S2.band1 d)).
    rewrite M1, (H1 p Hp). ring.
  - change (fun x0 : Z * Z => getp 0%Q (S2.band2 d) x0) with (getp 0%Q (S2.band2 d)).
    rewrite M2, (H2 p Hp). ring.
  - change (fun x0 : Z * Z => getp 0%Q (S2.band3 d) x0) with (getp 0%Q (S2.band3 d)).
    rewrite M3, (H3 p Hp). ring.
  - change (fun x0 : Z * Z => getp 0%Q (S2.band4 d) x0) with (getp 0%Q (S2.band4 d)).
    rewrite M4, (H4 p Hp). ring.
Qed.

(** Morphology and labelling of the empty mask. *)
Lemma erosion1_empty (s : structure) (h w : nat) :
  In (0, 0) s -> binary_erosion1 s (full h w false) = full h w false.
Proof.
  intros Hs. unfold binary_erosion1, full. simpl. apply build_ext.
  intros r c Hb. destruct (forallb _ s) eqn:E; [| reflexivity].
  rewrite forallb_forall in E. specialize (E (0, 0) Hs). simpl in E.
  rewrite !Z.add_0_r, get_build in E by exact Hb. discriminate E.
Qed.

Lemma dilation1_empty (s : structure) (h w : nat) :
  binary_dilation1 s (full h w false) = full h w false.
Proof.
  unfold binary_dilation1, full. simpl. apply build_ext.
  intros r c Hb. destruct (existsb _ s) eqn:E; [| reflexivity].
  apply existsb_exists in E. destruct E as [o [_ E]].
  rewrite get_build_cases in E.
  destruct (in_bounds h w (r - fst o) (c - snd o)); discriminate E.
Qed.

Lemma label_scan_empty (x : ndarray bool) (ps : list (Z * Z)) :
  (forall q, getp false x q = false) ->
  forall lab next, label_scan x ps lab next = lab.
Proof.
  intros Hx. induction ps as [| p ps IH]; intros lab next; simpl.
  - reflexivity.
  - rewrite Hx. simpl. apply IH.
Qed.

Lemma label_empty (h w : nat) : label (full h w false) = full h w 0%nat.
Proof.
  unfold label. apply label_scan_empty. intros q. unfold getp, full.
  rewrite get_build_cases. destruct (in_bounds _ _ _ _); reflexivity.
Qed.

Lemma regionprops_unlabelled (h w : nat) : regionprops (full h w 0%nat) = [].
Proof.
  unfold regionprops.
  assert (H : max_label (full h w 0%nat) = 0%nat).
  { unfold max_label.
    induction (indices (nrows (full h w 0%nat)) (ncols (full h w 0%nat)))
      as [| p l IH]; simpl.
    - reflexivity.
    - rewrite IH. unfold getp, full. rewrite get_build_cases.
      destruct (in_bounds _ _ _ _); reflexivity. }
  rewrite H. reflexivity.
Qed.

Lemma mask_of_zero_scores (h w : nat) (scores : list Q) :
  (1 <= h * w)%nat -> all_zero scores ->
  S2.mask_of_scores (S2.reshape h w scores) = Ok (full h w false).
Proof.
  intros Hn Hz. unfold S2.mask_of_scores.
  set (pc1_abs := amap Qabs 0%Q (S2.reshape h w scores)).
  assert (Hcell : forall r c, (get 0%Q pc1_abs r c == 0)%Q).
  { intros r c. unfold pc1_abs, amap, S2.reshape. simpl.
    rewrite get_build_cases. destruct (in_bounds h w r c) eqn:Hb; [| reflexivity].
    rewrite get_build by exact Hb.
    rewrite (all_zero_nth scores _ 0%Q Hz); reflexivity. }
  assert (Hflat : all_zero (S2.flatten pc1_abs)).
  { unfold S2.flatten. apply Forall_forall. intros v Hv.
    apply in_map_iff in Hv. destruct Hv as [p [<- _]]. apply Hcell. }
  assert (Hne : S2.flatten pc1_abs <> []).
  { unfold S2.flatten. intros E. apply (f_equal (@length Q)) in E.
    rewrite length_map, length_indices in E. simpl in E. lia. }
  destruct (percentile_all_zero _ 95%Q Hne Hflat) as [t [-> Ht]].
  assert (Hmask : amap (fun x => Qgt_bool x t) 0%Q pc1_abs = full h w false).
  { unfold amap, full. simpl. apply build_ext. intros r c Hb.
    unfold Qgt_bool, Qlt_bool. apply negb_false_iff, Qle_bool_iff.
    rewrite (Hcell r c), Ht. apply Qle_refl. }
  rewrite Hmask.
  assert (Hcross : In (0, 0) (generate_binary_structure 1)) by (simpl; auto).
  unfold binary_opening, binary_closing, binary_erosion, binary_dilation.
  simpl Nat.iter.
  rewrite (erosion1_empty _ h w Hcross), !dilation1_empty,
          !(erosion1_empty _ h w Hcross), label_empty.
  unfold S2.keep_ships. rewrite regionprops_unlabelled. reflexivity.
Qed.

Lemma detect_zero_variance (first_axis : list (list Q) -> list Q)
  (pre post : S2.stack) :
  S2.stack_shape post = S2.stack_shape pre ->
  (4 <= fst (S2.stack_shape pre) * snd (S2.stack_shape pre))%nat ->
  zero_variance (fst (S2.stack_shape pre)) (snd (S2.stack_shape pre))
                (S2.stack_sub post pre) ->
  S2.detect first_axis pre post =
    Ok (full (fst (S2.stack_shape pre)) (snd (S2.stack_shape pre)) false).
Proof.
  intros Hshape Hn Hvar.
  unfold S2.detect. rewrite Hshape.
  destruct (S2.stack_shape pre) as [h w] eqn:Es.
  simpl in Hn, Hvar. simpl fst. simpl snd.
  assert (Hs : shape_eqb (h, w) (h, w) = true)
    by (apply shape_eqb_iff; reflexivity).
  rewrite Hs. simpl negb. cbv iota.
  unfold S2.pca_first_scores.
  assert (Hlen : length (S2.pixel_vectors h w (S2.stack_sub post pre)) = (h * w)%nat).
  { unfold S2.pixel_vectors. rewrite length_map. apply length_indices. }
  rewrite Hlen.
  destruct (Nat.eqb (h * w) 0) eqn:E0; [apply Nat.eqb_eq in E0; lia |].
  destruct (h * w <? 4)%nat eqn:E4; [apply Nat.ltb_lt in E4; lia |].
  apply mask_of_zero_scores; [lia |].
  apply Forall_forall. intros v Hv.
  apply in_map_iff in Hv. destruct Hv as [row [<- Hrow]].
  apply all_zero_dot.
  assert (Hc : Forall all_zero (S2.centre (S2.pixel_vectors h w (S2.stack_sub post pre))))
    by (apply centre_zero_variance; [lia | exact Hvar]).
  rewrite Forall_forall in Hc. apply Hc, Hrow.
Qed.

(** C3 (amended).  When the difference of the two stacks has no variance in
    any band (each band differs by one constant over the whole grid; equal
    stacks are the case of the constant 0) and the grid has the four cells
    the four-component decomposition needs, the optical path raises
    nothing, whichever axis the solver returns: every centred difference and
    so every score is zero, so is the threshold, the strict comparison
    selects no cell and the final mask is all zeros; the script runs to its
    end and writes that mask. *)
Theorem zero_variance_gives_empty_mask (first_axis : list (list Q) -> list Q)
  (shapes : tracer) (out : string) (pre post : S2.stack)
  (profile profile' : Profile) :
  S2.stack_shape post = S2.stack_shape pre ->
  (4 <= fst (S2.stack_shape pre) * snd (S2.stack_shape pre))%nat ->
  zero_variance (fst (S2.stack_shape pre)) (snd (S2.stack_shape pre))
                (S2.stack_sub post pre) ->
  let zeros := full (fst (S2.stack_shape pre)) (snd (S2.stack_shape pre)) false in
  S2.detect first_axis pre post = Ok zeros /\
  snd (run (S2.main first_axis shapes out (pre, profile) (post, profile'))) = Ok tt /\
  In (RasterWritten (path_join out "change_mask.tif") zeros profile)
     (fst (run (S2.main first_axis shapes out (pre, profile) (post, profile')))).
Proof.
  intros Hshape Hn Hvar zeros.
  assert (Hdet : S2.detect first_axis pre post = Ok zeros)
    by (apply detect_zero_variance; assumption).
  unfold run, S2.main, bind, lift, emit.
  rewrite Hdet. cbv beta iota zeta.
  unfold S2.save_mask_georef, print, emit.
  destruct (S2.mask_to_geojson_georef shapes zeros profile _ 1 _) as [w' r] eqn:Eg.
  assert (Hg : r = Ok tt /\ exists tail, w' =
     [MakeDirs out; FigureSaved (path_join out "change_detection_result.png");
      FigureShown;
      RasterWritten (path_join out "change_mask.tif") zeros profile;
      Printed ("Saved georeferenced binary mask TIFF: " ++ path_join out "change_mask.tif")]
     ++ tail).
  { revert Eg. unfold S2.mask_to_geojson_georef. cbv zeta.
    destruct (Nat.eqb _ 0); unfold bind, print, emit; simpl;
      intros Eg; injection Eg as <- <-; split; try reflexivity;
      eexists; reflexivity. }
  destruct Hg as [-> [tail ->]].
  split; [reflexivity | split; [reflexivity |]].
  simpl. auto 10.
Qed.

(** A run of C3 (amended): four constant 2x2 bands, read twice. *)
Lemma zero_variance_gives_empty_mask_witness :
  let band := full 2 2 (5 # 2) in
  let pre := S2.mk_stack band band band band in
  S2.detect (fun _ => [1; 0; 0; 0]%Q) pre pre = Ok (full 2 2 false).
Proof.
  intros band pre.
  apply (zero_variance_gives_empty_mask (fun _ => [1; 0; 0; 0]%Q) (fun _ _ _ => [])
           "out" pre pre
           (mk_profile (mk_affine 10 0 0 0 (-10) 0) "EPSG:32633")
           (mk_profile (mk_affine 10 0 0 0 (-10) 0) "EPSG:32633")).
  - reflexivity.
  - simpl. lia.
  - unfold zero_variance, constant_band.
    repeat split; exists 0%Q; intros p Hp; simpl in Hp;
      repeat (destruct Hp as [<- | Hp]; [vm_compute; reflexivity |]);
      contradiction.
Defined.

(** C3 (as stated) fails: with four equal constant 2x2 bands before and
    after, the detection raises no exception at all, whatever axis the
    solver returns. *)
Lemma equal_stacks_raise_nothing :
  ~ exists (first_axis : list (list Q) -> list Q) (e : exn),
      S2.detect first_axis
        (S2.mk_stack (full 2 2 (5 # 2)) (full 2 2 (5 # 2))
                     (full 2 2 (5 # 2)) (full 2 2 (5 # 2)))
        (S2.mk_stack (full 2 2 (5 # 2)) (full 2 2 (5 # 2))
                     (full 2 2 (5 # 2)) (full 2 2 (5 # 2)))
      = Raise e.
Proof.
  intros [first_axis [e H]].
  rewrite detect_zero_variance in H.
  - discriminate.
  - reflexivity.
  - simpl. lia.
  - apply equal_stacks_zero_variance.
Qed.

(* ################################################################## *)
(** * Further properties of the two scripts *)
(* ################################################################## *)

(* ================================================================== *)
(** ** clean_mask: border, minimum area, empty mask *)
(* ================================================================== *)

Lemma erosion1_interior (m : ndarray bool) (r c : Z) :
  get false (binary_erosion1 offsets3x3 m) r c = true ->
  1 <= r /\ r + 1 < Z.of_nat (nrows m) /\ 1 <= c /\ c + 1 < Z.of_nat (ncols m).
Proof.
  rewrite get_erosion1, andb_true_iff, forallb_forall. intros [_ Hall].
  assert (H1 := get_true_in_bounds m _ _ (Hall (-1, -1) ltac:(simpl; auto 10))).
  assert (H2 := get_true_in_bounds m _ _ (Hall (1, 1) ltac:(simpl; auto 10))).
  apply in_bounds_iff in H1. apply in_bounds_iff in H2. simpl in H1, H2. lia.
Qed.

(** X1.  A cleaned mask has no cell on the border of the grid: every cell
    [clean_mask] keeps has all its eight neighbours inside the array.  In
    particular a grid with fewer than three rows or columns is wiped. *)
Theorem clean_mask_clears_border (m : ndarray bool) (k : nat) (r c : Z) :
  get false (S1.clean_mask m k) r c = true ->
  1 <= r /\ r + 1 < Z.of_nat (nrows m) /\ 1 <= c /\ c + 1 < Z.of_nat (ncols m).
Proof.
  intros H. apply clean_mask_sub in H. unfold open_close in H.
  apply erosion1_interior in H. simpl in H. exact H.
Qed.

(** A run of X1: the all-ones 6x6 mask keeps cell (1, 1). *)
Lemma clean_mask_clears_border_witness :
  1 <= 1 /\ 1 + 1 < Z.of_nat (nrows (full 6 6 true)) /\
  1 <= 1 /\ 1 + 1 < Z.of_nat (ncols (full 6 6 true)).
Proof.
  apply (clean_mask_clears_border (full 6 6 true) S1.MIN_AREA 1 1).
  vm_compute. reflexivity.
Defined.

Lemma clean_mask_same_label (m : ndarray bool) (k : nat) (r c : Z) (q : Z * Z) :
  get false (S1.clean_mask m k) r c = true ->
  In q (coords_of (label (open_close m)) (get 0%nat (label (open_close m)) r c)) ->
  getp false (S1.clean_mask m k) q = true.
Proof.
  intros H Hq. apply get_clean_mask in H. destruct H as [Hx Hk].
  apply in_coords_of in Hq. destruct Hq as [Hb Hl].
  unfold getp in *. apply get_clean_mask. split.
  - apply label_in_mask. rewrite Hl. apply label_of_mask. exact Hx.
  - rewrite Hl. exact Hk.
Qed.

(** X2.  A cleaned mask is empty or has at least [min_area] set cells: a
    kept cell is kept with its whole component, which has that many. *)
Theorem clean_mask_keeps_min_area (m : ndarray bool) (k : nat) (r c : Z) :
  get false (S1.clean_mask m k) r c = true ->
  (k <= cardinal m (S1.clean_mask m k))%nat.
Proof.
  intros H. pose proof H as H0. apply get_clean_mask in H0.
  destruct H0 as [_ Hk].
  eapply Nat.le_trans; [exact Hk |].
  unfold cardinal, coords_of.
  pose proof (label_shape (open_close m)) as Hs.
  unfold shape in Hs. injection Hs as Hr Hc. rewrite Hr, Hc.
  change (nrows (open_close m)) with (nrows m).
  change (ncols (open_close m)) with (ncols m).
  apply filter_length_mono. intros q Hq Hl.
  apply (clean_mask_same_label m k r c q H).
  apply in_coords_of. rewrite Hr, Hc. split.
  - apply in_indices. exact Hq.
  - apply Nat.eqb_eq. exact Hl.
Qed.

(** A run of X2: the all-ones 6x6 mask, whose cleaned interior has 16 cells. *)
Lemma clean_mask_keeps_min_area_witness :
  (S1.MIN_AREA <= cardinal (full 6 6 true) (S1.clean_mask (full 6 6 true) S1.MIN_AREA))%nat.
Proof.
  apply (clean_mask_keeps_min_area (full 6 6 true) S1.MIN_AREA 1 1).
  vm_compute. reflexivity.
Defined.

(** X3.  Raising the minimum area only removes cells, and with a minimum
    area of 0 nothing of the opened-and-closed mask is dropped. *)
Theorem clean_mask_antitone (m : ndarray bool) (k k' : nat) :
  (k <= k')%nat ->
  subset (S1.clean_mask m k') (S1.clean_mask m k) /\
  (forall r c, get false (S1.clean_mask m 0) r c =
               get false (binary_closing (binary_opening m (generate_binary_structure 2) 1)
                                         (generate_binary_structure 2) 1) r c).
Proof.
  intros Hk. split.
  - intros r c H. apply get_clean_mask in H. apply get_clean_mask.
    destruct H as [Hx Hl]. split; [exact Hx | lia].
  - intros r c. change (binary_closing _ _ 1) with (open_close m).
    destruct (get false (open_close m) r c) eqn:E.
    + apply get_clean_mask. split; [exact E | lia].
    + destruct (get false (S1.clean_mask m 0) r c) eqn:E'; [| reflexivity].
      apply clean_mask_sub in E'. congruence.
Qed.

(** A run of X3 on the all-ones 7x4 mask: its 10-cell interior passes a
    minimum of 10 and so a minimum of 1. *)
Lemma clean_mask_antitone_witness :
  subset (S1.clean_mask (full 7 4 true) 10) (S1.clean_mask (full 7 4 true) 1).
Proof.
  apply (clean_mask_antitone (full 7 4 true) 1 10). lia.
Defined.

(** X4.  The empty mask of a grid with at least one cell stays empty,
    whatever the shape and the minimum area.  (On an image without cells
    [regionprops] raises, and so does [clean_mask].) *)
Theorem clean_mask_empty (h w k : nat) :
  (1 <= h)%nat -> (1 <= w)%nat ->
  S1.clean_mask (full h w false) k = full h w false.
Proof.
  intros _ _.
  rewrite clean_mask_unfold. unfold open_close.
  rewrite !(erosion1_empty offsets3x3 h w offsets3x3_centre), !dilation1_empty,
          !(erosion1_empty offsets3x3 h w offsets3x3_centre).
  rewrite label_empty, regionprops_unlabelled. reflexivity.
Qed.

(** A run of X4: the empty 3x4 mask under the default minimum area. *)
Lemma clean_mask_empty_witness :
  S1.clean_mask (full 3 4 false) S1.MIN_AREA = full 3 4 false.
Proof. apply (clean_mask_empty 3 4 S1.MIN_AREA); lia. Defined.

(* ================================================================== *)
(** ** Normalisation: to_db and despeckle *)
(* ================================================================== *)

Lemma clip_min_ge (lo x : Q) : (lo <= clip_min lo x)%Q.
Proof.
  unfold clip_min. destruct (Qlt_bool x lo) eqn:E.
  - apply Qle_refl.
  - unfold Qlt_bool in E. apply negb_false_iff, Qle_bool_iff in E. exact E.
Qed.

(** X5.  [to_db] keeps the shape of the raster and asks the logarithm only
    for arguments of at least [EPS]: two logarithms that agree from [EPS]
    upwards give the same grid, and every sample below [EPS] (zero and
    negative samples among them) lands on the floor [10 * log10 EPS]. *)
Theorem to_db_clips_before_log (log10 log10' : Q -> Q) (img : ndarray Q) :
  (forall x, (S1.EPS <= x)%Q -> log10 x = log10' x) ->
  shape (S1.to_db log10 img) = shape img /\
  S1.to_db log10 img = S1.to_db log10' img /\
  (forall r c, in_bounds (nrows img) (ncols img) r c = true ->
     (get 0 img r c < S1.EPS)%Q ->
     get 0%Q (S1.to_db log10 img) r c = (10 * log10 S1.EPS)%Q).
Proof.
  intros Hagree. split; [reflexivity | split].
  - unfold S1.to_db, amap. apply build_ext. intros r c _.
    rewrite (Hagree _ (clip_min_ge S1.EPS _)). reflexivity.
  - intros r c Hb Hlt. unfold S1.to_db, amap. rewrite get_build by exact Hb.
    unfold clip_min. apply Qlt_bool_iff in Hlt. rewrite Hlt. reflexivity.
Qed.

(** A run of X5: a logarithm that is only right from [EPS] upwards is as
    good as the constant it takes there, on a raster with a zero sample. *)
Lemma to_db_clips_before_log_witness :
  S1.to_db (fun x => if Qlt_bool x S1.EPS then 7 else 0)%Q
           (build 2 2 (fun r c => if r =? 0 then 0 else 1)%Q) =
  S1.to_db (fun _ => 0%Q) (build 2 2 (fun r c => if r =? 0 then 0 else 1)%Q).
Proof.
  apply (to_db_clips_before_log (fun x => if Qlt_bool x S1.EPS then 7 else 0)%Q
           (fun _ => 0%Q) (build 2 2 (fun r c => if r =? 0 then 0 else 1)%Q)).
  intros x Hx. destruct (Qlt_bool x S1.EPS) eqn:E; [| reflexivity].
  apply Qlt_bool_iff in E. exfalso. exact (Qlt_not_le _ _ E Hx).
Defined.

Lemma reflect_in_range (n : nat) (i o : Z) :
  0 <= i < Z.of_nat n -> -1 <= o <= 1 ->
  0 <= reflect n (i + o) < Z.of_nat n.
Proof.
  intros Hi Ho. unfold reflect.
  destruct (i + o <? 0) eqn:E1.
  - apply Z.ltb_lt in E1. lia.
  - apply Z.ltb_ge in E1. destruct (Z.of_nat n <=? i + o) eqn:E2.
    + apply Z.leb_le in E2. lia.
    + apply Z.leb_gt in E2. lia.
Qed.

Lemma offsets3x3_range (o : Z * Z) :
  In o offsets3x3 -> -1 <= fst o <= 1 /\ -1 <= snd o <= 1.
Proof.
  simpl. intros H.
  repeat (destruct H as [<- | H]; [simpl; lia |]). contradiction.
Qed.

Lemma Qsum_between (l : list Q) (lo hi : Q) :
  (forall x, In x l -> lo <= x <= hi)%Q ->
  (inject_Z (Z.of_nat (length l)) * lo <= Qsum l <=
   inject_Z (Z.of_nat (length l)) * hi)%Q.
Proof.
  induction l as [| a l IH]; intros H.
  - change (inject_Z (Z.of_nat (length (@nil Q)))) with 0%Q.
    change (Qsum []) with 0%Q. lra.
  - change (Qsum (a :: l)) with (a + Qsum l)%Q.
    change (length (a :: l)) with (S (length l)).
    rewrite Nat2Z.inj_succ, <- Z.add_1_r, inject_Z_plus.
    change (inject_Z 1) with 1%Q.
    pose proof (H a (or_introl eq_refl)) as Ha.
    pose proof (IH (fun x Hx => H x (or_intror Hx))) as Hl.
    set (n := inject_Z (Z.of_nat (length l))) in *.
    lra.
Qed.

(** X6.  [despeckle] keeps the shape of the grid, reads only cells of the
    grid (the 3x3 window is reflected at the border) and, being a mean,
    keeps every value within the range of the input. *)
Theorem despeckle_within_range (img : ndarray Q) (lo hi : Q) (r c : Z) :
  (forall r' c', in_bounds (nrows img) (ncols img) r' c' = true ->
                 lo <= get 0 img r' c' <= hi)%Q ->
  in_bounds (nrows img) (ncols img) r c = true ->
  shape (S1.despeckle img) = shape img /\
  (forall o, In o offsets3x3 ->
     in_bounds (nrows img) (ncols img)
       (reflect (nrows img) (r + fst o)) (reflect (ncols img) (c + snd o)) = true) /\
  (lo <= get 0 (S1.despeckle img) r c <= hi)%Q.
Proof.
  intros Hrange Hb.
  assert (Hwin : forall o, In o offsets3x3 ->
            in_bounds (nrows img) (ncols img)
              (reflect (nrows img) (r + fst o)) (reflect (ncols img) (c + snd o)) = true).
  { intros o Ho. apply offsets3x3_range in Ho.
    apply in_bounds_iff in Hb. apply in_bounds_iff. split.
    - apply reflect_in_range; tauto.
    - apply reflect_in_range; tauto. }
  split; [reflexivity | split; [exact Hwin |]].
  unfold S1.despeckle, uniform_filter. rewrite get_build by exact Hb.
  set (window := map (fun o => get 0%Q img (reflect (nrows img) (r + fst o))
                                         (reflect (ncols img) (c + snd o)))
                     offsets3x3).
  assert (Hw : (inject_Z (Z.of_nat (length window)) * lo <= Qsum window <=
                inject_Z (Z.of_nat (length window)) * hi)%Q).
  { apply Qsum_between. intros x Hx. unfold window in Hx.
    apply in_map_iff in Hx. destruct Hx as [o [<- Ho]].
    apply Hrange, Hwin, Ho. }
  change (inject_Z (Z.of_nat (length window))) with 9%Q in Hw.
  unfold Qdiv. change (/ 9)%Q with (1 # 9)%Q. lra.
Qed.

(** A run of X6: a 3x3 raster of samples 0 and 1, at its corner cell. *)
Lemma despeckle_within_range_witness :
  (0 <= get 0 (S1.despeckle (build 3 3 (fun r c => if r =? c then 1 else 0)%Q)) 0 0 <= 1)%Q.
Proof.
  apply (despeckle_within_range (build 3 3 (fun r c => if r =? c then 1 else 0)%Q) 0 1 0 0).
  - intros r' c' Hb. rewrite get_build by exact Hb.
    destruct (r' =? c'); split; discriminate.
  - reflexivity.
Defined.

(* ================================================================== *)
(** ** Percentile thresholds and the pixel criteria *)
(* ================================================================== *)

Lemma insert_sorted_In (x y : Q) (l : list Q) :
  In y (insert_sorted x l) -> y = x \/ In y l.
Proof.
  induction l as [| a l IH]; simpl.
  - intros [H | []]. left. symmetry. exact H.
  - destruct (Qle_bool x a); simpl.
    + intros [H | H]; [left; symmetry; exact H | right; exact H].
    + intros [H | H]; [right; left; exact H |].
      destruct (IH H) as [E | E]; [left; exact E | right; right; exact E].
Qed.

Lemma sort_In (y : Q) (l : list Q) : In y (sort l) -> In y l.
Proof.
  induction l as [| a l IH]; simpl.
  - auto.
  - intros H. apply insert_sorted_In in H.
    destruct H as [-> | H]; [left; reflexivity | right; apply IH, H].
Qed.

Lemma nth_sort_In (x0 : Q) (a : list Q) (i : nat) :
  In (nth i (sort (x0 :: a)) x0) (x0 :: a).
Proof.
  destruct (nth_in_or_default i (sort (x0 :: a)) x0) as [H | H].
  - apply sort_In, H.
  - rewrite H. left. reflexivity.
Qed.

(** A percentile is a point between two samples of the population. *)
Lemma np_percentile_convex (a : list Q) (q : Q) :
  a <> [] ->
  exists xl xh g,
    In xl a /\ In xh a /\ (0 <= g <= 1)%Q /\
    np_percentile a q = Ok (xl + g * (xh - xl))%Q.
Proof.
  intros Hne. destruct a as [| x0 a]; [congruence |].
  unfold np_percentile. cbv zeta.
  set (virt := (inject_Z (Z.of_nat (length (x0 :: a)) - 1) * q / 100)%Q).
  exists (nth (Z.to_nat (Qfloor virt)) (sort (x0 :: a)) x0).
  exists (nth (Z.to_nat (Z.min (Qfloor virt + 1) (Z.of_nat (length (x0 :: a)) - 1)))
              (sort (x0 :: a)) x0).
  exists (virt - inject_Z (Qfloor virt))%Q.
  repeat split.
  - apply nth_sort_In.
  - apply nth_sort_In.
  - pose proof (Qfloor_le virt). lra.
  - pose proof (Qlt_floor virt) as H. rewrite inject_Z_plus in H.
    change (inject_Z 1) with 1%Q in H. lra.
Qed.

(** X7.  For a non-empty population and a percentile between 0 and 100,
    [np_percentile] returns a threshold, and the threshold lies between any
    two bounds of the population. *)
Theorem percentile_within_population (a : list Q) (q lo hi : Q) :
  a <> [] -> (0 <= q <= 100)%Q ->
  (forall x, In x a -> lo <= x <= hi)%Q ->
  exists t, np_percentile a q = Ok t /\ (lo <= t <= hi)%Q.
Proof.
  intros Hne _ Hrange.
  destruct (np_percentile_convex a q Hne) as [xl [xh [g [Hl [Hh [Hg ->]]]]]].
  eexists. split; [reflexivity |].
  pose proof (Hrange xl Hl). pose proof (Hrange xh Hh). nra.
Qed.

(** A run of X7: the 95th percentile of four land values. *)
Lemma percentile_within_population_witness :
  exists t, np_percentile [3; 1; 4; 2]%Q S1.PERCENTILE_OBJ = Ok t /\ (1 <= t <= 4)%Q.
Proof.
  apply (percentile_within_population [3; 1; 4; 2]%Q S1.PERCENTILE_OBJ 1 4).
  - discriminate.
  - split; discriminate.
  - intros x Hx. simpl in Hx.
    repeat (destruct Hx as [<- | Hx]; [split; discriminate |]). contradiction.
Defined.

Lemma np_percentile_le_some (a : list Q) (q t : Q) :
  np_percentile a q = Ok t -> exists x, In x a /\ (t <= x)%Q.
Proof.
  intros H. assert (Hne : a <> []) by (intros ->; discriminate).
  destruct (np_percentile_convex a q Hne) as [xl [xh [g [Hl [Hh [Hg E]]]]]].
  rewrite E in H. injection H as <-.
  destruct (Qlt_le_dec xh xl) as [Hlt | Hle].
  - exists xl. split; [exact Hl | nra].
  - exists xh. split; [exact Hh | nra].
Qed.

Lemma np_percentile_positive (a : list Q) (q t : Q) :
  (forall x, In x a -> 0 < x)%Q -> np_percentile a q = Ok t -> (0 < t)%Q.
Proof.
  intros Hpos H. assert (Hne : a <> []) by (intros ->; discriminate).
  destruct (np_percentile_convex a q Hne) as [xl [xh [g [Hl [Hh [Hg E]]]]]].
  rewrite E in H. injection H as <-.
  pose proof (Hpos xl Hl). pose proof (Hpos xh Hh). nra.
Qed.

Lemma get_brightening (db1 db2 : ndarray Q) (zone : ndarray bool) (r c : Z) :
  in_bounds (nrows db2) (ncols db2) r c = true ->
  get 0%Q (S1.brightening db1 db2 zone) r c =
  times_mask (clip_min 0 (get 0 db2 r c - get 0 db1 r c)%Q) (get false zone r c).
Proof.
  intros Hb. unfold S1.brightening, map2, amap. simpl.
  rewrite !get_build by exact Hb. reflexivity.
Qed.

Lemma brightening_positive (db1 db2 : ndarray Q) (zone : ndarray bool) (r c : Z) :
  (0 < get 0 (S1.brightening db1 db2 zone) r c)%Q ->
  get false zone r c = true /\ (get 0 db1 r c < get 0 db2 r c)%Q.
Proof.
  intros Hpos.
  destruct (in_bounds (nrows db2) (ncols db2) r c) eqn:Hb.
  - rewrite get_brightening in Hpos by exact Hb.
    unfold times_mask, clip_min in Hpos.
    destruct (get false zone r c); [| lra].
    split; [reflexivity |].
    destruct (Qlt_bool (get 0 db2 r c - get 0 db1 r c)%Q 0); lra.
  - rewrite get_out in Hpos by exact Hb. lra.
Qed.

Lemma positive_population (b : ndarray Q) (x : Q) :
  In x (select 0%Q b (S1.positive b)) ->
  (0 < x)%Q /\ exists p, in_bounds (nrows b) (ncols b) (fst p) (snd p) = true /\
                         x = getp 0%Q b p.
Proof.
  unfold select. intros H. apply in_map_iff in H. destruct H as [p [<- Hp]].
  apply filter_In in Hp. destruct Hp as [Hin Hpos].
  apply in_indices in Hin. split.
  - unfold getp, S1.positive, amap in Hpos. rewrite get_build in Hpos by exact Hin.
    apply Qlt_bool_iff in Hpos. exact Hpos.
  - exists p. auto.
Qed.

(** X8.  The pixel criterion of a zone (land, line 119-121; water, line
    127-129): its threshold is positive, and a cell reaches the threshold
    only if it lies in the zone and is strictly brighter at time 2. *)
Theorem pixel_criterion_flags_brightened (db1 db2 : ndarray Q)
  (zone : ndarray bool) (q thr : Q) (r c : Z) :
  let bright := S1.brightening db1 db2 zone in
  np_percentile (select 0%Q bright (S1.positive bright)) q = Ok thr ->
  get false (amap (fun x => Qge_bool x thr) 0%Q bright) r c = true ->
  (0 < thr)%Q /\ get false zone r c = true /\ (get 0 db1 r c < get 0 db2 r c)%Q.
Proof.
  intros bright Hthr Hflag.
  assert (Hpos : (0 < thr)%Q).
  { apply (np_percentile_positive (select 0%Q bright (S1.positive bright)) q thr);
      [| exact Hthr].
    intros x Hx. apply positive_population in Hx. apply Hx. }
  split; [exact Hpos |].
  apply brightening_positive. fold bright.
  unfold amap in Hflag. rewrite get_build_cases in Hflag.
  destruct (in_bounds (nrows bright) (ncols bright) r c); [| discriminate].
  unfold Qge_bool in Hflag. apply Qle_bool_iff in Hflag. lra.
Qed.

(** A run of X8: one land cell brightens by 3 dB in a 2x2 pair. *)
Lemma pixel_criterion_flags_brightened_witness :
  let db1 := full 2 2 (-5)%Q in
  let db2 := build 2 2 (fun r c => if (r =? 0) && (c =? 1) then -2 else -5)%Q in
  get false (full 2 2 true) 0 1 = true /\ (get 0 db1 0 1 < get 0 db2 0 1)%Q.
Proof.
  intros db1 db2.
  set (bright := S1.brightening db1 db2 (full 2 2 true)).
  destruct (pixel_criterion_flags_brightened db1 db2 (full 2 2 true)
              S1.PERCENTILE_PIX
              (match np_percentile (select 0%Q bright (S1.positive bright))
                                   S1.PERCENTILE_PIX with
               | Ok t => t
               | Raise _ => 0%Q
               end) 0 1) as [_ H].
  - vm_compute. reflexivity.
  - vm_compute. reflexivity.
  - exact H.
Defined.

(* ================================================================== *)
(** ** The radar detection as a whole *)
(* ================================================================== *)

Lemma mark_shifted_loop (db1 db2 : ndarray Q) (thr : Q) (regs : list region)
  (change : ndarray bool) :
  S1.mark_shifted db1 db2 thr regs change =
  mark_loop (fun reg =>
               Qge_bool (Qabs (mean (map (getp 0%Q db2) (coords reg)) -
                               mean (map (getp 0%Q db1) (coords reg)))) thr)
            regs change.
Proof. reflexivity. Qed.

Lemma Ok_inj {A : Type} (a b : A) : Ok a = Ok b -> a = b.
Proof. intros H. injection H as H. exact H. Qed.

(** What a successful detection is made of: the pixel-level land threshold
    exists, and the final mask is the union of the cleaned object mask (of
    the grid's shape), the cells that reach that threshold, and the water
    mask. *)
Lemma detect_ok_inv (db1 db2 : ndarray Q) (m : ndarray bool) :
  S1.detect db1 db2 = Ok m ->
  exists (thr_pix : Q) (obj water : ndarray bool),
    np_percentile (S1.population_pix db1 db2) S1.PERCENTILE_PIX = Ok thr_pix /\
    shape obj = shape db1 /\
    m = map2 orb false false
          (map2 orb false false obj
             (amap (fun x => Qge_bool x thr_pix) 0%Q
                   (S1.brightening db1 db2 (S1.land_mask_of db1 db2))))
          water.
Proof.
  unfold S1.detect. cbv zeta.
  fold (S1.population_thr1 db1 db2) (S1.population_thr2 db1 db2)
       (S1.population_intensity db1 db2).
  change (select 0%Q (S1.brightening db1 db2 (S1.land_mask_of db1 db2))
            (S1.positive (S1.brightening db1 db2 (S1.land_mask_of db1 db2))))
    with (S1.population_pix db1 db2).
  change (select 0%Q (S1.brightening db1 db2 (S1.water_mask_of db1 db2))
            (S1.positive (S1.brightening db1 db2 (S1.water_mask_of db1 db2))))
    with (S1.population_water db1 db2).
  destruct (np_percentile (S1.population_thr1 db1 db2) S1.PERCENTILE_OBJ)
    as [thr1 |]; [| discriminate].
  destruct (np_percentile (S1.population_thr2 db1 db2) S1.PERCENTILE_OBJ)
    as [thr2 |]; [| discriminate].
  destruct (np_percentile (S1.population_intensity db1 db2) S1.PERCENTILE_OBJ)
    as [thr_int |]; [| discriminate].
  destruct (np_percentile (S1.population_pix db1 db2) S1.PERCENTILE_PIX)
    as [thr_pix |]; [| discriminate].
  destruct (np_percentile (S1.population_water db1 db2) S1.PERCENTILE_WATER)
    as [thr_water |]; [| discriminate].
  intros H. apply Ok_inj in H. subst m.
  exists thr_pix. eexists. eexists.
  split; [reflexivity | split; [| reflexivity]].
  rewrite clean_mask_shape, mark_shifted_loop, mark_loop_shape.
  unfold S1.appearance. rewrite !mark_unmatched_loop, !mark_loop_shape.
  reflexivity.
Qed.

(** X9.  A detection that ends normally returns a mask of the shape of the
    first grid. *)
Theorem detect_mask_shape (db1 db2 : ndarray Q) (m : ndarray bool) :
  S1.detect db1 db2 = Ok m -> shape m = shape db1.
Proof.
  intros H. apply detect_ok_inv in H.
  destruct H as [thr [obj [water [_ [Hs ->]]]]].
  unfold shape in *. simpl. exact Hs.
Qed.

(** X10.  A detection that ends normally never returns an all-zero mask:
    the pixel-level land threshold is an interpolation between positive
    brightenings, so the largest of them reaches it and its cell is set in
    the final mask. *)
Theorem detect_flags_some_cell (db1 db2 : ndarray Q) (m : ndarray bool) :
  shape db1 = shape db2 ->
  S1.detect db1 db2 = Ok m ->
  exists r c, get false m r c = true.
Proof.
  intros Hshape H. apply detect_ok_inv in H.
  destruct H as [thr [obj [water [Hthr [Hs ->]]]]].
  destruct (np_percentile_le_some _ _ _ Hthr) as [x [Hx Hle]].
  unfold S1.population_pix in Hx. cbv zeta in Hx.
  apply positive_population in Hx. destruct Hx as [_ [p [Hb ->]]].
  exists (fst p), (snd p).
  unfold shape in Hs, Hshape. injection Hs as Hr Hc. injection Hshape as Hr' Hc'.
  change (nrows (S1.brightening db1 db2 (S1.land_mask_of db1 db2)))
    with (nrows db2) in Hb.
  change (ncols (S1.brightening db1 db2 (S1.land_mask_of db1 db2)))
    with (ncols db2) in Hb.
  unfold map2 at 1. rewrite get_build by (simpl; congruence).
  unfold map2 at 1. rewrite get_build by congruence.
  unfold amap. rewrite get_build by exact Hb.
  unfold Qge_bool. apply Qle_bool_iff in Hle. unfold getp in Hle. rewrite Hle.
  rewrite orb_true_r. reflexivity.
Qed.

(** A run of X9: a 3x3 pair with a water row that brightens without
    leaving the water range and one land cell that brightens; only the land
    cell is in the final mask. *)
Lemma detect_mask_shape_witness :
  shape (build 3 3 (fun r c => (r =? 1) && (c =? 1))) =
  shape (build 3 3 (fun r c => if r =? 0 then -30 else -5)%Q).
Proof.
  apply (detect_mask_shape
           (build 3 3 (fun r c => if r =? 0 then -30 else -5)%Q)
           (build 3 3 (fun r c => if r =? 0 then -25
                                  else if (r =? 1) && (c =? 1) then -2 else -5)%Q)
           (build 3 3 (fun r c => (r =? 1) && (c =? 1)))).
  vm_compute. reflexivity.
Defined.

(** A run of X10 on the same pair. *)
Lemma detect_flags_some_cell_witness :
  exists r c, get false (build 3 3 (fun r c => (r =? 1) && (c =? 1))) r c = true.
Proof.
  apply (detect_flags_some_cell
           (build 3 3 (fun r c => if r =? 0 then -30 else -5)%Q)
           (build 3 3 (fun r c => if r =? 0 then -25
                                  else if (r =? 1) && (c =? 1) then -2 else -5)%Q)
           (build 3 3 (fun r c => (r =? 1) && (c =? 1)))).
  - reflexivity.
  - vm_compute. reflexivity.
Defined.

(** X11.  The intensity-shift loop only adds cells to the change mask, and
    with a threshold that is not positive (95 % of the land unchanged makes
    it 0) it marks every region it is given, whole, whatever the two means
    are: the comparison is [>=] and a magnitude is never negative. *)
Theorem intensity_shift_marks_all_at_zero (db1 db2 : ndarray Q) (thr : Q)
  (regs : list region) (change : ndarray bool) :
  (thr <= 0)%Q ->
  shape (S1.mark_shifted db1 db2 thr regs change) = shape change /\
  subset change (S1.mark_shifted db1 db2 thr regs change) /\
  (forall reg q, In reg regs -> In q (coords reg) ->
     in_bounds (nrows change) (ncols change) (fst q) (snd q) = true ->
     getp false (S1.mark_shifted db1 db2 thr regs change) q = true).
Proof.
  intros Hthr. rewrite mark_shifted_loop. split; [apply mark_loop_shape | split].
  - intros r c H. apply get_mark_loop. left. exact H.
  - intros reg q Hreg Hq Hb. unfold getp. apply get_mark_loop. right.
    split; [exact Hb |]. exists reg. split; [exact Hreg | split].
    + unfold Qge_bool. apply Qle_bool_iff.
      eapply Qle_trans; [exact Hthr | apply Qabs_nonneg].
    + destruct q. exact Hq.
Qed.

(** A run of X11: one two-cell region whose means do not move. *)
Lemma intensity_shift_marks_all_at_zero_witness :
  getp false
    (S1.mark_shifted (full 2 2 (-5)%Q) (full 2 2 (-5)%Q) 0
       [mk_region 1 [(0, 0); (0, 1)]] (full 2 2 false)) (0, 1) = true.
Proof.
  destruct (intensity_shift_marks_all_at_zero (full 2 2 (-5)%Q) (full 2 2 (-5)%Q) 0
              [mk_region 1 [(0, 0); (0, 1)]] (full 2 2 false))
    as [_ [_ H]]; [discriminate |].
  apply (H (mk_region 1 [(0, 0); (0, 1)]) (0, 1)).
  - left. reflexivity.
  - right. left. reflexivity.
  - reflexivity.
Defined.

(** X12.  The appearance / disappearance loops mark a cell only if it is
    labelled at exactly one of the two times: background cells and cells
    labelled at both times are never marked by them. *)
Theorem appearance_marks_one_sided_cells (labeled1 labeled2 : ndarray nat)
  (db1 : ndarray Q) (q : Z * Z) :
  getp false (S1.appearance labeled1 labeled2 (zeros_like db1)) q = true ->
  (getp 0%nat labeled1 q = 0%nat /\ getp 0%nat labeled2 q <> 0%nat) \/
  (getp 0%nat labeled1 q <> 0%nat /\ getp 0%nat labeled2 q = 0%nat).
Proof.
  unfold S1.appearance, getp. rewrite !mark_unmatched_loop, !get_mark_loop.
  rewrite get_zeros_like.
  assert (Hside : forall mine other reg,
            In reg (regionprops mine) -> S1.unmatched other reg = true ->
            In (fst q, snd q) (coords reg) ->
            getp 0%nat other q = 0%nat /\ getp 0%nat mine q <> 0%nat).
  { intros mine other reg Hreg Hun Hq.
    rewrite unmatched_iff in Hun. specialize (Hun _ Hq).
    apply in_regionprops in Hreg. destruct Hreg as [Hl [Hco _]].
    rewrite Hco in Hq. apply in_coords_of in Hq.
    destruct q. simpl in *. unfold getp in *. simpl in *. split; [exact Hun | lia]. }
  intros [[H | [_ [reg [Hreg [Hun Hq]]]]] | [_ [reg [Hreg [Hun Hq]]]]].
  - discriminate.
  - left. exact (Hside labeled2 labeled1 reg Hreg Hun Hq).
  - right. destruct (Hside labeled1 labeled2 reg Hreg Hun Hq). auto.
Qed.

(** A run of X12: a block seen only at time 2. *)
Lemma appearance_marks_one_sided_cells_witness :
  let labeled1 := label (full 3 3 false) in
  let labeled2 := label (build 3 3 (fun r c => (r <=? 1) && (c <=? 1))) in
  (getp 0%nat labeled1 (0, 0) = 0%nat /\ getp 0%nat labeled2 (0, 0) <> 0%nat) \/
  (getp 0%nat labeled1 (0, 0) <> 0%nat /\ getp 0%nat labeled2 (0, 0) = 0%nat).
Proof.
  intros labeled1 labeled2.
  apply (appearance_marks_one_sided_cells labeled1 labeled2 (full 3 3 0%Q) (0, 0)).
  vm_compute. reflexivity.
Defined.

(** X13.  A run of the radar script whose detection ends normally returns
    normally itself.  Its effects are, in this order: the output folder,
    the figure, the mask raster (written with the profile of the second
    raster), then either the "no change" line or the polygon file with its
    report, and the two closing lines. *)
Theorem radar_run_after_detection (log10 : Q -> Q) (shapes : tracer)
  (out : string) (img1 img2 : ndarray Q) (prof1 prof2 : Profile)
  (m : ndarray bool) :
  shape img1 = shape img2 ->
  S1.detect (S1.despeckle (S1.to_db log10 img1))
            (S1.despeckle (S1.to_db log10 img2)) = Ok m ->
  exists vector_step : list event,
    run (S1.main log10 shapes out (img1, prof1) (img2, prof2)) =
      ([MakeDirs out;
        FigureSaved (path_join out "change_visualization.png");
        RasterWritten (path_join out "change_mask.tif") m prof2]
       ++ vector_step ++
       [Printed (String (Ascii.ascii_of_nat 10) "Change detection completed successfully.");
        Printed ("Output folder: " ++ out)], Ok tt) /\
    (vector_step = [Printed "No change polygons detected."] \/
     exists polygons,
       polygons <> [] /\
       vector_step =
         [VectorWritten (path_join out "change_polygons.geojson") polygons (crs prof2);
          Printed ("GeoJSON saved: " ++ path_join out "change_polygons.geojson")]).
Proof.
  intros Hshape Hdet.
  unfold run, S1.main, bind, emit, raise, lift, print, emit, S1.save_mask.
  apply shape_eqb_iff in Hshape. rewrite Hshape. simpl negb. cbv iota.
  rewrite Hdet. cbv beta iota.
  unfold S1.mask_to_geojson. cbv zeta.
  destruct (filter _ (map fst _)) as [| p0 ps].
  - exists [Printed "No change polygons detected."].
    split; [reflexivity | left; reflexivity].
  - exists [VectorWritten (path_join out "change_polygons.geojson") (p0 :: ps) (crs prof2);
            Printed ("GeoJSON saved: " ++ path_join out "change_polygons.geojson")].
    split.
    + unfold bind, print, emit. reflexivity.
    + right. exists (p0 :: ps). split; [discriminate | reflexivity].
Qed.

(** A run of X13: a 6x3 pair, water in the upper half (samples 0.0001 then
    0.001) and land below (samples 1, one of them 10 at time 2), with a
    tracer that finds nothing; the step function is the decimal logarithm
    on these four samples. *)
Lemma radar_run_after_detection_witness :
  let img1 := build 6 3 (fun r c => if r <=? 2 then 1 # 10000 else 1)%Q in
  let img2 := build 6 3 (fun r c => if r <=? 2 then 1 # 1000
                                     else if (r =? 4) && (c =? 1) then 10 else 1)%Q in
  let log10 := (fun x => if Qle_bool 10 x then 1
                         else if Qle_bool 1 x then 0
                         else if Qle_bool (1 # 1000) x then -3 else -4)%Q in
  snd (run (S1.main log10 (fun _ _ _ => []) "out"
              (img1, mk_profile (mk_affine 10 0 0 0 (-10) 0) "EPSG:32633")
              (img2, mk_profile (mk_affine 10 0 0 0 (-10) 0) "EPSG:32633"))) = Ok tt.
Proof.
  intros img1 img2 log10.
  destruct (radar_run_after_detection log10 (fun _ _ _ => []) "out"
              img1 img2
              (mk_profile (mk_affine 10 0 0 0 (-10) 0) "EPSG:32633")
              (mk_profile (mk_affine 10 0 0 0 (-10) 0) "EPSG:32633")
              (build 6 3 (fun r c => r =? 2))) as [step [E _]].
  - reflexivity.
  - vm_compute. reflexivity.
  - rewrite E. reflexivity.
Defined.

(* ================================================================== *)
(** ** The optical path: area filter, small grids, normal runs *)
(* ================================================================== *)

Section KeepLoop.
Variable labeled : ndarray nat.
Variable test : region -> bool.

Lemma keep_loop_shape (regs : list region) :
  forall acc,
    shape (fold_left
             (fun final_mask reg =>
                if test reg
                then build (nrows final_mask) (ncols final_mask)
                       (fun r c => if Nat.eqb (get 0%nat labeled r c) (region_label reg)
                                   then true else get false final_mask r c)
                else final_mask) regs acc) = shape acc.
Proof.
  induction regs as [| reg regs IH]; intros acc; simpl.
  - reflexivity.
  - destruct (test reg); rewrite IH; reflexivity.
Qed.

Lemma get_keep_loop (regs : list region) :
  forall acc r c,
    get false (fold_left
                 (fun final_mask reg =>
                    if test reg
                    then build (nrows final_mask) (ncols final_mask)
                           (fun r c => if Nat.eqb (get 0%nat labeled r c) (region_label reg)
                                       then true else get false final_mask r c)
                    else final_mask) regs acc) r c = true <->
    get false acc r c = true \/
    (in_bounds (nrows acc) (ncols acc) r c = true /\
     exists reg, In reg regs /\ test reg = true /\
                 get 0%nat labeled r c = region_label reg).
Proof.
  induction regs as [| reg regs IH]; intros acc r c; simpl.
  - split; [auto | intros [H | [_ [reg [[] _]]]]; exact H].
  - destruct (test reg) eqn:Et.
    + rewrite IH, get_build_cases. simpl. split.
      * intros [H | [Hb [reg' [Hin [Ht Hl]]]]].
        -- destruct (in_bounds (nrows acc) (ncols acc) r c) eqn:Hb; [| discriminate].
           destruct (Nat.eqb (get 0%nat labeled r c) (region_label reg)) eqn:El.
           ++ right. split; [reflexivity |]. exists reg.
              apply Nat.eqb_eq in El. auto.
           ++ left. exact H.
        -- right. split; [exact Hb |]. exists reg'. auto.
      * intros [H | [Hb [reg' [[-> | Hin] [Ht Hl]]]]].
        -- left. rewrite (get_true_in_bounds acc r c H), H.
           destruct (Nat.eqb _ _); reflexivity.
        -- left. rewrite Hb, Hl, Nat.eqb_refl. reflexivity.
        -- right. split; [exact Hb |]. exists reg'. auto.
    + rewrite IH. split.
      * intros [H | [Hb [reg' [Hin [Ht Hl]]]]]; [auto |].
        right. split; [exact Hb |]. exists reg'. auto.
      * intros [H | [Hb [reg' [[-> | Hin] [Ht Hl]]]]]; [auto | congruence |].
        right. split; [exact Hb |]. exists reg'. auto.
Qed.

End KeepLoop.

(** X14.  The area filter of the optical script keeps a cell exactly when
    it is labelled and the number of cells carrying its label lies between
    [MIN_SHIP_AREA] and [MAX_SHIP_AREA]: a component is kept or dropped
    whole, and the result has the shape of the label image. *)
Theorem keep_ships_by_area (labeled : ndarray nat) (r c : Z) :
  shape (S2.keep_ships labeled) = shape labeled /\
  (get false (S2.keep_ships labeled) r c = true <->
   get 0%nat labeled r c <> 0%nat /\
   (S2.MIN_SHIP_AREA <= length (coords_of labeled (get 0%nat labeled r c))
                     <= S2.MAX_SHIP_AREA)%nat).
Proof.
  unfold S2.keep_ships. split.
  - rewrite keep_loop_shape. reflexivity.
  - rewrite get_keep_loop. unfold full at 1. rewrite get_build_cases.
    change (nrows (full (nrows labeled) (ncols labeled) false)) with (nrows labeled).
    change (ncols (full (nrows labeled) (ncols labeled) false)) with (ncols labeled).
    split.
    + intros [H | [Hb [reg [Hin [Ht Hl]]]]].
      * destruct (in_bounds _ _ r c); discriminate.
      * apply in_regionprops in Hin. destruct Hin as [Hlab [Hco _]].
        apply andb_true_iff in Ht. destruct Ht as [H1 H2].
        apply Nat.leb_le in H1. apply Nat.leb_le in H2.
        unfold area in H1, H2. rewrite Hco in H1, H2. rewrite Hl.
        repeat split; [lia | exact H1 | exact H2].
    + intros [Hl [H1 H2]]. right.
      assert (Hb : in_bounds (nrows labeled) (ncols labeled) r c = true).
      { destruct (in_bounds (nrows labeled) (ncols labeled) r c) eqn:E;
          [reflexivity |].
        exfalso. apply Hl. apply get_out. exact E. }
      split; [exact Hb |].
      exists (mk_region (get 0%nat labeled r c)
                        (coords_of labeled (get 0%nat labeled r c))).
      split; [| split].
      * apply (regionprops_complete labeled (r, c)); assumption.
      * unfold area. cbn [coords]. apply andb_true_iff.
        split; apply Nat.leb_le; assumption.
      * reflexivity.
Qed.

Lemma length_pixel_vectors (h w : nat) (d : S2.stack) :
  length (S2.pixel_vectors h w d) = (h * w)%nat.
Proof. unfold S2.pixel_vectors. rewrite length_map. apply length_indices. Qed.

Lemma optical_main_stops_with_detect (first_axis : list (list Q) -> list Q)
  (shapes : tracer) (out : string) (pre post : S2.stack)
  (profile profile' : Profile) (e : exn) :
  S2.detect first_axis pre post = Raise e ->
  run (S2.main first_axis shapes out (pre, profile) (post, profile')) =
    ([MakeDirs out], Raise e).
Proof.
  intros H. unfold run, S2.main, bind, emit, lift. rewrite H. reflexivity.
Qed.

(** X15.  On a grid of fewer than four cells the optical script cannot fit
    its four components: the detection raises a [ValueError] and the run
    stops with it, having made the output folder and written nothing. *)
Theorem optical_small_grid_raises (first_axis : list (list Q) -> list Q)
  (shapes : tracer) (out : string) (pre post : S2.stack)
  (profile profile' : Profile) :
  S2.stack_shape post = S2.stack_shape pre ->
  (fst (S2.stack_shape pre) * snd (S2.stack_shape pre) < 4)%nat ->
  exists msg,
    S2.detect first_axis pre post = Raise (ValueError msg) /\
    run (S2.main first_axis shapes out (pre, profile) (post, profile')) =
      ([MakeDirs out], Raise (ValueError msg)).
Proof.
  intros Hshape Hn.
  assert (Hdet : exists msg, S2.detect first_axis pre post = Raise (ValueError msg)).
  { unfold S2.detect. rewrite Hshape.
    destruct (S2.stack_shape pre) as [h w]. simpl in Hn.
    assert (Hs : shape_eqb (h, w) (h, w) = true)
      by (apply shape_eqb_iff; reflexivity).
    rewrite Hs. simpl negb. cbv iota.
    unfold S2.pca_first_scores. rewrite length_pixel_vectors.
    destruct (Nat.eqb (h * w) 0); [eexists; reflexivity |].
    destruct (h * w <? 4)%nat eqn:E; [eexists; reflexivity |].
    apply Nat.ltb_ge in E. lia. }
  destruct Hdet as [msg Hdet]. exists msg. split; [exact Hdet |].
  apply optical_main_stops_with_detect. exact Hdet.
Qed.

(** A run of X15: two stacks of 1x3 bands. *)
Lemma optical_small_grid_raises_witness :
  exists msg,
    S2.detect (fun _ => [1; 0; 0; 0]%Q)
      (S2.mk_stack (full 1 3 1%Q) (full 1 3 1%Q) (full 1 3 1%Q) (full 1 3 1%Q))
      (S2.mk_stack (full 1 3 2%Q) (full 1 3 1%Q) (full 1 3 1%Q) (full 1 3 1%Q))
    = Raise (ValueError msg).
Proof.
  destruct (optical_small_grid_raises (fun _ => [1; 0; 0; 0]%Q) (fun _ _ _ => []) "out"
              (S2.mk_stack (full 1 3 1%Q) (full 1 3 1%Q) (full 1 3 1%Q) (full 1 3 1%Q))
              (S2.mk_stack (full 1 3 2%Q) (full 1 3 1%Q) (full 1 3 1%Q) (full 1 3 1%Q))
              (mk_profile (mk_affine 10 0 0 0 (-10) 0) "EPSG:32633")
              (mk_profile (mk_affine 10 0 0 0 (-10) 0) "EPSG:32633"))
    as [msg [H _]].
  - reflexivity.
  - simpl. lia.
  - exists msg. exact H.
Defined.

Lemma iter_erosion_shape (s : structure) (n : nat) (m : ndarray bool) :
  shape (Nat.iter n (binary_erosion1 s) m) = shape m.
Proof. induction n as [| n IH]; simpl; [reflexivity | rewrite <- IH; reflexivity]. Qed.

Lemma iter_dilation_shape (s : structure) (n : nat) (m : ndarray bool) :
  shape (Nat.iter n (binary_dilation1 s) m) = shape m.
Proof. induction n as [| n IH]; simpl; [reflexivity | rewrite <- IH; reflexivity]. Qed.

Lemma mask_of_scores_ok (pc1 : ndarray Q) :
  (1 <= nrows pc1 * ncols pc1)%nat ->
  exists m, S2.mask_of_scores pc1 = Ok m /\ shape m = shape pc1.
Proof.
  intros Hn. unfold S2.mask_of_scores.
  destruct (np_percentile_cases (S2.flatten (amap Qabs 0%Q pc1)) 95%Q)
    as [[Hnil _] | [_ [t ->]]].
  - exfalso. apply (f_equal (@length Q)) in Hnil.
    unfold S2.flatten in Hnil. rewrite length_map, length_indices in Hnil.
    simpl in Hnil. lia.
  - eexists. split; [reflexivity |].
    unfold S2.keep_ships. rewrite keep_loop_shape.
    change (shape (full ?h ?w false)) with (h, w).
    fold (shape (label (binary_closing
            (binary_opening (amap (fun x => Qgt_bool x t) 0%Q (amap Qabs 0%Q pc1))
               (generate_binary_structure 1) 1) (generate_binary_structure 1) 2))).
    rewrite label_shape.
    unfold binary_closing, binary_opening, binary_erosion, binary_dilation.
    rewrite !iter_erosion_shape, !iter_dilation_shape. reflexivity.
Qed.

(** X16.  With stacks of one shape and at least four cells the optical
    detection always returns a mask, of the shape of the bands (its
    percentile is taken over the whole grid, never over an empty
    selection), and the run ends normally after writing that mask with the
    profile of the pre-event stack. *)
Theorem optical_run_on_valid_grid (first_axis : list (list Q) -> list Q)
  (shapes : tracer) (out : string) (pre post : S2.stack)
  (profile profile' : Profile) :
  S2.stack_shape post = S2.stack_shape pre ->
  (4 <= fst (S2.stack_shape pre) * snd (S2.stack_shape pre))%nat ->
  exists m,
    S2.detect first_axis pre post = Ok m /\
    shape m = S2.stack_shape pre /\
    snd (run (S2.main first_axis shapes out (pre, profile) (post, profile'))) = Ok tt /\
    In (RasterWritten (path_join out "change_mask.tif") m profile)
       (fst (run (S2.main first_axis shapes out (pre, profile) (post, profile')))).
Proof.
  intros Hshape Hn.
  assert (Hdet : exists m, S2.detect first_axis pre post = Ok m /\
                           shape m = S2.stack_shape pre).
  { unfold S2.detect. rewrite Hshape.
    destruct (S2.stack_shape pre) as [h w]. simpl in Hn.
    assert (Hs : shape_eqb (h, w) (h, w) = true)
      by (apply shape_eqb_iff; reflexivity).
    rewrite Hs. simpl negb. cbv iota.
    unfold S2.pca_first_scores. rewrite length_pixel_vectors.
    destruct (Nat.eqb (h * w) 0) eqn:E0; [apply Nat.eqb_eq in E0; lia |].
    destruct (h * w <? 4)%nat eqn:E4; [apply Nat.ltb_lt in E4; lia |].
    apply (mask_of_scores_ok (S2.reshape h w _)). simpl. lia. }
  destruct Hdet as [m [Hdet Hm]]. exists m.
  split; [exact Hdet | split; [exact Hm |]].
  unfold run, S2.main, bind, lift, emit.
  rewrite Hdet. cbv beta iota zeta.
  unfold S2.save_mask_georef, print, emit.
  destruct (S2.mask_to_geojson_georef shapes m profile _ 1 _) as [w' r] eqn:Eg.
  revert Eg. unfold S2.mask_to_geojson_georef. cbv zeta.
  destruct (Nat.eqb _ 0); unfold bind, print, emit; simpl;
    intros Eg; apply pair_equal_spec in Eg; destruct Eg as [<- <-];
    split; try reflexivity; simpl; auto 10.
Qed.

(** A run of X16: 2x2 bands of which the first changes. *)
Lemma optical_run_on_valid_grid_witness :
  exists m,
    S2.detect (fun _ => [1; 0; 0; 0]%Q)
      (S2.mk_stack (full 2 2 1%Q) (full 2 2 1%Q) (full 2 2 1%Q) (full 2 2 1%Q))
      (S2.mk_stack (build 2 2 (fun r c => if r =? c then 3 else 1)%Q)
                   (full 2 2 1%Q) (full 2 2 1%Q) (full 2 2 1%Q))
    = Ok m /\ shape m = (2%nat, 2%nat).
Proof.
  destruct (optical_run_on_valid_grid (fun _ => [1; 0; 0; 0]%Q) (fun _ _ _ => []) "out"
              (S2.mk_stack (full 2 2 1%Q) (full 2 2 1%Q) (full 2 2 1%Q) (full 2 2 1%Q))
              (S2.mk_stack (build 2 2 (fun r c => if r =? c then 3 else 1)%Q)
                           (full 2 2 1%Q) (full 2 2 1%Q) (full 2 2 1%Q))
              (mk_profile (mk_affine 10 0 0 0 (-10) 0) "EPSG:32633")
              (mk_profile (mk_affine 10 0 0 0 (-10) 0) "EPSG:32633"))
    as [m [H [Hs _]]].
  - reflexivity.
  - simpl. lia.
  - exists m. split; [exact H | exact Hs].
Defined.

(* ================================================================== *)
(** ** Labels are the 8-connected components *)
(* ================================================================== *)

Lemma touches_sym (p q : Z * Z) : touches p q -> touches q p.
Proof.
  intros [o [Ho ->]]. exists (- fst o, - snd o). split.
  - apply offsets3x3_opp, Ho.
  - destruct p as [a b]. simpl. f_equal; lia.
Qed.

Section Connectivity.
Variable x : ndarray bool.

Lemma connected_left (p q : Z * Z) : connected x p q -> getp false x p = true.
Proof. induction 1; assumption. Qed.

Lemma connected_right (p q : Z * Z) : connected x p q -> getp false x q = true.
Proof. destruct 1; assumption. Qed.

Lemma connected_trans (p q r : Z * Z) :
  connected x p q -> connected x q r -> connected x p r.
Proof.
  intros Hpq Hqr. induction Hqr as [q Hq | q s r Hqs IH Hr Ht].
  - exact Hpq.
  - apply (connected_step x p s r); auto.
Qed.

Lemma connected_sym (p q : Z * Z) : connected x p q -> connected x q p.
Proof.
  induction 1 as [p Hp | p q r Hpq IH Hr Ht].
  - apply connected_refl. exact Hp.
  - apply (connected_trans r q p); [| exact IH].
    apply (connected_step x r r q).
    + apply connected_refl. exact Hr.
    + exact (connected_right _ _ Hpq).
    + apply touches_sym. exact Ht.
Qed.

Lemma chain_sound (p : Z * Z) (n : nat) :
  forall r c, get false (flood_chain x p n) r c = true -> connected x p (r, c).
Proof.
  induction n as [| n IH]; intros r c H.
  - unfold flood_chain in H. simpl in H. rewrite get_seed in H.
    apply andb_true_iff in H. destruct H as [He Hx].
    apply pix_eqb_eq in He. subst p. apply connected_refl. exact Hx.
  - rewrite chain_succ, get_grow in H. apply andb_true_iff in H.
    destruct H as [Hx He]. apply existsb_exists in He.
    destruct He as [o [Ho Hs]].
    apply (connected_step x p (r + fst o, c + snd o) (r, c)).
    + apply IH. exact Hs.
    + exact Hx.
    + apply touches_sym. exists o. split; [exact Ho | reflexivity].
Qed.

Lemma flood_connected (p q : Z * Z) :
  getp false (flood x p) q = true <-> connected x p q.
Proof.
  split.
  - intros H. destruct q as [r c]. exact (chain_sound p _ r c H).
  - induction 1 as [p Hp | p q r Hpq IH Hr Ht].
    + apply flood_has_seed. exact Hp.
    + apply touches_sym in Ht. destruct Ht as [o [Ho ->]].
      unfold getp in *. apply (flood_closed x p _ _ o Ho Hr). exact IH.
Qed.

(** What the raster scan keeps true besides [label_inv]: labels stay below
    the next one to give, and cells of one label are connected. *)
Lemma label_scan_components (ps : list (Z * Z)) :
  forall lab next,
    label_inv x lab ->
    (forall q, (getp 0%nat lab q < next)%nat) ->
    (forall q q', getp 0%nat lab q <> 0%nat ->
                  getp 0%nat lab q = getp 0%nat lab q' -> connected x q q') ->
    forall q q', getp 0%nat (label_scan x ps lab next) q <> 0%nat ->
                 getp 0%nat (label_scan x ps lab next) q =
                 getp 0%nat (label_scan x ps lab next) q' ->
                 connected x q q'.
Proof.
  induction ps as [| p ps IH]; intros lab next Hinv Hlt Hconn; simpl.
  - exact Hconn.
  - destruct (getp false x p && Nat.eqb (getp 0%nat lab p) 0) eqn:E.
    + assert (Hget : forall q, getp 0%nat (paint lab (flood x p) next) q =
                if in_bounds (nrows lab) (ncols lab) (fst q) (snd q)
                then (if getp false (flood x p) q then next else getp 0%nat lab q)
                else 0%nat).
      { intros q. unfold getp. apply get_paint. }
      apply IH.
      * apply paint_inv, Hinv.
      * intros q. rewrite Hget. specialize (Hlt q).
        destruct (in_bounds _ _ _ _); [| lia].
        destruct (getp false (flood x p) q); lia.
      * intros q q' Hq Heq. rewrite !Hget in Heq. rewrite Hget in Hq.
        pose proof (Hlt q) as Hltq. pose proof (Hlt q') as Hltq'.
        destruct (in_bounds (nrows lab) (ncols lab) (fst q) (snd q));
          [| congruence].
        destruct (getp false (flood x p) q) eqn:Fq.
        -- destruct (in_bounds (nrows lab) (ncols lab) (fst q') (snd q'));
             [| congruence].
           destruct (getp false (flood x p) q') eqn:Fq'; [| lia].
           apply flood_connected in Fq. apply flood_connected in Fq'.
           apply (connected_trans q p q'); [apply connected_sym, Fq | exact Fq'].
        -- destruct (in_bounds (nrows lab) (ncols lab) (fst q') (snd q'));
             [| congruence].
           destruct (getp false (flood x p) q') eqn:Fq'; [lia |].
           apply Hconn; assumption.
    + apply IH; assumption.
Qed.

Lemma label_constant_on_component (p q : Z * Z) :
  connected x p q -> getp 0%nat (label x) p = getp 0%nat (label x) q.
Proof.
  induction 1 as [p Hp | p q r Hpq IH Hr Ht].
  - reflexivity.
  - rewrite IH. destruct Ht as [o [Ho ->]]. unfold getp. simpl.
    apply label_touch; [exact Ho | exact (connected_right _ _ Hpq) | exact Hr].
Qed.

End Connectivity.

(** X17.  [label] numbers the 8-connected components of the mask: a cell is
    labelled (non-zero) exactly when it is set, and two set cells carry the
    same label exactly when a chain of touching set cells joins them. *)
Theorem label_components (x : ndarray bool) (p q : Z * Z) :
  (getp 0%nat (label x) p <> 0%nat <-> getp false x p = true) /\
  (getp false x p = true -> getp false x q = true ->
   (getp 0%nat (label x) p = getp 0%nat (label x) q <-> connected x p q)).
Proof.
  split.
  - split; [apply label_in_mask | apply label_of_mask].
  - intros Hp Hq. split.
    + intros Heq. unfold label in *.
      apply (label_scan_components x (indices (nrows x) (ncols x))
               (full (nrows x) (ncols x) 0%nat) 1).
      * apply full_inv.
      * intros q0. unfold getp, full. rewrite get_build_cases.
        destruct (in_bounds _ _ _ _); lia.
      * intros q0 q0' H0. exfalso. apply H0. unfold getp, full.
        rewrite get_build_cases. destruct (in_bounds _ _ _ _); reflexivity.
      * apply (label_of_mask x (fst p) (snd p)). exact Hp.
      * exact Heq.
    + apply label_constant_on_component.
Qed.

(** A run of X17: in the mask with two opposite corners set on a 3x3 grid
    the corners carry different labels, so no chain joins them. *)
Lemma label_components_witness :
  let x := build 3 3 (fun r c => ((r =? 0) && (c =? 0)) || ((r =? 2) && (c =? 2))) in
  ~ connected x (0, 0) (2, 2).
Proof.
  intros x Hc.
  destruct (label_components x (0, 0) (2, 2)) as [_ H].
  apply H in Hc; [| reflexivity | reflexivity].
  vm_compute in Hc. discriminate.
Defined.

(** X18.  The regions [regionprops] reports partition the labelled cells:
    each has a label of at least 1 and at least one cell, all its cells
    carry its label, and a labelled cell of the image lies in exactly one
    region. *)
Theorem regionprops_partition (lab : ndarray nat) :
  (forall reg, In reg (regionprops lab) ->
     (1 <= region_label reg)%nat /\ (1 <= area reg)%nat /\
     forall q, In q (coords reg) <->
               in_bounds (nrows lab) (ncols lab) (fst q) (snd q) = true /\
               getp 0%nat lab q = region_label reg) /\
  (forall q, in_bounds (nrows lab) (ncols lab) (fst q) (snd q) = true ->
             getp 0%nat lab q <> 0%nat ->
             exists reg, In reg (regionprops lab) /\ In q (coords reg)) /\
  (forall reg reg' q, In reg (regionprops lab) -> In reg' (regionprops lab) ->
                      In q (coords reg) -> In q (coords reg') -> reg = reg').
Proof.
  split; [| split].
  - intros reg Hreg. apply in_regionprops in Hreg.
    destruct Hreg as [Hl [Hco Hne]]. split; [exact Hl | split].
    + unfold area. destruct (coords reg); [congruence | simpl; lia].
    + intros q. rewrite Hco. apply in_coords_of.
  - intros q Hb Hl. eexists. split.
    + apply (regionprops_complete lab q Hb Hl).
    + simpl. apply in_coords_of. auto.
  - intros reg reg' q Hreg Hreg' Hq Hq'.
    apply in_regionprops in Hreg. apply in_regionprops in Hreg'.
    destruct Hreg as [_ [Hco _]]. destruct Hreg' as [_ [Hco' _]].
    rewrite Hco in Hq. rewrite Hco' in Hq'.
    apply in_coords_of in Hq. apply in_coords_of in Hq'.
    destruct reg as [l cs], reg' as [l' cs']. simpl in *.
    assert (l = l') by (destruct Hq, Hq'; congruence). subst l'.
    congruence.
Qed.

(* ================================================================== *)
(** ** The Morphological Cleaner away from the border *)
(* ================================================================== *)

(** Why a second pass changes nothing when no set cell lies on the border.
    The opened mask is a union of 3x3 squares; with their centres [E], the
    opened-closed mask keeps the cells whose 3x3 neighbourhood is covered by
    the 5x5 windows of the centres ([kept E]).  Around a kept cell, every
    neighbour lies in a covered 5x5 window whose 3x3 core is connected to the
    cell ([core_near], found by a finite search over the centres that cover
    the neighbourhood): the core belongs to the component of the cell, so it
    survives the area filter and is a 3x3 square of the cleaned mask, which
    is therefore kept whole by its own opening-closing.  The components do
    not shrink, so the area filter drops none of them either. *)

Lemma any_true {A : Type} (f : A -> bool) (l : list A) :
  any_of f l = true <-> exists a, In a l /\ f a = true.
Proof.
  induction l as [| a l IH]; simpl.
  - split; [discriminate | intros [a [[] _]]].
  - destruct (f a) eqn:Ea.
    + split; [intros _; exists a; auto | reflexivity].
    + rewrite IH. split.
      * intros [b [Hb Hf]]. exists b. auto.
      * intros [b [[<- | Hb] Hf]]; [congruence | exists b; auto].
Qed.

Lemma all_true {A : Type} (f : A -> bool) (l : list A) :
  all_of f l = true <-> forall a, In a l -> f a = true.
Proof.
  induction l as [| a l IH]; simpl.
  - split; [intros _ a [] | reflexivity].
  - destruct (f a) eqn:Ea.
    + rewrite IH. split.
      * intros H b [<- | Hb]; auto.
      * intros H b Hb. apply H. auto.
    + split; [discriminate | intros H]. rewrite <- Ea. apply H. auto.
Qed.

Lemma In_offsets3x3 (o : Z * Z) :
  -1 <= fst o <= 1 -> -1 <= snd o <= 1 -> In o offsets3x3.
Proof.
  destruct o as [a b]. simpl. intros Ha Hb.
  assert (Ha' : a = -1 \/ a = 0 \/ a = 1) by lia.
  assert (Hb' : b = -1 \/ b = 0 \/ b = 1) by lia.
  destruct Ha' as [-> | [-> | ->]], Hb' as [-> | [-> | ->]]; auto 10.
Qed.

Lemma In_offsets5x5 (d : Z * Z) :
  In d offsets5x5 <-> -2 <= fst d <= 2 /\ -2 <= snd d <= 2.
Proof.
  split.
  - intros H. unfold offsets5x5 in H. apply in_flat_map in H.
    destruct H as [a [Ha Hd]]. apply in_map_iff in Hd.
    destruct Hd as [b [<- Hb]]. simpl in *. lia.
  - destruct d as [a b]. cbn [fst snd]. intros [Ha Hb].
    unfold offsets5x5. apply in_flat_map. exists a. split.
    + simpl. lia.
    + apply in_map_iff. exists b. split; [reflexivity | simpl; lia].
Qed.

Lemma padd_assoc (p q r : Z * Z) : padd (padd p q) r = padd p (padd q r).
Proof. unfold padd. simpl. f_equal; lia. Qed.

Lemma padd_0_r (p : Z * Z) : padd p (0, 0) = p.
Proof. destruct p. unfold padd. simpl. f_equal; lia. Qed.

Lemma offsets5x5_sum (o1 o2 : Z * Z) :
  In o1 offsets3x3 -> In o2 offsets3x3 -> In (padd o1 o2) offsets5x5.
Proof.
  intros H1 H2. apply offsets3x3_range in H1. apply offsets3x3_range in H2.
  apply In_offsets5x5. unfold padd. simpl. lia.
Qed.

Lemma kept_spec (E : Z * Z -> bool) (p : Z * Z) :
  kept E p = true <->
  forall o, In o offsets3x3 -> covered E (padd p o) = true.
Proof. unfold kept. apply forallb_forall. Qed.

Lemma covered_spec (E : Z * Z -> bool) (p : Z * Z) :
  covered E p = true <-> exists d, In d offsets5x5 /\ E (padd p d) = true.
Proof. unfold covered. apply existsb_exists. Qed.

Lemma link1 (a : Z) :
  -2 <= a <= 2 -> exists u v, -1 <= u <= 1 /\ -1 <= v <= 1 /\ u = a + v.
Proof.
  intros Ha. destruct (Z_le_gt_dec a (-1)) as [H | H].
  - exists (-1), (-1 - a). lia.
  - destruct (Z_le_gt_dec 1 a) as [H' | H'].
    + exists 1, (1 - a). lia.
    + exists 0, 0. lia.
Qed.

Lemma within_link (q g : Z * Z) :
  within 2 q g = true ->
  exists o1 o2, In o1 offsets3x3 /\ In o2 offsets3x3 /\ padd q o1 = padd g o2.
Proof.
  unfold within. rewrite andb_true_iff, !Z.leb_le. intros [H1 H2].
  destruct (link1 (fst g - fst q)) as [u1 [v1 [Hu1 [Hv1 E1]]]]; [lia |].
  destruct (link1 (snd g - snd q)) as [u2 [v2 [Hu2 [Hv2 E2]]]]; [lia |].
  exists (u1, u2), (v1, v2). split; [| split].
  - apply In_offsets3x3; simpl; lia.
  - apply In_offsets3x3; simpl; lia.
  - unfold padd. simpl. f_equal; lia.
Qed.

Section LocalSearch.
Variable E : Z * Z -> bool.
Variable x : Z * Z.
Hypothesis x_kept : kept E x = true.

Section Known.
Variable known : list (Z * Z).
Hypothesis known_centres : forall s, In s known -> E (padd x s) = true.

Lemma covered_known_sound (w : Z * Z) :
  covered_known known w = true -> covered E (padd x w) = true.
Proof.
  unfold covered_known. destruct (within 1 w (0, 0)) eqn:E1.
  - intros _. apply (proj1 (kept_spec E x) x_kept).
    unfold within in E1. apply andb_true_iff in E1.
    rewrite !Z.leb_le in E1. cbn [fst snd] in E1. apply In_offsets3x3; lia.
  - intros H. apply any_true in H. destruct H as [s [Hs Hw]].
    apply covered_spec. exists (fst s - fst w, snd s - snd w). split.
    + unfold within in Hw. apply andb_true_iff in Hw. rewrite !Z.leb_le in Hw.
      apply In_offsets5x5. simpl. lia.
    + replace (padd (padd x w) (fst s - fst w, snd s - snd w)) with (padd x s).
      * apply known_centres, Hs.
      * destruct s, w, x. unfold padd. simpl. f_equal; lia.
Qed.

Lemma kept_known_sound (q : Z * Z) :
  kept_known known q = true -> kept E (padd x q) = true.
Proof.
  unfold kept_known. rewrite all_true, kept_spec. intros H o Ho.
  rewrite padd_assoc. apply covered_known_sound, H, Ho.
Qed.

Lemma core_found_sound (y : Z * Z) :
  core_found known y = true -> core_near E x y.
Proof.
  unfold core_found. rewrite any_true. intros [d [Hd H]]. cbv zeta in H.
  destruct (any_of _ offsets3x3) eqn:Hq in H; [| discriminate].
  apply any_true in Hq. destruct Hq as [oq [Hoq Hk]].
  destruct (within 2 oq (padd y d)) eqn:Hw; [| discriminate].
  destruct (within_link _ _ Hw) as [o1 [o2 [Ho1 [Ho2 Hq]]]].
  rewrite all_true in H.
  exists d, oq, o1, o2. repeat split; try assumption.
  - apply kept_known_sound, Hk.
  - intros d' Hd'. rewrite padd_assoc. apply covered_known_sound, H, Hd'.
Qed.

End Known.

Lemma core_search_sound (fuel : nat) :
  forall known y,
    (forall s, In s known -> E (padd x s) = true) ->
    In y offsets3x3 ->
    core_search fuel known y = true -> core_near E x y.
Proof.
  induction fuel as [| fuel IH]; intros known y Hknown Hy H;
    cbn [core_search] in H.
  - discriminate.
  - destruct (core_found known y) eqn:Hf.
    + apply (core_found_sound known Hknown y Hf).
    + destruct (first_uncovered known (y :: offsets3x3)) as [yp |] eqn:Hu;
        [| discriminate].
      unfold first_uncovered in Hu. apply find_some in Hu.
      destruct Hu as [Hyp _].
      assert (Hyp' : In yp offsets3x3) by (destruct Hyp as [<- | Hyp]; assumption).
      pose proof (proj1 (kept_spec E x) x_kept yp Hyp') as Hc.
      apply covered_spec in Hc. destruct Hc as [d [Hd Hc]].
      rewrite all_true in H. specialize (H d Hd).
      apply (IH (padd yp d :: known) y); [| exact Hy | exact H].
      intros s [<- | Hs]; [| apply Hknown, Hs].
      rewrite <- padd_assoc. exact Hc.
Qed.

End LocalSearch.

(** The search succeeds for the nine neighbours; it is run once, by
    computation. *)
Lemma core_search_all :
  forallb (core_search 10 []) offsets3x3 = true.
Proof. vm_cast_no_check (eq_refl true). Qed.

(** Around a kept cell every neighbour has a covered 5x5 window close by
    whose core hangs on to the cell. *)
Lemma core_near_kept (E : Z * Z -> bool) (x y : Z * Z) :
  kept E x = true -> In y offsets3x3 -> core_near E x y.
Proof.
  intros Hx Hy. apply (core_search_sound E x Hx 10 [] y).
  - intros s [].
  - exact Hy.
  - exact (proj1 (forallb_forall _ _) core_search_all y Hy).
Qed.

Lemma offsets5x5_split (d : Z * Z) :
  In d offsets5x5 ->
  exists o1 o2, In o1 offsets3x3 /\ In o2 offsets3x3 /\ d = padd o1 o2.
Proof.
  intros Hd. apply In_offsets5x5 in Hd. destruct Hd as [H1 H2].
  destruct (link1 (fst d)) as [u1 [v1 [Hu1 [Hv1 E1]]]]; [lia |].
  destruct (link1 (snd d)) as [u2 [v2 [Hu2 [Hv2 E2]]]]; [lia |].
  exists (u1, u2), (- v1, - v2). split; [| split].
  - apply In_offsets3x3; simpl; lia.
  - apply In_offsets3x3; simpl; lia.
  - destruct d. unfold padd. simpl in *. f_equal; lia.
Qed.

Lemma centre_spec (m : ndarray bool) (p : Z * Z) :
  square_centre m p = true <->
  in_bounds (nrows m) (ncols m) (fst p) (snd p) = true /\
  forall o, In o offsets3x3 -> getp false m (padd p o) = true.
Proof.
  unfold square_centre, getp. rewrite get_erosion1, andb_true_iff, forallb_forall.
  reflexivity.
Qed.

Section BorderClear.
Variable m : ndarray bool.
Hypothesis m_clear : border_clear m.

Lemma centre_deep (p : Z * Z) :
  square_centre m p = true ->
  2 <= fst p /\ fst p + 2 < Z.of_nat (nrows m) /\
  2 <= snd p /\ snd p + 2 < Z.of_nat (ncols m).
Proof.
  intros H. apply centre_spec in H. destruct H as [_ H].
  assert (H1 : In (-1, -1) offsets3x3) by (simpl; auto 10).
  assert (H2 : In (1, 1) offsets3x3) by (simpl; auto 10).
  apply H in H1. apply H in H2.
  apply m_clear in H1. apply m_clear in H2. simpl in H1, H2. lia.
Qed.

Lemma opening_cell (p : Z * Z) :
  getp false (binary_dilation1 offsets3x3 (binary_erosion1 offsets3x3 m)) p = true <->
  exists o, In o offsets3x3 /\ square_centre m (padd p o) = true.
Proof.
  unfold getp. rewrite get_dilation1, andb_true_iff, existsb_exists. split.
  - intros [_ [o [Ho He]]]. exists (- fst o, - snd o).
    split; [apply offsets3x3_opp, Ho |].
    unfold square_centre, getp, padd. simpl.
    replace (fst p + - fst o) with (fst p - fst o) by lia.
    replace (snd p + - snd o) with (snd p - snd o) by lia.
    exact He.
  - intros [o [Ho Hc]]. pose proof (centre_deep _ Hc) as Hd.
    pose proof (offsets3x3_range o Ho) as Hr. simpl in Hd. split.
    + apply in_bounds_iff. simpl. lia.
    + exists (- fst o, - snd o). split; [apply offsets3x3_opp, Ho |].
      simpl. unfold square_centre, getp, padd in Hc. simpl in Hc.
      replace (fst p - - fst o) with (fst p + fst o) by lia.
      replace (snd p - - snd o) with (snd p + snd o) by lia.
      exact Hc.
Qed.

Lemma covered_cell (p : Z * Z) :
  getp false (binary_dilation1 offsets3x3 (binary_dilation1 offsets3x3
                (binary_erosion1 offsets3x3 m))) p = true <->
  covered (square_centre m) p = true.
Proof.
  rewrite covered_spec. unfold getp at 1.
  rewrite get_dilation1, andb_true_iff, existsb_exists. split.
  - intros [_ [o [Ho He]]].
    apply (opening_cell (fst p - fst o, snd p - snd o)) in He.
    destruct He as [o' [Ho' Hc]].
    exists (padd (- fst o, - snd o) o'). split.
    + apply offsets5x5_sum; [apply offsets3x3_opp, Ho | exact Ho'].
    + replace (padd p (padd (- fst o, - snd o) o'))
        with (padd (fst p - fst o, snd p - snd o) o'); [exact Hc |].
      unfold padd. simpl. f_equal; lia.
  - intros [d [Hd Hc]]. pose proof (centre_deep _ Hc) as Hdeep.
    pose proof (proj1 (In_offsets5x5 d) Hd) as Hr. simpl in Hdeep.
    destruct (offsets5x5_split d Hd) as [o1 [o2 [Ho1 [Ho2 ->]]]]. split.
    + apply in_bounds_iff. simpl. lia.
    + exists (- fst o1, - snd o1). split; [apply offsets3x3_opp, Ho1 |].
      simpl.
      apply (opening_cell (fst p - - fst o1, snd p - - snd o1)).
      exists o2. split; [exact Ho2 |].
      replace (padd (fst p - - fst o1, snd p - - snd o1) o2)
        with (padd p (padd o1 o2)); [exact Hc |].
      unfold padd. simpl. f_equal; lia.
Qed.

Lemma open_close_kept (p : Z * Z) :
  getp false (open_close m) p = true <-> kept (square_centre m) p = true.
Proof.
  rewrite kept_spec. unfold open_close. unfold getp at 1.
  rewrite get_erosion1, andb_true_iff, forallb_forall. split.
  - intros [_ H] o Ho. apply covered_cell. exact (H o Ho).
  - intros H. split.
    + pose proof (H (0, 0) offsets3x3_centre) as H0. rewrite padd_0_r in H0.
      apply covered_spec in H0. destruct H0 as [d [Hd Hc]].
      pose proof (centre_deep _ Hc) as Hdeep.
      pose proof (proj1 (In_offsets5x5 d) Hd) as Hr. simpl in Hdeep.
      apply in_bounds_iff. simpl. lia.
    + intros o Ho. apply (covered_cell (padd p o)). exact (H o Ho).
Qed.

End BorderClear.

Lemma clean_border_clear (m : ndarray bool) (k : nat) :
  border_clear (S1.clean_mask m k).
Proof.
  intros r c H. apply clean_mask_sub in H. unfold open_close in H.
  apply erosion1_interior in H.
  pose proof (clean_mask_shape m k) as Hs. unfold shape in Hs.
  injection Hs as Hr Hc. rewrite Hr, Hc. exact H.
Qed.

Lemma clean_touch (m : ndarray bool) (k : nat) (p o : Z * Z) :
  In o offsets3x3 ->
  getp false (S1.clean_mask m k) p = true ->
  getp false (open_close m) (padd p o) = true ->
  getp false (S1.clean_mask m k) (padd p o) = true.
Proof. unfold getp, padd. simpl. apply clean_mask_touch. Qed.

(** Away from the border a cleaned mask is stable under opening-closing:
    every cell it keeps has, around each of its neighbours, a 3x3 square of
    kept cells within reach. *)
Lemma clean_within_open_close (m : ndarray bool) (k : nat) :
  border_clear m ->
  subset (S1.clean_mask m k) (open_close (S1.clean_mask m k)).
Proof.
  intros Hm r c HA.
  set (A := S1.clean_mask m k) in *.
  change (getp false (open_close A) (r, c) = true).
  apply (open_close_kept A (clean_border_clear m k)).
  apply kept_spec. intros y Hy. apply covered_spec.
  assert (Hx : kept (square_centre m) (r, c) = true).
  { apply (open_close_kept m Hm). apply (clean_mask_sub m k r c HA). }
  destruct (core_near_kept (square_centre m) (r, c) y Hx Hy)
    as [d [oq [o1 [o2 [Hd [Hoq [Ho1 [Ho2 [Hlink [Hq Hwin]]]]]]]]]].
  exists d. split; [exact Hd |].
  set (g := padd (padd (r, c) y) d).
  assert (Hg : g = padd (r, c) (padd y d)) by apply padd_assoc.
  (* the 3x3 square around [g] lies in the opened-closed mask *)
  assert (Hsq : forall o, In o offsets3x3 ->
                          getp false (open_close m) (padd g o) = true).
  { intros o Ho. apply (open_close_kept m Hm). apply kept_spec.
    intros o' Ho'. rewrite padd_assoc, Hg. apply Hwin.
    apply offsets5x5_sum; assumption. }
  (* it hangs on to the kept cell through [q] *)
  assert (HAq : getp false A (padd (r, c) oq) = true).
  { apply clean_touch; [exact Hoq | exact HA |].
    apply (open_close_kept m Hm). exact Hq. }
  assert (Hc0 : padd (padd (r, c) oq) o1 = padd g o2).
  { rewrite Hg. rewrite (padd_assoc (r, c) oq o1).
    rewrite (padd_assoc (r, c) (padd y d) o2). f_equal. exact Hlink. }
  assert (HA0 : getp false A (padd g o2) = true).
  { rewrite <- Hc0. apply clean_touch; [exact Ho1 | exact HAq |].
    rewrite Hc0. apply Hsq, Ho2. }
  assert (HAg : getp false A g = true).
  { replace g with (padd (padd g o2) (- fst o2, - snd o2)).
    - apply clean_touch; [apply offsets3x3_opp, Ho2 | exact HA0 |].
      replace (padd (padd g o2) (- fst o2, - snd o2)) with (padd g (0, 0)).
      + apply Hsq, offsets3x3_centre.
      + unfold padd. simpl. f_equal; lia.
    - destruct g. unfold padd. simpl. f_equal; lia. }
  apply centre_spec. split.
  - apply get_true_in_bounds. exact HAg.
  - intros o Ho. apply clean_touch; [exact Ho | exact HAg | apply Hsq, Ho].
Qed.

Lemma connected_mono (x y : ndarray bool) (p q : Z * Z) :
  (forall p', getp false x p' = true -> getp false y p' = true) ->
  connected x p q -> connected y p q.
Proof.
  intros Hsub. induction 1 as [p Hp | p q r Hpq IH Hr Ht].
  - apply connected_refl. apply Hsub, Hp.
  - apply (connected_step y p q r); [exact IH | apply Hsub, Hr | exact Ht].
Qed.

(** A path of the opened-closed mask that starts in the cleaned mask stays
    in it. *)
Lemma connected_clean (m : ndarray bool) (k : nat) (p q : Z * Z) :
  connected (open_close m) p q ->
  getp false (S1.clean_mask m k) p = true ->
  connected (S1.clean_mask m k) p q.
Proof.
  induction 1 as [p Hp | p q r Hpq IH Hr Ht]; intros HA.
  - apply connected_refl. exact HA.
  - specialize (IH HA).
    apply (connected_step _ p q r); [exact IH | | exact Ht].
    destruct Ht as [o [Ho ->]].
    apply (clean_touch m k q o Ho); [exact (connected_right _ _ _ IH) | exact Hr].
Qed.

Lemma label_eq_connected (x : ndarray bool) (p q : Z * Z) :
  getp 0%nat (label x) p <> 0%nat ->
  getp 0%nat (label x) p = getp 0%nat (label x) q ->
  connected x p q.
Proof.
  intros Hp Heq. unfold label in *.
  apply (label_scan_components x (indices (nrows x) (ncols x))
           (full (nrows x) (ncols x) 0%nat) 1).
  - apply full_inv.
  - intros q0. unfold getp, full. rewrite get_build_cases.
    destruct (in_bounds _ _ _ _); lia.
  - intros q0 q0' H0. exfalso. apply H0. unfold getp, full.
    rewrite get_build_cases. destruct (in_bounds _ _ _ _); reflexivity.
  - exact Hp.
  - exact Heq.
Qed.

(** The component of a kept cell does not shrink in the second pass. *)
Lemma clean_component_kept (m : ndarray bool) (k : nat) (r c : Z) :
  border_clear m ->
  get false (S1.clean_mask m k) r c = true ->
  (length (coords_of (label (open_close m))
                     (get 0%nat (label (open_close m)) r c)) <=
   length (coords_of (label (open_close (S1.clean_mask m k)))
                     (get 0%nat (label (open_close (S1.clean_mask m k))) r c)))%nat.
Proof.
  intros Hm HA. set (A := S1.clean_mask m k) in *.
  unfold coords_of.
  pose proof (label_shape (open_close m)) as Hs1.
  pose proof (label_shape (open_close A)) as Hs2.
  pose proof (clean_mask_shape m k) as Hs3. fold A in Hs3.
  unfold shape in Hs1, Hs2, Hs3.
  injection Hs1 as Hr1 Hc1. injection Hs2 as Hr2 Hc2. injection Hs3 as Hr3 Hc3.
  rewrite Hr1, Hc1, Hr2, Hc2.
  change (nrows (open_close m)) with (nrows m).
  change (ncols (open_close m)) with (ncols m).
  change (nrows (open_close A)) with (nrows A).
  change (ncols (open_close A)) with (ncols A).
  rewrite Hr3, Hc3.
  apply filter_length_mono. intros q _ Hq.
  apply Nat.eqb_eq in Hq. apply Nat.eqb_eq.
  assert (Hx : get false (open_close m) r c = true)
    by (apply (clean_mask_sub m k), HA).
  assert (Hconn : connected (open_close m) (r, c) q).
  { apply label_eq_connected.
    - apply (label_of_mask (open_close m) r c Hx).
    - symmetry. exact Hq. }
  apply (connected_clean m k) in Hconn; [| exact HA]. fold A in Hconn.
  apply (connected_mono A (open_close A)) in Hconn.
  - symmetry. apply (label_constant_on_component _ _ _ Hconn).
  - intros [r' c'] H'. apply (clean_within_open_close m k Hm r' c' H').
Qed.

Lemma mark_loop_built (test : region -> bool) (regs : list region) :
  forall acc,
    (exists f, acc = build (nrows acc) (ncols acc) f) ->
    exists f, mark_loop test regs acc = build (nrows acc) (ncols acc) f.
Proof.
  induction regs as [| reg regs IH]; intros acc Hacc; simpl.
  - exact Hacc.
  - destruct (test reg).
    + destruct (IH (set_coords false acc (coords reg) true)) as [f Hf].
      * eexists. reflexivity.
      * exists f. exact Hf.
    + apply IH, Hacc.
Qed.

Lemma clean_mask_built (m : ndarray bool) (k : nat) :
  exists f, S1.clean_mask m k = build (nrows m) (ncols m) f.
Proof.
  rewrite clean_mask_unfold.
  apply (mark_loop_built _ _ (zeros_like (open_close m))).
  eexists. reflexivity.
Qed.

Lemma built_ext (h w : nat) (f g : Z -> Z -> bool) :
  (forall r c, get false (build h w f) r c = get false (build h w g) r c) ->
  build h w f = build h w g.
Proof.
  intros H. apply build_ext. intros r c Hb. specialize (H r c).
  rewrite !get_build in H by exact Hb. exact H.
Qed.

(** C6 (amended).  On a grid with at least one cell (on an image without
    cells [regionprops] raises), the Morphological Cleaner is idempotent on
    every mask that has no set cell on the border of its grid: cleaning the
    cleaned mask again returns it unchanged, whatever the minimum area.  For
    the other masks a second pass keeps the shape and can only remove cells,
    never add one. *)
Theorem clean_mask_idempotent_off_border (m : ndarray bool) (k : nat) :
  (1 <= nrows m)%nat -> (1 <= ncols m)%nat ->
  (border_clear m ->
   S1.clean_mask (S1.clean_mask m k) k = S1.clean_mask m k) /\
  shape (S1.clean_mask (S1.clean_mask m k) k) = shape (S1.clean_mask m k) /\
  subset (S1.clean_mask (S1.clean_mask m k) k) (S1.clean_mask m k).
Proof.
  intros _ _. split; [| split; [apply clean_mask_shape | apply clean_mask_twice_sub]].
  intros Hm.
  assert (Heq : forall r c,
            get false (S1.clean_mask (S1.clean_mask m k) k) r c =
            get false (S1.clean_mask m k) r c).
  { intros r c.
    destruct (get false (S1.clean_mask m k) r c) eqn:HA.
    - apply get_clean_mask. split.
      + apply (clean_within_open_close m k Hm r c HA).
      + apply get_clean_mask in HA as Hk. destruct Hk as [_ Hk].
        eapply Nat.le_trans; [exact Hk |].
        apply (clean_component_kept m k r c Hm HA).
    - destruct (get false (S1.clean_mask (S1.clean_mask m k) k) r c) eqn:HA2;
        [| reflexivity].
      apply clean_mask_twice_sub in HA2. congruence. }
  pose proof (clean_mask_shape m k) as Hs. unfold shape in Hs.
  injection Hs as Hr Hc.
  destruct (clean_mask_built (S1.clean_mask m k) k) as [f Hf].
  destruct (clean_mask_built m k) as [g Hg].
  rewrite Hr, Hc in Hf. rewrite Hf in Heq |- *. rewrite Hg in Heq |- *.
  apply built_ext. exact Heq.
Qed.

(** A run of C6 (amended): a 4x4 block in the middle of an 8x8 grid is
    returned unchanged by the first pass and by the second. *)
Lemma clean_mask_idempotent_off_border_witness :
  let m := build 8 8 (fun r c => (2 <=? r) && (r <=? 5) && (2 <=? c) && (c <=? 5)) in
  S1.clean_mask m S1.MIN_AREA = m /\
  S1.clean_mask (S1.clean_mask m S1.MIN_AREA) S1.MIN_AREA =
  S1.clean_mask m S1.MIN_AREA.
Proof.
  intros m. split; [vm_compute; reflexivity |].
  apply (clean_mask_idempotent_off_border m S1.MIN_AREA).
  - simpl. lia.
  - simpl. lia.
  - intros r c H. apply get_true_in_bounds in H as Hb.
    apply in_bounds_iff in Hb. unfold m in H. rewrite get_build in H
      by (apply in_bounds_iff; exact Hb).
    rewrite !andb_true_iff, !Z.leb_le in H. simpl. lia.
Defined.

(* ================================================================== *)
(** ** The RGB previews *)
(* ================================================================== *)

Lemma maximum_ub (a b : Q) :
  (a <= Rgb.maximum a b)%Q /\ (b <= Rgb.maximum a b)%Q /\
  (Rgb.maximum a b = a \/ Rgb.maximum a b = b).
Proof.
  unfold Rgb.maximum. destruct (Qle_bool a b) eqn:E.
  - apply Qle_bool_iff in E. split; [exact E |]. split; [apply Qle_refl | auto].
  - split; [apply Qle_refl |]. split; [| auto].
    destruct (Qlt_le_dec b a) as [H | H]; [apply Qlt_le_weak, H |].
    apply Qle_bool_iff in H. congruence.
Qed.

Lemma fold_maximum (l : list Q) :
  forall x,
    (x <= fold_left Rgb.maximum l x)%Q /\
    (forall y, In y l -> (y <= fold_left Rgb.maximum l x)%Q) /\
    (fold_left Rgb.maximum l x = x \/ In (fold_left Rgb.maximum l x) l).
Proof.
  induction l as [| a l IH]; intros x; simpl.
  - split; [apply Qle_refl |]. split; [intros y [] | auto].
  - destruct (IH (Rgb.maximum x a)) as [H1 [H2 H3]].
    destruct (maximum_ub x a) as [Hx [Ha Hm]].
    split; [eapply Qle_trans; eassumption |]. split.
    + intros y [<- | Hy]; [eapply Qle_trans; eassumption | auto].
    + destruct H3 as [H3 | H3]; [| auto].
      rewrite H3. destruct Hm as [-> | ->]; auto.
Qed.

Lemma amax_spec (l : list Q) :
  l <> [] ->
  exists m, Rgb.amax l = Ok m /\ In m l /\ forall y, In y l -> (y <= m)%Q.
Proof.
  destruct l as [| x l]; [congruence |]. intros _.
  destruct (fold_maximum l x) as [H1 [H2 H3]].
  exists (fold_left Rgb.maximum l x). split; [reflexivity |]. split.
  - destruct H3 as [-> | H3]; [now left | now right].
  - intros y [<- | Hy]; auto.
Qed.

Lemma clip_default (x : Q) :
  (0 <= Rgb.clip x 0 8000 <= 8000)%Q /\
  ((0 < x)%Q -> (0 < Rgb.clip x 0 8000)%Q) /\
  ((x <= 0)%Q -> Rgb.clip x 0 8000 = 0%Q).
Proof.
  unfold Rgb.clip, Rgb.maximum, Rgb.minimum.
  destruct (Qle_bool x 0) eqn:E0.
  - apply Qle_bool_iff in E0. simpl. split; [lra |]. split; [lra | reflexivity].
  - assert (Hx : (0 < x)%Q).
    { destruct (Qlt_le_dec 0 x) as [H | H]; [exact H |].
      apply Qle_bool_iff in H. congruence. }
    destruct (Qle_bool x 8000) eqn:E1.
    + apply Qle_bool_iff in E1. split; [lra |]. split; [auto | lra].
    + split; [lra |]. split; [lra | lra].
Qed.

Lemma in_flatten (a : ndarray Q) (r c : Z) :
  in_bounds (nrows a) (ncols a) r c = true ->
  In (get 0%Q a r c) (S2.flatten a).
Proof.
  intros Hb. unfold S2.flatten. apply in_map_iff. exists (r, c).
  split; [reflexivity |]. apply in_indices. exact Hb.
Qed.

Lemma flatten_inv (a : ndarray Q) (y : Q) :
  In y (S2.flatten a) ->
  exists r c, in_bounds (nrows a) (ncols a) r c = true /\ y = get 0%Q a r c.
Proof.
  unfold S2.flatten. intros H. apply in_map_iff in H.
  destruct H as [[r c] [<- Hp]]. apply in_indices in Hp.
  exists r, c. split; [exact Hp | reflexivity].
Qed.

Lemma clipped_head_shape (l : list (ndarray Q)) (h w : nat) :
  l <> [] -> Forall (fun b => shape b = (h, w)) l ->
  match map (amap (fun x => Rgb.clip x 0 8000) 0%Q) l with
  | [] => (0%nat, 0%nat)
  | b :: _ => shape b
  end = (h, w).
Proof.
  destruct l as [| b l]; [congruence |]. intros _ Hall.
  inversion Hall as [| ? ? Hb _]; subst. exact Hb.
Qed.

Section ScaleRgb.
Variable arr : list (ndarray Q).
Variables h w : nat.
Hypothesis arr_shape : Forall (fun b => shape b = (h, w)) arr.

Lemma clipped_get (b : ndarray Q) (r c : Z) :
  In b arr -> in_bounds h w r c = true ->
  get 0%Q (amap (fun x => Rgb.clip x 0 8000) 0%Q b) r c =
  Rgb.clip (get 0%Q b r c) 0 8000.
Proof.
  intros Hb Hrc. rewrite Forall_forall in arr_shape.
  specialize (arr_shape b Hb). unfold shape in arr_shape.
  injection arr_shape as Hr Hc.
  unfold amap. rewrite get_build; [reflexivity | now rewrite Hr, Hc].
Qed.

Lemma clipped_samples (y : Q) :
  In y (concat (map S2.flatten
                  (map (amap (fun x => Rgb.clip x 0 8000) 0%Q) arr))) <->
  exists b r c, In b arr /\ in_bounds h w r c = true /\
                y = Rgb.clip (get 0%Q b r c) 0 8000.
Proof.
  rewrite in_concat. split.
  - intros [l [Hl Hy]]. apply in_map_iff in Hl. destruct Hl as [b' [<- Hb']].
    apply in_map_iff in Hb'. destruct Hb' as [b [<- Hb]].
    apply flatten_inv in Hy. destruct Hy as [r [c [Hrc ->]]].
    pose proof arr_shape as Hs. rewrite Forall_forall in Hs.
    specialize (Hs b Hb). unfold shape in Hs. injection Hs as Hr Hc.
    simpl in Hrc. rewrite Hr, Hc in Hrc.
    exists b, r, c. split; [exact Hb |]. split; [exact Hrc |].
    apply clipped_get; assumption.
  - intros [b [r [c [Hb [Hrc ->]]]]].
    exists (S2.flatten (amap (fun x => Rgb.clip x 0 8000) 0%Q b)). split.
    + apply in_map. apply in_map. exact Hb.
    + rewrite <- clipped_get by assumption. apply in_flatten.
      pose proof arr_shape as Hs. rewrite Forall_forall in Hs.
      specialize (Hs b Hb). unfold shape in Hs. injection Hs as Hr Hc.
      simpl. now rewrite Hr, Hc.
Qed.

(** The image [scale_rgb] returns for a non-empty stack, and its maximum. *)
Lemma scale_rgb_ok :
  arr <> [] -> (0 < h * w)%nat ->
  exists m,
    Rgb.scale_rgb arr 0 8000 =
    Ok (build h w (fun r c =>
          map (fun b => Rgb.divide (Rgb.clip (get 0%Q b r c) 0 8000) m) arr)) /\
    (exists b r c, In b arr /\ in_bounds h w r c = true /\
                   m = Rgb.clip (get 0%Q b r c) 0 8000) /\
    (forall b r c, In b arr -> in_bounds h w r c = true ->
                   (Rgb.clip (get 0%Q b r c) 0 8000 <= m)%Q).
Proof.
  intros Hne Hcells.
  assert (Hb0 : exists b0, In b0 arr).
  { destruct arr as [| b0 rest]; [congruence |]. exists b0. now left. }
  destruct Hb0 as [b0 Hb0].
  assert (H00 : in_bounds h w 0 0 = true) by (apply in_bounds_iff; lia).
  destruct (amax_spec (concat (map S2.flatten
              (map (amap (fun x => Rgb.clip x 0 8000) 0%Q) arr))))
    as [m [Hm [Hin Hub]]].
  { intros Hnil.
    assert (Hi : In (Rgb.clip (get 0%Q b0 0 0) 0 8000)
                   (concat (map S2.flatten
                     (map (amap (fun x => Rgb.clip x 0 8000) 0%Q) arr)))).
    { apply clipped_samples. exists b0, 0, 0. auto. }
    rewrite Hnil in Hi. destruct Hi. }
  exists m. split; [| split].
  - unfold Rgb.scale_rgb. rewrite Hm.
    cbv zeta. rewrite (clipped_head_shape arr h w Hne arr_shape).
    cbn [fst snd]. f_equal. apply build_ext. intros r c Hrc.
    rewrite map_map. apply map_ext_in. intros b Hb.
    rewrite clipped_get by assumption. reflexivity.
  - apply clipped_samples. exact Hin.
  - intros b r c Hb Hrc. apply Hub. apply clipped_samples.
    exists b, r, c. auto.
Qed.

End ScaleRgb.

(** X19.  [scale_rgb] with its default limits, on a non-empty stack of
    bands of one shape: the image has that shape and one value per band in
    every cell; if some sample is positive, every value is a number between
    0 and 1 and some value equals 1; if no sample is positive, the maximum
    is 0 and every value is NaN. *)
Theorem scale_rgb_unit_range (arr : list (ndarray Q)) (h w : nat)
    (Hne : arr <> [])
    (Hshape : Forall (fun b => shape b = (h, w)) arr)
    (Hcells : (0 < h * w)%nat) :
  exists img,
    Rgb.scale_rgb arr 0 8000 = Ok img /\ shape img = (h, w) /\
    (forall r c, in_bounds h w r c = true ->
                 length (get [] img r c) = length arr) /\
    ((exists b r c, In b arr /\ in_bounds h w r c = true /\
                    (0 < get 0%Q b r c)%Q) ->
     (forall r c v, in_bounds h w r c = true -> In v (get [] img r c) ->
                    exists q, v = Rgb.Num q /\ (0 <= q <= 1)%Q) /\
     (exists r c q, in_bounds h w r c = true /\
                    In (Rgb.Num q) (get [] img r c) /\ (q == 1)%Q)) /\
    ((forall b r c, In b arr -> in_bounds h w r c = true ->
                    (get 0%Q b r c <= 0)%Q) ->
     forall r c v, in_bounds h w r c = true -> In v (get [] img r c) ->
                   v = Rgb.NaN).
Proof.
  destruct (scale_rgb_ok arr h w Hshape Hne Hcells)
    as [m [Hrun [[bm [rm [cm [Hbm [Hrcm Hm]]]]] Hub]]].
  eexists. split; [exact Hrun |]. split; [reflexivity |].
  split; [| split].
  - intros r c Hrc. rewrite get_build by exact Hrc. apply length_map.
  - intros [b [r [c [Hb [Hrc Hpos]]]]].
    assert (Hmpos : (0 < m)%Q).
    { destruct (clip_default (get 0%Q b r c)) as [_ [Hp _]].
      specialize (Hp Hpos). specialize (Hub b r c Hb Hrc). lra. }
    assert (Hm0 : Qeq_bool m 0 = false).
    { destruct (Qeq_bool m 0) eqn:E; [| reflexivity].
      apply Qeq_bool_iff in E. lra. }
    split.
    + intros r' c' v Hrc' Hv. rewrite get_build in Hv by exact Hrc'.
      apply in_map_iff in Hv. destruct Hv as [b' [<- Hb']].
      unfold Rgb.divide. rewrite Hm0. eexists. split; [reflexivity |].
      destruct (clip_default (get 0%Q b' r' c')) as [[Hlo _] _].
      specialize (Hub b' r' c' Hb' Hrc'). split.
      * apply Qle_shift_div_l; [exact Hmpos | lra].
      * apply Qle_shift_div_r; [exact Hmpos | lra].
    + exists rm, cm, (m / m)%Q. split; [exact Hrcm |]. split.
      * rewrite get_build by exact Hrcm. apply in_map_iff. exists bm.
        split; [| exact Hbm]. unfold Rgb.divide. rewrite Hm0, <- Hm.
        reflexivity.
      * field. lra.
  - intros Hdark r c v Hrc Hv. rewrite get_build in Hv by exact Hrc.
    apply in_map_iff in Hv. destruct Hv as [b [<- Hb]].
    destruct (clip_default (get 0%Q bm rm cm)) as [_ [_ Hz]].
    rewrite <- Hm in Hz. rewrite (Hz (Hdark bm rm cm Hbm Hrcm)).
    destruct (clip_default (get 0%Q b r c)) as [_ [_ Hz']].
    rewrite (Hz' (Hdark b r c Hb Hrc)). reflexivity.
Qed.

(** A run of X19: three 1x2 bands whose brightest sample is 4000. *)
Lemma scale_rgb_unit_range_witness :
  Rgb.scale_rgb [build 1 2 (fun _ c => if c =? 0 then 4000 else 1000);
                 build 1 2 (fun _ _ => 2000); build 1 2 (fun _ _ => (-5))]%Q
                0 8000 =
  Ok (build 1 2 (fun _ c =>
        if c =? 0
        then [Rgb.Num (4000 / 4000); Rgb.Num (2000 / 4000); Rgb.Num (0 / 4000)]
        else [Rgb.Num (1000 / 4000); Rgb.Num (2000 / 4000); Rgb.Num (0 / 4000)]))%Q.
Proof.
  destruct (scale_rgb_unit_range
              [build 1 2 (fun _ c => if c =? 0 then 4000 else 1000);
               build 1 2 (fun _ _ => 2000); build 1 2 (fun _ _ => (-5))]%Q
              1 2) as [img [Hrun _]].
  - discriminate.
  - repeat constructor.
  - simpl. lia.
  - vm_compute. reflexivity.
Defined.

(* ================================================================== *)
(** ** The merging script: a free file name *)
(* ================================================================== *)

Lemma append_inj_l (s a b : string) : (s ++ a = s ++ b)%string -> a = b.
Proof.
  induction s as [| c s IH]; simpl; intros H.
  - exact H.
  - injection H as H. auto.
Qed.

Lemma length_append (a b : string) :
  String.length (a ++ b) = (String.length a + String.length b)%nat.
Proof. induction a as [| c a IH]; simpl; [reflexivity | now rewrite IH]. Qed.

Lemma append_inj_r (t a b : string) : (a ++ t = b ++ t)%string -> a = b.
Proof.
  revert b. induction a as [| c a IH]; intros [| d b] H; simpl in H.
  - reflexivity.
  - apply (f_equal String.length) in H. simpl in H.
    rewrite length_append in H. lia.
  - apply (f_equal String.length) in H. simpl in H.
    rewrite length_append in H. lia.
  - injection H as -> H. f_equal. auto.
Qed.

Lemma append_assoc (a b c : string) : ((a ++ b) ++ c = a ++ b ++ c)%string.
Proof. induction a as [| x a IH]; simpl; [reflexivity | now rewrite IH]. Qed.

Lemma str_inj (n m : nat) : Merge.str n = Merge.str m -> n = m.
Proof.
  unfold Merge.str. intros H.
  apply DecimalNat.Unsigned.to_uint_inj.
  apply (f_equal DecimalString.NilEmpty.uint_of_string) in H.
  rewrite !DecimalString.NilEmpty.usu in H. congruence.
Qed.

Lemma join_relative (a b : string) :
  Merge.isabs b = false -> Merge.join a b = (join_prefix a ++ b)%string.
Proof.
  intros Hb. unfold Merge.join, join_prefix. rewrite Hb.
  destruct (String.eqb a "" || Merge.endswith_sep a); [reflexivity |].
  now rewrite append_assoc.
Qed.

Section Versioning.
Variable output_folder : string.
Variable existing : list string.

Lemma candidate_inj (j k : nat) :
  candidate output_folder j = candidate output_folder k -> j = k.
Proof.
  unfold candidate, Merge.base_output_file.
  destruct j as [| j], k as [| k]; rewrite !join_relative by reflexivity;
    intros H; apply append_inj_l in H.
  - reflexivity.
  - discriminate H.
  - discriminate H.
  - apply (append_inj_l "S2_merged_RGBNIR_v") in H.
    apply append_inj_r in H. apply str_inj in H. exact H.
Qed.

Lemma path_exists_In (p : string) :
  Merge.path_exists existing p = true <-> In p existing.
Proof.
  unfold Merge.path_exists. rewrite existsb_exists. split.
  - intros [q [Hq He]]. apply String.eqb_eq in He. now subst q.
  - intros H. exists p. split; [exact H | apply String.eqb_refl].
Qed.

Lemma candidates_fit (k : nat) :
  (forall j, (j < k)%nat -> In (candidate output_folder j) existing) ->
  (k <= length existing)%nat.
Proof.
  intros H.
  assert (Hl : (length (map (candidate output_folder) (seq 0 k)) <= length existing)%nat).
  { apply NoDup_incl_length.
    - apply Finite.Injective_map_NoDup; [| apply seq_NoDup].
      intros a b. apply candidate_inj.
    - intros p Hp. apply in_map_iff in Hp. destruct Hp as [j [<- Hj]].
      apply in_seq in Hj. apply H. lia. }
  now rewrite length_map, length_seq in Hl.
Qed.

Lemma versioning_first_candidate (fuel : nat) :
  forall k,
    (forall j, (j < k)%nat -> In (candidate output_folder j) existing) ->
    (length existing < k + fuel)%nat ->
    exists n, (k <= n)%nat /\
      Merge.versioning output_folder existing fuel (S k) (candidate output_folder k)
        = Some (candidate output_folder n) /\
      ~ In (candidate output_folder n) existing /\
      (forall j, (j < n)%nat -> In (candidate output_folder j) existing).
Proof.
  induction fuel as [| fuel IH]; intros k Hk Hlen.
  - apply candidates_fit in Hk. lia.
  - simpl. destruct (Merge.path_exists existing (candidate output_folder k)) eqn:E.
    + apply path_exists_In in E.
      destruct (IH (S k)) as [n [Hn [Hv [Hfree Hbefore]]]].
      * intros j Hj. destruct (Nat.eq_dec j k) as [-> | Hne];
          [exact E | apply Hk; lia].
      * lia.
      * exists n. split; [lia |]. split; [| split]; assumption.
    + exists k. split; [lia |]. split; [reflexivity |]. split; [| exact Hk].
      intros Hin. apply path_exists_In in Hin. congruence.
Qed.

Lemma versioning_free (fuel : nat) :
  forall counter p q,
    Merge.versioning output_folder existing fuel counter p = Some q ->
    ~ In q existing.
Proof.
  induction fuel as [| fuel IH]; intros counter p q H; simpl in H.
  - discriminate.
  - destruct (Merge.path_exists existing p) eqn:E.
    + exact (IH _ _ _ H).
    + injection H as <-. intros Hin. apply path_exists_In in Hin. congruence.
Qed.

End Versioning.

(** X20.  The name under which the mosaic is saved is the first free one of
    the sequence base name, v1, v2, ...: given more rounds than there are
    existing paths the loop stops, the name it returns does not exist, and
    every name before it in the sequence does. *)
Theorem versioning_picks_first_free
    (output_folder : string) (existing : list string) (fuel : nat)
    (Hfuel : (length existing < fuel)%nat) :
  exists n,
    Merge.versioning output_folder existing fuel 1
      (Merge.base_output_file output_folder)
      = Some (candidate output_folder n) /\
    ~ In (candidate output_folder n) existing /\
    (forall j, (j < n)%nat -> In (candidate output_folder j) existing) /\
    (forall j, candidate output_folder j = candidate output_folder n -> j = n).
Proof.
  destruct (versioning_first_candidate output_folder existing fuel 0)
    as [n [_ [Hv [Hfree Hbefore]]]].
  - intros j Hj. lia.
  - lia.
  - exists n. split; [exact Hv |]. split; [exact Hfree |].
    split; [exact Hbefore |]. intros j. apply candidate_inj.
Qed.

(** A run of X20: with the base name and v1 taken, v2 is chosen. *)
Lemma versioning_picks_first_free_witness :
  exists n,
    Merge.versioning "out" ["out/S2_merged_RGBNIR.tif"%string;
                            "out/S2_merged_RGBNIR_v1.tif"%string] 3 1
      (Merge.base_output_file "out")
      = Some (candidate "out" n) /\
    n = 2%nat.
Proof.
  destruct (versioning_picks_first_free "out"
              ["out/S2_merged_RGBNIR.tif"%string;
               "out/S2_merged_RGBNIR_v1.tif"%string] 3) as [n [Hv [Hf [Hb Hi]]]].
  - simpl. lia.
  - exists n. split; [exact Hv |].
    symmetry. apply (Hi 2%nat).
    assert (H2 : Merge.versioning "out"
                   ["out/S2_merged_RGBNIR.tif"%string;
                    "out/S2_merged_RGBNIR_v1.tif"%string] 3 1
                   (Merge.base_output_file "out") = Some (candidate "out" 2))
      by (vm_compute; reflexivity).
    rewrite H2 in Hv. injection Hv as Hv. exact Hv.
Defined.


(* ================================================================== *)
(** ** The merging script: bands found, bands aligned *)
(* ================================================================== *)

Section MergeRun.
Variables input_folder output_folder : string.
Variable existing : list string.
Variable glob : string -> list string.
Variable rasterio_open : string -> Merge.dataset.

Lemma find_band_cases (band : string) :
  (missing input_folder glob band /\
   Merge.find_band input_folder glob band =
   Merge.Failed (Merge.FileNotFoundError
     ("Band " ++ band ++ " not found in: " ++ input_folder)%string)) \/
  (~ missing input_folder glob band /\
   exists f, Merge.find_band input_folder glob band = Merge.Done f /\
     (In f (glob (tiff_search input_folder band)) \/
      glob (tiff_search input_folder band) = [] /\
      In f (glob (jp2_search input_folder band)))).
Proof.
  unfold Merge.find_band, missing.
  fold (tiff_search input_folder band). fold (jp2_search input_folder band).
  destruct (glob (tiff_search input_folder band)) as [| f fs] eqn:Et.
  - destruct (glob (jp2_search input_folder band)) as [| f fs] eqn:Ej.
    + left. auto.
    + right. split; [intros [_ H]; discriminate |].
      exists f. split; [reflexivity |]. right. split; [reflexivity | now left].
  - right. split; [intros [H _]; discriminate |].
    exists f. split; [reflexivity |]. left. now left.
Qed.

Lemma find_bands_missing (bs : list string) :
  forall band_files,
    (exists band, In band bs /\ missing input_folder glob band) ->
    exists pre b post,
      bs = pre ++ b :: post /\
      (forall b', In b' pre -> ~ missing input_folder glob b') /\
      missing input_folder glob b /\
      Merge.find_bands input_folder glob bs band_files =
      Merge.Failed (Merge.FileNotFoundError
        ("Band " ++ b ++ " not found in: " ++ input_folder)%string).
Proof.
  induction bs as [| band0 bs IH]; intros band_files [band [Hin Hmiss]].
  - destruct Hin.
  - simpl. destruct (find_band_cases band0) as [[Hm He] | [Hm [f [He _]]]].
    + exists [], band0, bs. rewrite He. repeat split; try apply Hm.
      intros b' [].
    + rewrite He.
      destruct (IH (band_files ++ [(band0, f)])) as [pre [b [post [Hbs [Hpre [Hb Hf]]]]]].
      * exists band. split; [| exact Hmiss].
        destruct Hin as [<- | Hin]; [contradiction | exact Hin].
      * exists (band0 :: pre), b, post. subst bs.
        split; [reflexivity |]. split; [| split; assumption].
        intros b' [<- | Hb']; [exact Hm | exact (Hpre b' Hb')].
Qed.

Lemma find_bands_done (bs : list string) :
  forall band_files found,
    Merge.find_bands input_folder glob bs band_files = Merge.Done found ->
    exists rest, found = band_files ++ rest /\ map fst rest = bs /\
      forall b, In b bs -> ~ missing input_folder glob b.
Proof.
  induction bs as [| band0 bs IH]; intros band_files found H; simpl in H.
  - injection H as <-. exists []. rewrite app_nil_r.
    repeat split. intros b [].
  - destruct (find_band_cases band0) as [[Hm He] | [Hm [f [He _]]]];
      rewrite He in H; [discriminate |].
    apply IH in H. destruct H as [rest [-> [Hfst Hall]]].
    exists ((band0, f) :: rest). rewrite <- app_assoc. split; [reflexivity |].
    split; [simpl; now rewrite Hfst |].
    intros b [<- | Hb]; [exact Hm | exact (Hall b Hb)].
Qed.

Lemma read_bands_aligned (bs : list (string * string)) :
  forall i m arrays,
    i <> 0%nat ->
    Forall (fun bp => aligned m (rasterio_open (snd bp))) bs ->
    Merge.read_bands rasterio_open i bs (Some m) arrays =
    Merge.Done (Some m,
                arrays ++ map (fun bp => Merge.read1 (rasterio_open (snd bp))) bs).
Proof.
  induction bs as [| [band path] bs IH]; intros i m arrays Hi Hall; simpl.
  - now rewrite app_nil_r.
  - apply Nat.eqb_neq in Hi as Hi'. rewrite Hi'.
    inversion Hall as [| ? ? [Hw [Hh Ht]] Hrest]; subst. simpl in Hw, Hh, Ht.
    rewrite Hw, Hh, Ht, !Nat.eqb_refl. simpl.
    rewrite IH by (auto; lia). now rewrite <- app_assoc.
Qed.

Lemma read_bands_inv (bs : list (string * string)) :
  forall i m arrays,
    i <> 0%nat ->
    match Merge.read_bands rasterio_open i bs (Some m) arrays with
    | Merge.Done _ => Forall (fun bp => aligned m (rasterio_open (snd bp))) bs
    | Merge.Failed e =>
        ~ Forall (fun bp => aligned m (rasterio_open (snd bp))) bs /\
        exists msg, e = Merge.Builtin (ValueError msg)
    end.
Proof.
  induction bs as [| [band path] bs IH]; intros i m arrays Hi; simpl.
  - constructor.
  - apply Nat.eqb_neq in Hi as Hi'. rewrite Hi'.
    destruct (Nat.eqb (Merge.ds_width (rasterio_open path)) (Merge.width m)) eqn:Ew;
      simpl.
    2:{ split; [| eauto]. intros Hall. inversion Hall as [| ? ? [Hw _] _]; subst.
        simpl in Hw. apply Nat.eqb_neq in Ew. contradiction. }
    destruct (Nat.eqb (Merge.ds_height (rasterio_open path)) (Merge.height m)) eqn:Eh;
      simpl.
    2:{ split; [| eauto]. intros Hall.
        inversion Hall as [| ? ? [_ [Hh _]] _]; subst.
        simpl in Hh. apply Nat.eqb_neq in Eh. contradiction. }
    destruct (Merge.affine_eqb (Merge.ds_transform (rasterio_open path))
                (Merge.transform m)) eqn:Et; simpl.
    2:{ split; [| eauto]. intros Hall.
        inversion Hall as [| ? ? [_ [_ Ht]] _]; subst.
        simpl in Ht. congruence. }
    specialize (IH (S i) m (arrays ++ [Merge.read1 (rasterio_open path)])).
    destruct (Merge.read_bands rasterio_open (S i) bs (Some m) _).
    + constructor; [| apply IH; lia].
      apply Nat.eqb_eq in Ew. apply Nat.eqb_eq in Eh. repeat split; assumption.
    + destruct IH as [Hn Hmsg]; [lia |]. split; [| exact Hmsg].
      intros Hall. inversion Hall; subst. contradiction.
Qed.

Lemma affine_eqb_refl (t : Affine) : Merge.affine_eqb t t = true.
Proof.
  unfold Merge.affine_eqb.
  rewrite !(proj2 (Qeq_bool_iff _ _) (Qeq_refl _)). reflexivity.
Qed.

Lemma aligned_reference (src : Merge.dataset) : aligned (reference src) src.
Proof. repeat split. apply affine_eqb_refl. Qed.

Lemma np_stack_aligned (m : Merge.Meta) (srcs : list Merge.dataset) :
  srcs <> [] ->
  Forall (aligned m) srcs ->
  Merge.np_stack (map Merge.read1 srcs) = Merge.Done (map Merge.read1 srcs).
Proof.
  intros Hne Hall. destruct srcs as [| src srcs]; [congruence |].
  simpl. inversion Hall as [| ? ? [Hw [Hh _]] Hrest]; subst.
  replace (forallb _ _) with true; [reflexivity |].
  symmetry. apply forallb_forall. intros a Ha.
  apply in_map_iff in Ha. destruct Ha as [s [<- Hs]].
  rewrite Forall_forall in Hrest. destruct (Hrest s Hs) as [Hw' [Hh' _]].
  apply shape_eqb_iff. unfold shape, Merge.ds_width, Merge.ds_height in *.
  congruence.
Qed.


Lemma some_pair_inj {A B : Type} (a a' : A) (b b' : B) :
  Some (a, b) = Some (a', b') -> a = a' /\ b = b'.
Proof. intros H. split; congruence. Qed.

Lemma located_no_write (band_files : list (string * string))
    (p : string) (m : Merge.Meta) (stacked : list (ndarray Z)) :
  ~ In (Merge.Written p m stacked)
       (Merge.MakeDirs output_folder :: Merge.located band_files).
Proof.
  unfold Merge.located. intros [H | [H | H]]; try discriminate.
  apply in_map_iff in H. destruct H as [bp [H _]]. discriminate.
Qed.

(** The run once the bands are found: either all of them lie on the grid of
    the first and the mosaic is written under the name the versioning loop
    chose, or the script raises a [ValueError] having written nothing. *)
Lemma run_found (fuel : nat) (output_file : string)
    (band_files : list (string * string)) :
  Merge.versioning output_folder existing fuel 1
    (Merge.base_output_file output_folder) = Some output_file ->
  Merge.find_bands input_folder glob Merge.bands [] = Merge.Done band_files ->
  exists src srcs,
    map (fun bp => rasterio_open (snd bp)) band_files = src :: srcs /\
    length srcs = 3%nat /\
    ((Forall (aligned (reference src)) srcs /\
      Merge.run input_folder output_folder existing glob rasterio_open fuel =
      Some ((Merge.MakeDirs output_folder :: Merge.located band_files) ++
            [Merge.Written output_file (reference src)
               (map Merge.read1 (src :: srcs));
             Merge.Printed (Merge.newline ++ Merge.check_mark ++
                            " Saved georeferenced RGB+NIR mosaic:" ++
                            Merge.newline ++ "  " ++ output_file)%string;
             Merge.Shown (Merge.preview (map Merge.read1 (src :: srcs)))],
            Merge.Done tt)) \/
     (~ Forall (aligned (reference src)) srcs /\
      exists msg,
        Merge.run input_folder output_folder existing glob rasterio_open fuel =
        Some (Merge.MakeDirs output_folder :: Merge.located band_files,
              Merge.Failed (Merge.Builtin (ValueError msg))))).
Proof.
  intros Hv Hf. unfold Merge.run. rewrite Hv, Hf.
  apply find_bands_done in Hf. destruct Hf as [rest [-> [Hfst _]]].
  simpl app.
  destruct rest as [| [b0 p0] rest]; [discriminate |].
  exists (rasterio_open p0), (map (fun bp => rasterio_open (snd bp)) rest).
  split; [reflexivity |]. split.
  { rewrite length_map. apply (f_equal (@length string)) in Hfst.
    simpl in Hfst. rewrite length_map in Hfst. lia. }
  cbn [Merge.read_bands Nat.eqb app].
  change (Merge.update (Merge.meta (rasterio_open p0)) (length Merge.bands)
            "uint16" Merge.sentinel_crs) with (reference (rasterio_open p0)).
  pose proof (read_bands_inv rest 1 (reference (rasterio_open p0))
                [Merge.read1 (rasterio_open p0)]) as Hinv.
  destruct (Merge.read_bands rasterio_open 1 rest
              (Some (reference (rasterio_open p0)))
              [Merge.read1 (rasterio_open p0)]) as [r | e] eqn:Er.
  - specialize (Hinv ltac:(lia)).
    rewrite read_bands_aligned in Er by (auto; lia).
    injection Er as <-. left.
    assert (Hall : Forall (aligned (reference (rasterio_open p0)))
                     (map (fun bp => rasterio_open (snd bp)) rest)).
    { apply Forall_map. exact Hinv. }
    split; [exact Hall |].
    cbn [app].
    assert (Hst : Merge.read1 (rasterio_open p0) ::
                  map (fun bp => Merge.read1 (rasterio_open (snd bp))) rest =
                  map Merge.read1
                    (rasterio_open p0 ::
                     map (fun bp => rasterio_open (snd bp)) rest)).
    { simpl. now rewrite map_map. }
    rewrite Hst.
    rewrite (np_stack_aligned (reference (rasterio_open p0))).
    + reflexivity.
    + discriminate.
    + constructor; [apply aligned_reference | exact Hall].
  - destruct Hinv as [Hn [msg ->]]; [lia |]. right. split.
    + intros Hall. apply Hn. rewrite Forall_forall in *. intros bp Hbp.
      apply Hall. apply in_map_iff. exists bp. auto.
    + exists msg. reflexivity.
Qed.

End MergeRun.

(** X21.  A band with no file in either format stops the merge before
    anything is printed or written: the script raises [FileNotFoundError]
    for the first such band in the order B04, B03, B02, B08, having only
    made the output folder. *)
Theorem missing_band_stops_the_merge
    (input_folder output_folder : string) (existing : list string)
    (glob : string -> list string) (rasterio_open : string -> Merge.dataset)
    (fuel : nat) (band : string)
    (Hfuel : (length existing < fuel)%nat)
    (Hin : In band Merge.bands)
    (Hmiss : missing input_folder glob band) :
  exists pre b post,
    Merge.bands = pre ++ b :: post /\
    (forall b', In b' pre -> ~ missing input_folder glob b') /\
    missing input_folder glob b /\
    Merge.run input_folder output_folder existing glob rasterio_open fuel =
    Some ([Merge.MakeDirs output_folder],
          Merge.Failed (Merge.FileNotFoundError
            ("Band " ++ b ++ " not found in: " ++ input_folder)%string)).
Proof.
  destruct (versioning_first_candidate output_folder existing fuel 0)
    as [n [_ [Hv _]]]; [intros j Hj; lia | lia |].
  destruct (find_bands_missing input_folder glob Merge.bands [])
    as [pre [b [post [Hbs [Hpre [Hb Hf]]]]]].
  { exists band. split; assumption. }
  exists pre, b, post. split; [exact Hbs |]. split; [exact Hpre |].
  split; [exact Hb |].
  unfold Merge.run. simpl candidate in Hv. rewrite Hv, Hf. reflexivity.
Qed.

(** A run of X21: nothing matches any pattern. *)
Lemma missing_band_stops_the_merge_witness :
  exists b,
    Merge.run "in" "out" [] (fun _ => [])
      (fun _ => Merge.mk_dataset "GTiff" "uint16" None 1 ""
                  (mk_affine 10 0 0 0 (-10) 0) (full 2 2 0)) 1 =
    Some ([Merge.MakeDirs "out"],
          Merge.Failed (Merge.FileNotFoundError
            ("Band " ++ b ++ " not found in: " ++ "in")%string)).
Proof.
  destruct (missing_band_stops_the_merge "in" "out" [] (fun _ => [])
              (fun _ => Merge.mk_dataset "GTiff" "uint16" None 1 ""
                          (mk_affine 10 0 0 0 (-10) 0) (full 2 2 0)) 1 "B02")
    as [pre [b [post [_ [_ [_ H]]]]]].
  - simpl. lia.
  - simpl. auto.
  - split; reflexivity.
  - exists b. exact H.
Defined.

(** X22.  Whatever the merge writes, it writes to a path that did not exist,
    and only aligned bands: if a run records a written mosaic, then
    the run ended normally, the path was free, the metadata are those of the
    first band with four bands, [uint16] and the configured CRS, and the
    four arrays are the first bands of datasets of the same width, height
    and transform. *)
Theorem merge_writes_free_name_aligned_bands
    (input_folder output_folder : string) (existing : list string)
    (glob : string -> list string) (rasterio_open : string -> Merge.dataset)
    (fuel : nat) (log : list Merge.event) (res : Merge.outcome unit)
    (p : string) (m : Merge.Meta) (stacked : list (ndarray Z))
    (Hrun : Merge.run input_folder output_folder existing glob
              rasterio_open fuel = Some (log, res))
    (Hw : In (Merge.Written p m stacked) log) :
  ~ In p existing /\
  res = Merge.Done tt /\
  Merge.count m = 4%nat /\ Merge.dtype m = "uint16"%string /\
  Merge.crs m = Merge.sentinel_crs /\
  length stacked = 4%nat /\
  (forall a, In a stacked -> shape a = (Merge.height m, Merge.width m)) /\
  exists src srcs,
    m = reference src /\ stacked = map Merge.read1 (src :: srcs) /\
    Forall (aligned m) (src :: srcs).
Proof.
  pose proof Hrun as Hrun0. unfold Merge.run in Hrun.
  destruct (Merge.versioning output_folder existing fuel 1
              (Merge.base_output_file output_folder)) as [output_file |] eqn:Ev;
    [| discriminate].
  destruct (Merge.find_bands input_folder glob Merge.bands [])
    as [band_files | e] eqn:Ef.
  2:{ injection Hrun as <- <-. destruct Hw as [H | []]. discriminate. }
  clear Hrun.
  destruct (run_found input_folder output_folder existing glob rasterio_open
              fuel output_file band_files Ev Ef)
    as [src [srcs [_ [Hlen [[Hall Hr] | [_ [msg Hr]]]]]]];
    rewrite Hr in Hrun0; apply some_pair_inj in Hrun0;
    destruct Hrun0 as [<- <-].
  2:{ exfalso. exact (located_no_write output_folder band_files p m stacked Hw). }
  apply in_app_or in Hw. destruct Hw as [Hw | Hw].
  { exfalso. exact (located_no_write output_folder band_files p m stacked Hw). }
  destruct Hw as [Hw | [Hw | [Hw | []]]]; try discriminate.
  injection Hw as <- <- <-.
  assert (Hall' : Forall (aligned (reference src)) (src :: srcs)).
  { constructor; [apply aligned_reference | exact Hall]. }
  split; [exact (versioning_free output_folder existing fuel _ _ _ Ev) |].
  split; [reflexivity |]. split; [reflexivity |]. split; [reflexivity |].
  split; [reflexivity |].
  split; [simpl; rewrite length_map; lia |].
  split.
  - intros a Ha.
    change (In a (map Merge.read1 (src :: srcs))) in Ha.
    apply in_map_iff in Ha. destruct Ha as [s [<- Hs]].
    rewrite Forall_forall in Hall'. destruct (Hall' s Hs) as [Hw' [Hh' _]].
    unfold shape, Merge.ds_width, Merge.ds_height in *. congruence.
  - exists src, srcs. repeat split. exact Hall'.
Qed.

(** A run of X22: four aligned 2x2 bands, the base name taken. *)
Lemma merge_writes_free_name_aligned_bands_witness :
  exists (p : string) (m : Merge.Meta) (stacked : list (ndarray Z)),
    p = "out/S2_merged_RGBNIR_v1.tif"%string /\ Merge.count m = 4%nat /\
    length stacked = 4%nat.
Proof.
  set (src := Merge.mk_dataset "GTiff" "uint16" None 1 ""
                (mk_affine 10 0 0 0 (-10) 0) (full 2 2 7)).
  set (log := (Merge.MakeDirs "out" ::
               Merge.located [("B04", "in/**/*B04*.tif"); ("B03", "in/**/*B03*.tif");
                              ("B02", "in/**/*B02*.tif"); ("B08", "in/**/*B08*.tif")]%string) ++
              [Merge.Written "out/S2_merged_RGBNIR_v1.tif" (reference src)
                 (map Merge.read1 [src; src; src; src]);
               Merge.Printed (Merge.newline ++ Merge.check_mark ++
                              " Saved georeferenced RGB+NIR mosaic:" ++
                              Merge.newline ++ "  " ++
                              "out/S2_merged_RGBNIR_v1.tif")%string;
               Merge.Shown (Merge.preview (map Merge.read1 [src; src; src; src]))]).
  exists "out/S2_merged_RGBNIR_v1.tif"%string, (reference src),
         (map Merge.read1 [src; src; src; src]).
  destruct (merge_writes_free_name_aligned_bands "in" "out"
              ["out/S2_merged_RGBNIR.tif"%string] (fun pat => [pat])
              (fun _ => src) 2 log (Merge.Done tt)
              "out/S2_merged_RGBNIR_v1.tif" (reference src)
              (map Merge.read1 [src; src; src; src]))
    as [_ [_ [Hc [_ [_ [Hl _]]]]]].
  - vm_compute. reflexivity.
  - apply in_or_app. right. left. reflexivity.
  - split; [reflexivity |]. split; [exact Hc | exact Hl].
Defined.

(** X23.  Once the four bands are found, alignment decides the run: the
    datasets of the last three bands have the width, height and transform
    of the first exactly when the run ends normally, and then the mosaic of
    the four first bands is written, with the metadata of the first band,
    under a name that did not exist; otherwise the script raises a
    [ValueError] and nothing is written.  In particular [np.stack] never
    fails after the alignment check. *)
Theorem found_bands_merge_iff_aligned
    (input_folder output_folder : string) (existing : list string)
    (glob : string -> list string) (rasterio_open : string -> Merge.dataset)
    (fuel : nat) (band_files : list (string * string))
    (Hfuel : (length existing < fuel)%nat)
    (Hfound : Merge.find_bands input_folder glob Merge.bands [] =
              Merge.Done band_files) :
  exists src srcs log res,
    map (fun bp => rasterio_open (snd bp)) band_files = src :: srcs /\
    Merge.run input_folder output_folder existing glob rasterio_open fuel =
    Some (log, res) /\
    (Forall (aligned (reference src)) srcs <-> res = Merge.Done tt) /\
    (Forall (aligned (reference src)) srcs ->
     exists p, ~ In p existing /\
       In (Merge.Written p (reference src) (map Merge.read1 (src :: srcs))) log) /\
    (~ Forall (aligned (reference src)) srcs ->
     (exists msg, res = Merge.Failed (Merge.Builtin (ValueError msg))) /\
     forall p m stacked, ~ In (Merge.Written p m stacked) log).
Proof.
  destruct (versioning_first_candidate output_folder existing fuel 0)
    as [n [_ [Hv [Hfree _]]]]; [intros j Hj; lia | lia |].
  simpl candidate in Hv.
  destruct (run_found input_folder output_folder existing glob rasterio_open
              fuel _ band_files Hv Hfound)
    as [src [srcs [Hmap [_ [[Hall Hr] | [Hn [msg Hr]]]]]]].
  - exists src, srcs. eexists. eexists. split; [exact Hmap |].
    split; [exact Hr |]. split; [tauto |]. split.
    + intros _. exists (candidate output_folder n). split; [exact Hfree |].
      apply in_or_app. right. left. reflexivity.
    + intros H. contradiction.
  - exists src, srcs. eexists. eexists. split; [exact Hmap |].
    split; [exact Hr |]. split; [| split].
    + split; [intros H; contradiction | intros H; discriminate].
    + intros H. contradiction.
    + intros _. split; [exists msg; reflexivity |].
      intros p m stacked. apply located_no_write.
Qed.

(** A run of X23: the datasets of all four bands are the same 2x2 raster. *)
Lemma found_bands_merge_iff_aligned_witness :
  exists log,
    Merge.run "in" "out" [] (fun pat => [pat])
      (fun _ => Merge.mk_dataset "GTiff" "uint16" None 1 ""
                  (mk_affine 10 0 0 0 (-10) 0) (full 2 2 7)) 1 =
    Some (log, Merge.Done tt).
Proof.
  set (src := Merge.mk_dataset "GTiff" "uint16" None 1 ""
                (mk_affine 10 0 0 0 (-10) 0) (full 2 2 7)).
  destruct (found_bands_merge_iff_aligned "in" "out" [] (fun pat => [pat])
              (fun _ => src) 1
              [("B04", "in/**/*B04*.tif"); ("B03", "in/**/*B03*.tif");
               ("B02", "in/**/*B02*.tif"); ("B08", "in/**/*B08*.tif")]%string)
    as [s [ss [log [res [Hmap [Hr [Hiff _]]]]]]].
  - simpl. lia.
  - vm_compute. reflexivity.
  - exists log. rewrite Hr. f_equal. f_equal. apply Hiff.
    injection Hmap as <- <-.
    repeat constructor.
Defined.
